(** * EventGo backend: the ticket / waitlist core

    A shallow embedding of the route handlers of [routes/waitlist.js],
    [routes/tickets.js] and [routes/ticketTypes.js] that move tickets between
    owners: purchase, self-service return, organizer refund, the waitlist
    queue, the offer engine [assignTicketToWaitlist], the accept / decline
    handlers and the periodic sweep [cleanupExpiredReservations].

    The relational store is a record of row lists (one list per table, in
    insertion order) together with the three serial sequences that the
    handlers draw ids from.  Every SQL statement of the handlers is one
    function on that record.  JavaScript numbers that carry money are IEEE
    binary64 values ([float]), printed where the handlers print them with
    [toFixed(2)]; identifiers, counters and timestamps (milliseconds) are
    integers. *)

From Stdlib Require Import ZArith List Bool Lia String Floats DecimalString.
Import ListNotations.

Set Warnings "-inexact-float".
Open Scope Z_scope.

(* ------------------------------------------------------------------ *)
(** ** Rows *)

Inductive ticket_status : Type :=
| Active | Reserved | PendingReturn | Refunded.

Inductive tx_status : Type :=
| Pending | Completed | Cancelled | Expired | TxRefunded.

Definition ticket_status_eqb (a b : ticket_status) : bool :=
  match a, b with
  | Active, Active | Reserved, Reserved
  | PendingReturn, PendingReturn | Refunded, Refunded => true
  | _, _ => false
  end.

Definition tx_status_eqb (a b : tx_status) : bool :=
  match a, b with
  | Pending, Pending | Completed, Completed | Cancelled, Cancelled
  | Expired, Expired | TxRefunded, TxRefunded => true
  | _, _ => false
  end.

Record event : Type := mkEvent {
  e_id : Z;
  e_organizer_id : Z;
  e_start_datetime : option Z;
  e_end_datetime : option Z;
  e_total_tickets : Z;
  e_tickets_sold : Z
}.

Record ticket_type : Type := mkTicketType {
  tt_id : Z;
  tt_event_id : Z;
  tt_price : float;
  tt_total_tickets : Z;
  tt_tickets_sold : Z
}.

Record ticket : Type := mkTicket {
  t_id : Z;
  t_transaction_id : Z;
  t_ticket_type_id : Z;
  t_event_id : Z;
  t_user_id : Z;
  t_status : ticket_status;
  t_issued_at : Z
}.

Record transaction : Type := mkTransaction {
  x_id : Z;
  x_user_id : Z;
  x_total_price : float;
  x_status : tx_status;
  x_payment_method : string
}.

Record waitlist_entry : Type := mkWaitlist {
  w_id : Z;
  w_user_id : Z;
  w_event_id : Z;
  w_joined_at : Z;
  w_offered_at : option Z;
  w_reservation_expires_at : option Z
}.

(** The store: the six tables and the serial sequences of the three tables
    the core inserts into. *)
Record DB : Type := mkDB {
  users : list Z;
  events : list event;
  ticket_types : list ticket_type;
  tickets : list ticket;
  transactions : list transaction;
  waitlist : list waitlist_entry;
  next_transaction_id : Z;
  next_ticket_id : Z;
  next_waitlist_id : Z
}.

(** [INTERVAL '30 minutes'], in milliseconds. *)
Definition RESERVATION_WINDOW : Z := 30 * 60 * 1000.

(* ------------------------------------------------------------------ *)
(** ** Generic SQL on row lists *)

Section Sql.
Context {A : Type}.

(** [UPDATE ... SET ... WHERE p] *)
Definition update_where (p : A -> bool) (f : A -> A) (l : list A) : list A :=
  map (fun r => if p r then f r else r) l.

(** [DELETE FROM ... WHERE p] *)
Definition delete_where (p : A -> bool) (l : list A) : list A :=
  filter (fun r => negb (p r)) l.

(** [ORDER BY key ASC LIMIT 1]; among equal keys the row met first in the
    table wins. *)
Fixpoint first_by (key : A -> Z) (l : list A) : option A :=
  match l with
  | [] => None
  | r :: rest =>
      match first_by key rest with
      | None => Some r
      | Some r' => if key r <=? key r' then Some r else Some r'
      end
  end.

(** [LEFT JOIN]: the matching right rows, or one NULL row. *)
Definition left_join {B : Type} (on : B -> bool) (right : list B) : list (option B) :=
  match filter on right with
  | [] => [None]
  | rs => map Some rs
  end.
End Sql.

(* ------------------------------------------------------------------ *)
(** ** Statements of the handlers *)

Definition set_ticket_status (st : ticket_status) (t : ticket) : ticket :=
  mkTicket (t_id t) (t_transaction_id t) (t_ticket_type_id t) (t_event_id t)
           (t_user_id t) st (t_issued_at t).

Definition set_tx_status (st : tx_status) (x : transaction) : transaction :=
  mkTransaction (x_id x) (x_user_id x) (x_total_price x) st (x_payment_method x).

Definition set_offer (offered expires : Z) (w : waitlist_entry) : waitlist_entry :=
  mkWaitlist (w_id w) (w_user_id w) (w_event_id w) (w_joined_at w)
             (Some offered) (Some expires).

Definition set_tt_sold (n : Z) (tt : ticket_type) : ticket_type :=
  mkTicketType (tt_id tt) (tt_event_id tt) (tt_price tt) (tt_total_tickets tt) n.

Definition set_event_counts (total sold : Z) (e : event) : event :=
  mkEvent (e_id e) (e_organizer_id e) (e_start_datetime e) (e_end_datetime e)
          total sold.

Definition with_events (f : list event -> list event) (s : DB) : DB :=
  mkDB (users s) (f (events s)) (ticket_types s) (tickets s) (transactions s)
       (waitlist s) (next_transaction_id s) (next_ticket_id s) (next_waitlist_id s).

Definition with_ticket_types (f : list ticket_type -> list ticket_type) (s : DB) : DB :=
  mkDB (users s) (events s) (f (ticket_types s)) (tickets s) (transactions s)
       (waitlist s) (next_transaction_id s) (next_ticket_id s) (next_waitlist_id s).

Definition with_tickets (f : list ticket -> list ticket) (s : DB) : DB :=
  mkDB (users s) (events s) (ticket_types s) (f (tickets s)) (transactions s)
       (waitlist s) (next_transaction_id s) (next_ticket_id s) (next_waitlist_id s).

Definition with_transactions (f : list transaction -> list transaction) (s : DB) : DB :=
  mkDB (users s) (events s) (ticket_types s) (tickets s) (f (transactions s))
       (waitlist s) (next_transaction_id s) (next_ticket_id s) (next_waitlist_id s).

Definition with_waitlist (f : list waitlist_entry -> list waitlist_entry) (s : DB) : DB :=
  mkDB (users s) (events s) (ticket_types s) (tickets s) (transactions s)
       (f (waitlist s)) (next_transaction_id s) (next_ticket_id s) (next_waitlist_id s).

(** [UPDATE transactions SET status = st WHERE id = $1] *)
Definition update_transaction_status (id : Z) (st : tx_status) : DB -> DB :=
  with_transactions (update_where (fun x => x_id x =? id) (set_tx_status st)).

(** [UPDATE tickets SET status = st WHERE id = $1] *)
Definition update_ticket_status (id : Z) (st : ticket_status) : DB -> DB :=
  with_tickets (update_where (fun t => t_id t =? id) (set_ticket_status st)).

(** [DELETE FROM tickets WHERE id = $1] *)
Definition delete_ticket_row (id : Z) : DB -> DB :=
  with_tickets (delete_where (fun t => t_id t =? id)).

(** [DELETE FROM waitlist WHERE id = $1] *)
Definition delete_waitlist_row (id : Z) : DB -> DB :=
  with_waitlist (delete_where (fun w => w_id w =? id)).

(** [DELETE FROM waitlist WHERE user_id = $1 AND event_id = $2] *)
Definition delete_waitlist_of (user_id event_id : Z) : DB -> DB :=
  with_waitlist
    (delete_where (fun w => (w_user_id w =? user_id) && (w_event_id w =? event_id))).

(** [INSERT INTO transactions (user_id, total_price, status, payment_method)
     VALUES (...) RETURNING id]: the id comes from the sequence. *)
Definition insert_transaction (user_id : Z) (total : float) (st : tx_status)
    (method : string) (s : DB) : DB :=
  mkDB (users s) (events s) (ticket_types s) (tickets s)
       (transactions s ++ [mkTransaction (next_transaction_id s) user_id total st method])
       (waitlist s) (next_transaction_id s + 1) (next_ticket_id s) (next_waitlist_id s).

(** [INSERT INTO tickets (transaction_id, ticket_type_id, event_id, user_id,
     status) VALUES (...)]; [issued_at] defaults to the insertion time. *)
Definition insert_ticket (transaction_id ticket_type_id event_id user_id : Z)
    (st : ticket_status) (now : Z) (s : DB) : DB :=
  mkDB (users s) (events s) (ticket_types s)
       (tickets s ++ [mkTicket (next_ticket_id s) transaction_id ticket_type_id
                               event_id user_id st now])
       (transactions s) (waitlist s)
       (next_transaction_id s) (next_ticket_id s + 1) (next_waitlist_id s).

(** [INSERT INTO waitlist (user_id, event_id) VALUES (...)]; [joined_at]
    defaults to the insertion time, the offer columns to NULL. *)
Definition insert_waitlist (user_id event_id now : Z) (s : DB) : DB :=
  mkDB (users s) (events s) (ticket_types s) (tickets s) (transactions s)
       (waitlist s ++ [mkWaitlist (next_waitlist_id s) user_id event_id now None None])
       (next_transaction_id s) (next_ticket_id s) (next_waitlist_id s + 1).

(** [SELECT COALESCE(SUM(tickets_sold), 0) FROM ticket_types WHERE event_id = $1]
    and the same over [total_tickets]. *)
Definition sum_tickets_sold (event_id : Z) (tts : list ticket_type) : Z :=
  fold_right (fun tt acc => tt_tickets_sold tt + acc) 0
             (filter (fun tt => tt_event_id tt =? event_id) tts).

Definition sum_total_tickets (event_id : Z) (tts : list ticket_type) : Z :=
  fold_right (fun tt acc => tt_total_tickets tt + acc) 0
             (filter (fun tt => tt_event_id tt =? event_id) tts).

(** [UPDATE events SET tickets_sold = (SELECT ... SUM ...),
     total_tickets = (SELECT ... SUM ...) WHERE id = $1] *)
Definition sync_event (event_id : Z) (s : DB) : DB :=
  with_events
    (update_where (fun e => e_id e =? event_id)
       (set_event_counts (sum_total_tickets event_id (ticket_types s))
                         (sum_tickets_sold event_id (ticket_types s)))) s.

(** [SELECT COUNT( * ) FROM tickets WHERE ticket_type_id = $1] *)
Definition count_tickets_of_type (ticket_type_id : Z) (ts : list ticket) : Z :=
  Z.of_nat (List.length (filter (fun t => t_ticket_type_id t =? ticket_type_id) ts)).

Definition find_event (id : Z) (s : DB) : option event :=
  find (fun e => e_id e =? id) (events s).

Definition find_ticket_type (id : Z) (s : DB) : option ticket_type :=
  find (fun tt => tt_id tt =? id) (ticket_types s).

Definition find_ticket (id : Z) (s : DB) : option ticket :=
  find (fun t => t_id t =? id) (tickets s).

Definition find_transaction (id : Z) (s : DB) : option transaction :=
  find (fun x => x_id x =? id) (transactions s).

(* ------------------------------------------------------------------ *)
(** ** Handlers as store transformers that record offer-engine calls

    A handler maps the store to its response, the new store and the list of
    [(event_id, ticket_type_id)] pairs it called [assignTicketToWaitlist]
    with, in call order. *)

Record Outcome (A : Type) : Type := mkOutcome {
  value : A;
  store : DB;
  engine_calls : list (Z * Z)
}.
Arguments mkOutcome {A}.
Arguments value {A}.
Arguments store {A}.
Arguments engine_calls {A}.

Definition Op (A : Type) : Type := DB -> Outcome A.

Definition ret {A} (a : A) : Op A := fun s => mkOutcome a s [].

Definition bind {A B} (m : Op A) (k : A -> Op B) : Op B :=
  fun s =>
    let o1 := m s in
    let o2 := k (value o1) (store o1) in
    mkOutcome (value o2) (store o2) (engine_calls o1 ++ engine_calls o2).

(** A query reads the store; a statement rewrites it. *)
Definition query {A} (q : DB -> A) : Op A := fun s => mkOutcome (q s) s [].
Definition exec (f : DB -> DB) : Op unit := fun s => mkOutcome tt (f s) [].

Notation "x <- m ;; k" := (bind m (fun x => k))
  (at level 61, m at next level, right associativity).
Notation "m ;;; k" := (bind m (fun _ => k))
  (at level 61, right associativity).

(* ------------------------------------------------------------------ *)
(** ** The offer engine: [assignTicketToWaitlist] *)

Inductive assignment : Type :=
| NotAssigned
| Assigned (user_id transaction_id : Z).

Definition assigned (a : assignment) : bool :=
  match a with NotAssigned => false | Assigned _ _ => true end.

(** [SELECT * FROM waitlist WHERE event_id = $1 AND offered_at IS NULL
     ORDER BY joined_at ASC LIMIT 1] *)
Definition next_unclaimed (event_id : Z) (s : DB) : option waitlist_entry :=
  first_by w_joined_at
    (filter (fun w => (w_event_id w =? event_id) &&
                      match w_offered_at w with None => true | Some _ => false end)
            (waitlist s)).

(** [ticketTypeResult.rows[0]?.price || 0] *)
Definition price_or_zero (ticket_type_id : Z) (s : DB) : float :=
  match find_ticket_type ticket_type_id s with
  | Some ty => tt_price ty
  | None => 0%float
  end.

Definition assignTicketToWaitlist (event_id ticket_type_id now : Z) (s : DB)
    : assignment * DB :=
  match next_unclaimed event_id s with
  | None => (NotAssigned, s)
  | Some waitlistUser =>
      let price := price_or_zero ticket_type_id s in
      let s1 := with_waitlist
                  (update_where (fun w => w_id w =? w_id waitlistUser)
                                (set_offer now (now + RESERVATION_WINDOW))) s in
      let transaction_id := next_transaction_id s1 in
      let s2 := insert_transaction (w_user_id waitlistUser) price Pending "waitlist"%string s1 in
      let s3 := insert_ticket transaction_id ticket_type_id event_id
                              (w_user_id waitlistUser) Reserved now s2 in
      (Assigned (w_user_id waitlistUser) transaction_id, s3)
  end.

(** The call as the handlers make it: the engine runs and the call is
    recorded. *)
Definition offer (event_id ticket_type_id now : Z) : Op assignment :=
  fun s =>
    let r := assignTicketToWaitlist event_id ticket_type_id now s in
    mkOutcome (fst r) (snd r) [(event_id, ticket_type_id)].

(* ------------------------------------------------------------------ *)
(** ** The sweep: [cleanupExpiredReservations] *)

Record expired_row : Type := mkExpiredRow {
  r_id : Z;
  r_event_id : Z;
  r_ticket_type_id : Z;
  r_user_id : Z;
  r_transaction_id : Z;
  r_waitlist_id : option Z
}.

(** The WHERE clause on one joined row. *)
Definition is_expired_reservation (now : Z) (t : ticket) (x : transaction)
    (w : option waitlist_entry) : bool :=
  ticket_status_eqb (t_status t) Reserved &&
  tx_status_eqb (x_status x) Pending &&
  match w with
  | Some w' =>
      match w_reservation_expires_at w' with
      | Some e => e <? now
      | None => false
      end
  | None => false
  end.

(** [FROM tickets t JOIN transactions tx ON t.transaction_id = tx.id
     LEFT JOIN waitlist w ON w.user_id = t.user_id AND w.event_id = t.event_id
     WHERE ...].  No row is locked by anyone else in a sequential run, so
     SKIP LOCKED skips nothing. *)
Definition expired_reservations (now : Z) (s : DB) : list expired_row :=
  flat_map (fun t =>
    flat_map (fun x =>
      flat_map (fun w =>
        if is_expired_reservation now t x w
        then [mkExpiredRow (t_id t) (t_event_id t) (t_ticket_type_id t)
                           (t_user_id t) (t_transaction_id t) (option_map w_id w)]
        else [])
        (left_join (fun w => (w_user_id w =? t_user_id t) &&
                             (w_event_id w =? t_event_id t)) (waitlist s)))
      (filter (fun x => x_id x =? t_transaction_id t) (transactions s)))
    (tickets s).

(** The body of the [for] loop for one row.  The re-offer runs on a
    connection of its own while this body's transaction is still open; the
    engine reads only the waitlist and the ticket types, and the entry this
    body deleted is locked by the open transaction, so the engine's
    SKIP LOCKED select passes over it, as it does here where the entry is
    already gone. *)
Definition cleanup_one (now : Z) (expiredTicket : expired_row) : Op unit :=
  exec (update_transaction_status (r_transaction_id expiredTicket) Expired) ;;;
  exec (delete_ticket_row (r_id expiredTicket)) ;;;
  match r_waitlist_id expiredTicket with
  | Some wid => exec (delete_waitlist_row wid)
  | None => ret tt
  end ;;;
  _ <- offer (r_event_id expiredTicket) (r_ticket_type_id expiredTicket) now ;;
  ret tt.

Fixpoint for_each {A} (body : A -> Op unit) (l : list A) : Op unit :=
  match l with
  | [] => ret tt
  | a :: rest => body a ;;; for_each body rest
  end.

(** The result is [{ cleaned: n }]. *)
Definition cleanupExpiredReservations (now : Z) : Op Z :=
  rows <- query (expired_reservations now) ;;
  match rows with
  | [] => ret 0
  | _ => for_each (cleanup_one now) rows ;;; ret (Z.of_nat (List.length rows))
  end.

(* ------------------------------------------------------------------ *)
(** ** The waitlist queue: join and leave *)

(** [validateId] / [validateNumber(_, _, 1, 2147483647)] *)
Definition valid_id (id : Z) : bool := (1 <=? id) && (id <=? 2147483647).

(** [new Date(event.end_datetime || event.start_datetime)]; [new Date(null)]
    is the epoch. *)
Definition event_end_time (e : event) : Z :=
  match e_end_datetime e with
  | Some t => t
  | None => match e_start_datetime e with Some t => t | None => 0 end
  end.

(** [SELECT ... FROM tickets t LEFT JOIN ticket_types tt ...
     WHERE t.event_id = $1 AND t.status = 'pending_return'
     ORDER BY t.issued_at ASC LIMIT 1] *)
Definition oldest_pending_return (event_id : Z) (s : DB) : option ticket :=
  first_by t_issued_at
    (filter (fun t => (t_event_id t =? event_id) &&
                      ticket_status_eqb (t_status t) PendingReturn) (tickets s)).

(** [ROW_NUMBER() OVER (ORDER BY joined_at ASC)] of the entry just inserted:
    it is the last row of the table and every other entry of the event joined
    no later than it. *)
Definition position_of_new_entry (event_id joined_at : Z) (s : DB) : Z :=
  Z.of_nat (List.length
    (filter (fun w => (w_event_id w =? event_id) && (w_joined_at w <=? joined_at))
            (waitlist s))).

Inductive join_response : Type :=
| JoinInvalid
| JoinUserNotFound
| JoinEventNotFound
| JoinEventEnded
| JoinNotSoldOut
| JoinDuplicate
| JoinOffered (transaction_id : Z)
| JoinJoined (entry : waitlist_entry) (position : Z).

(** [POST /waitlist] *)
Definition post_waitlist (user_id event_id now : Z) : Op join_response :=
  if negb (valid_id user_id) then ret JoinInvalid else
  if negb (valid_id event_id) then ret JoinInvalid else
  userCheckExists <- query (fun s => existsb (Z.eqb user_id) (users s)) ;;
  eventCheck <- query (find_event event_id) ;;
  if negb userCheckExists then ret JoinUserNotFound else
  match eventCheck with
  | None => ret JoinEventNotFound
  | Some ev =>
    if event_end_time ev <? now then ret JoinEventEnded else
    if e_tickets_sold ev <? e_total_tickets ev then ret JoinNotSoldOut else
    existing <- query (fun s =>
      filter (fun w => (w_user_id w =? user_id) && (w_event_id w =? event_id))
             (waitlist s)) ;;
    match existing with
    | _ :: _ => ret JoinDuplicate
    | [] =>
      pendingTicketCheck <- query (oldest_pending_return event_id) ;;
      match pendingTicketCheck with
      | Some pendingTicket =>
        price <- query (price_or_zero (t_ticket_type_id pendingTicket)) ;;
        transaction_id <- query next_transaction_id ;;
        exec (insert_transaction user_id price Pending "waitlist"%string) ;;;
        exec (insert_ticket transaction_id (t_ticket_type_id pendingTicket)
                            event_id user_id Reserved now) ;;;
        ret (JoinOffered transaction_id)
      | None =>
        entry_id <- query next_waitlist_id ;;
        exec (insert_waitlist user_id event_id now) ;;;
        position <- query (position_of_new_entry event_id now) ;;
        ret (JoinJoined (mkWaitlist entry_id user_id event_id now None None) position)
      end
    end
  end.

Inductive leave_response : Type :=
| LeaveInvalid
| LeaveNotFound
| LeaveDeleted (deleted : waitlist_entry).

(** [DELETE /waitlist/:id] *)
Definition delete_waitlist (id : Z) : Op leave_response :=
  if negb (valid_id id) then ret LeaveInvalid else
  result <- query (fun s => filter (fun w => w_id w =? id) (waitlist s)) ;;
  exec (delete_waitlist_row id) ;;;
  match result with
  | [] => ret LeaveNotFound
  | deleted :: _ => ret (LeaveDeleted deleted)
  end.

(** [DELETE /waitlist/event/:event_id/user/:user_id] *)
Definition delete_waitlist_event_user (event_id user_id : Z) : Op leave_response :=
  if negb (valid_id event_id) then ret LeaveInvalid else
  if negb (valid_id user_id) then ret LeaveInvalid else
  result <- query (fun s =>
    filter (fun w => (w_user_id w =? user_id) && (w_event_id w =? event_id))
           (waitlist s)) ;;
  exec (delete_waitlist_of user_id event_id) ;;;
  match result with
  | [] => ret LeaveNotFound
  | deleted :: _ => ret (LeaveDeleted deleted)
  end.

(* ------------------------------------------------------------------ *)
(** ** Accept and decline *)

(** [SELECT * FROM transactions WHERE id = $1 AND status = 'pending'
     AND payment_method = 'waitlist'] *)
Definition pending_offer (transaction_id : Z) (s : DB) : option transaction :=
  find (fun x => (x_id x =? transaction_id) &&
                 tx_status_eqb (x_status x) Pending &&
                 String.eqb (x_payment_method x) "waitlist") (transactions s).

(** [SELECT * FROM tickets WHERE transaction_id = $1 AND status = 'reserved'] *)
Definition reserved_ticket_of (transaction_id : Z) (s : DB) : option ticket :=
  find (fun t => (t_transaction_id t =? transaction_id) &&
                 ticket_status_eqb (t_status t) Reserved) (tickets s).

(** [SELECT * FROM waitlist WHERE user_id = $1 AND event_id = $2], first row *)
Definition waitlist_entry_of (user_id event_id : Z) (s : DB) : option waitlist_entry :=
  find (fun w => (w_user_id w =? user_id) && (w_event_id w =? event_id)) (waitlist s).

(** [waitlistEntry.offered_at && waitlistEntry.reservation_expires_at]
    followed by [expiresAt < now] *)
Definition offer_lapsed (now : Z) (w : option waitlist_entry) : bool :=
  match w with
  | Some entry =>
      match w_offered_at entry, w_reservation_expires_at entry with
      | Some _, Some expiresAt => expiresAt <? now
      | _, _ => false
      end
  | None => false
  end.

(** [SELECT * FROM tickets WHERE event_id = $1 AND ticket_type_id = $2
     AND status = 'pending_return' ORDER BY issued_at ASC LIMIT 1] *)
Definition pending_return_ticket (event_id ticket_type_id : Z) (s : DB) : option ticket :=
  first_by t_issued_at
    (filter (fun t => (t_event_id t =? event_id) &&
                      (t_ticket_type_id t =? ticket_type_id) &&
                      ticket_status_eqb (t_status t) PendingReturn) (tickets s)).

(** [platformFee = originalPrice * 0.02; refundAmount = originalPrice - platformFee] *)
Definition platform_fee (originalPrice : float) : float :=
  (originalPrice * 0.02)%float.

Definition refund_amount (originalPrice : float) : float :=
  (originalPrice - platform_fee originalPrice)%float.

(** [Number.prototype.toFixed] with two fraction digits.  For a finite
    number of magnitude below 10^21 the answer is the decimal string of the
    integer [n] for which [n / 100] is closest to the exact value of the
    number (the larger [n] when two are equally close), with a point before
    the last two digits, and a minus sign in front when the number is below
    zero.  Otherwise ([NaN], the infinities, magnitudes from 10^21 on) the
    answer is the number's own [ToString], which is kept as the number. *)
Inductive fixed : Type :=
| Digits (s : string)
| ViaToString (x : float).

Definition digits (n : Z) : string :=
  NilZero.string_of_uint (N.to_uint (Z.to_N n)).

Definition two_decimals (n : Z) : string :=
  String.append (digits (n / 100))
    (String.append "."
       (String.append (if n mod 100 <? 10 then "0" else "") (digits (n mod 100)))).

(** The binary64 value is [m * 2 ^ e]. *)
Definition nearest_hundredth (m : positive) (e : Z) : Z :=
  if 0 <=? e then Zpos m * 2 ^ e * 100
  else (2 * (Zpos m * 100) + 2 ^ (- e)) / (2 * 2 ^ (- e)).

Definition below_1e21 (m : positive) (e : Z) : bool :=
  if 0 <=? e then Zpos m * 2 ^ e <? 10 ^ 21
  else Zpos m <? 10 ^ 21 * 2 ^ (- e).

Definition toFixed2 (x : float) : fixed :=
  match Prim2SF x with
  | S754_zero _ => Digits "0.00"
  | S754_finite negative m e =>
      if below_1e21 m e
      then Digits (String.append (if negative then "-" else "")
                                 (two_decimals (nearest_hundredth m e)))
      else ViaToString x
  | _ => ViaToString x
  end.

(** The 200 answer carries [ticket], [refunded_ticket_id],
    [refund_amount: refundAmount] and [platform_fee: platformFee.toFixed(2)]. *)
Inductive accept_response : Type :=
| AcceptInvalid
| AcceptReservationNotFound
| AcceptTicketNotFound
| AcceptReservationExpired
| AcceptInternalError
| Accepted (accepted : ticket) (refunded_ticket_id : option Z)
           (refundAmount : float) (platformFee : fixed).

(** [POST /waitlist/accept-ticket/:transaction_id].  The statements run on
    the pool, each committed on its own; when the displaced ticket's original
    transaction row is missing, reading its price throws after the first two
    updates and the handler answers with an internal error. *)
Definition post_accept_ticket (transaction_id now : Z) : Op accept_response :=
  if negb (valid_id transaction_id) then ret AcceptInvalid else
  txResult <- query (pending_offer transaction_id) ;;
  match txResult with
  | None => ret AcceptReservationNotFound
  | Some transaction =>
    ticketResult <- query (reserved_ticket_of transaction_id) ;;
    match ticketResult with
    | None => ret AcceptTicketNotFound
    | Some ticket =>
      waitlistCheck <- query (waitlist_entry_of (x_user_id transaction) (t_event_id ticket)) ;;
      if offer_lapsed now waitlistCheck then
        exec (update_transaction_status transaction_id Expired) ;;;
        exec (delete_ticket_row (t_id ticket)) ;;;
        _ <- offer (t_event_id ticket) (t_ticket_type_id ticket) now ;;
        ret AcceptReservationExpired
      else
        pendingReturnTicket <-
          query (pending_return_ticket (t_event_id ticket) (t_ticket_type_id ticket)) ;;
        exec (update_transaction_status transaction_id Completed) ;;;
        exec (update_ticket_status (t_id ticket) Active) ;;;
        match pendingReturnTicket with
        | Some returnedTicket =>
          originalTx <- query (find_transaction (t_transaction_id returnedTicket)) ;;
          match originalTx with
          | None => ret AcceptInternalError
          | Some original =>
            let originalPrice := x_total_price original in
            let platformFee := platform_fee originalPrice in
            let refundAmount := refund_amount originalPrice in
            exec (update_ticket_status (t_id returnedTicket) Refunded) ;;;
            exec (insert_transaction (t_user_id returnedTicket) (- refundAmount)%float
                                     TxRefunded "waitlist_return"%string) ;;;
            exec (delete_waitlist_of (x_user_id transaction) (t_event_id ticket)) ;;;
            ret (Accepted ticket (Some (t_id returnedTicket)) refundAmount
                          (toFixed2 platformFee))
          end
        | None =>
          exec (delete_waitlist_of (x_user_id transaction) (t_event_id ticket)) ;;;
          ret (Accepted ticket None 0%float (toFixed2 0%float))
        end
    end
  end.

Inductive decline_response : Type :=
| DeclineInvalid
| DeclineReservationNotFound
| DeclineTicketNotFound
| Declined (assigned_to_next : bool).

(** [POST /waitlist/decline-ticket/:transaction_id] *)
Definition post_decline_ticket (transaction_id now : Z) : Op decline_response :=
  if negb (valid_id transaction_id) then ret DeclineInvalid else
  txResult <- query (pending_offer transaction_id) ;;
  match txResult with
  | None => ret DeclineReservationNotFound
  | Some transaction =>
    ticketResult <- query (reserved_ticket_of transaction_id) ;;
    match ticketResult with
    | None => ret DeclineTicketNotFound
    | Some ticket =>
      exec (update_transaction_status transaction_id Cancelled) ;;;
      exec (delete_ticket_row (t_id ticket)) ;;;
      exec (delete_waitlist_of (x_user_id transaction) (t_event_id ticket)) ;;;
      nextAssignment <- offer (t_event_id ticket) (t_ticket_type_id ticket) now ;;
      ret (Declined (assigned nextAssignment))
    end
  end.

(* ------------------------------------------------------------------ *)
(** ** Tickets: purchase, self-service return, organizer refund, delete *)

(** [payment_method || "card"] *)
Definition method_or_card (payment_method : option string) : string :=
  match payment_method with
  | Some m => if String.eqb m "" then "card"%string else m
  | None => "card"%string
  end.

(** The [validQuantity] inserts of an active ticket. *)
Fixpoint insert_active_tickets (n : nat) (transaction_id ticket_type_id event_id
    user_id now : Z) (s : DB) : DB :=
  match n with
  | O => s
  | S n' =>
      insert_active_tickets n' transaction_id ticket_type_id event_id user_id now
        (insert_ticket transaction_id ticket_type_id event_id user_id Active now s)
  end.

(** [UPDATE ticket_types SET tickets_sold = tickets_sold + $1 WHERE id = $2] *)
Definition add_tickets_sold (ticket_type_id delta : Z) : DB -> DB :=
  with_ticket_types
    (update_where (fun ty => tt_id ty =? ticket_type_id)
                  (fun ty => set_tt_sold (tt_tickets_sold ty + delta) ty)).

Inductive purchase_response : Type :=
| PurchaseInvalid
| PurchaseUserNotFound
| PurchaseEventNotFound
| PurchaseEventEnded
| PurchaseTypeNotFound
| PurchaseNotEnough (available : Z)
| Purchased (transaction_id : Z) (total_price : float) (quantity : Z).

(** [POST /tickets]; every early exit rolls the (still empty) transaction
    back. *)
Definition post_tickets (user_id event_id ticket_type_id quantity : Z)
    (payment_method : option string) (now : Z) : Op purchase_response :=
  if negb (valid_id event_id) then ret PurchaseInvalid else
  if negb (valid_id ticket_type_id) then ret PurchaseInvalid else
  if negb ((1 <=? quantity) && (quantity <=? 10)) then ret PurchaseInvalid else
  userCheckExists <- query (fun s => existsb (Z.eqb user_id) (users s)) ;;
  eventCheck <- query (find_event event_id) ;;
  typeCheck <- query (find_ticket_type ticket_type_id) ;;
  if negb userCheckExists then ret PurchaseUserNotFound else
  match eventCheck with
  | None => ret PurchaseEventNotFound
  | Some ev =>
    if event_end_time ev <? now then ret PurchaseEventEnded else
    match typeCheck with
    | None => ret PurchaseTypeNotFound
    | Some ty =>
      let available := tt_total_tickets ty - tt_tickets_sold ty in
      if available <? quantity then ret (PurchaseNotEnough available) else
      let total_price := (tt_price ty * PrimFloat.of_uint63 (Uint63.of_Z quantity))%float in
      transaction_id <- query next_transaction_id ;;
      exec (insert_transaction user_id total_price Completed
                               (method_or_card payment_method)) ;;;
      exec (insert_active_tickets (Z.to_nat quantity) transaction_id ticket_type_id
                                  event_id user_id now) ;;;
      exec (add_tickets_sold ticket_type_id quantity) ;;;
      exec (sync_event event_id) ;;;
      ret (Purchased transaction_id total_price quantity)
    end
  end.

(** [FROM tickets t JOIN events e ON t.event_id = e.id ... WHERE t.id = $1],
    first row. *)
Definition ticket_with_event (id : Z) (s : DB) : option (ticket * event) :=
  hd_error
    (flat_map (fun t => map (pair t)
                            (filter (fun e => e_id e =? t_event_id t) (events s)))
              (filter (fun t => t_id t =? id) (tickets s))).

Inductive refund_response : Type :=
| RefundInvalid
| RefundTicketNotFound
| RefundNotActive
| RefundNotSoldOut
| RefundRequested (assigned_to_waitlist : bool).

(** [PUT /tickets/:id/refund] *)
Definition put_ticket_refund (id now : Z) : Op refund_response :=
  if negb (valid_id id) then ret RefundInvalid else
  ticketCheck <- query (ticket_with_event id) ;;
  match ticketCheck with
  | None => ret RefundTicketNotFound
  | Some (ticket, ev) =>
    if negb (ticket_status_eqb (t_status ticket) Active) then ret RefundNotActive else
    let isSoldOut := e_total_tickets ev <=? e_tickets_sold ev in
    if negb isSoldOut then ret RefundNotSoldOut else
    exec (update_ticket_status id PendingReturn) ;;;
    waitlistAssignment <- offer (t_event_id ticket) (t_ticket_type_id ticket) now ;;
    ret (RefundRequested (assigned waitlistAssignment))
  end.

Inductive organizer_refund_response : Type :=
| OrgRefundInvalid
| OrgRefundTicketNotFound
| OrgRefundForbidden
| OrgRefundNotActive
| OrgRefunded (ticket_id event_id tickets_available : Z) (waitlist_assigned : bool).

(** [UPDATE events SET tickets_sold = tickets_sold - 1 WHERE id = $1] *)
Definition decrement_event_sold (event_id : Z) : DB -> DB :=
  with_events
    (update_where (fun e => e_id e =? event_id)
       (fun e => set_event_counts (e_total_tickets e) (e_tickets_sold e - 1) e)).

(** [PUT /tickets/:id/organizer-refund] *)
Definition put_ticket_organizer_refund (organizer_id id now : Z)
    : Op organizer_refund_response :=
  if negb (valid_id id) then ret OrgRefundInvalid else
  ticketCheck <- query (ticket_with_event id) ;;
  match ticketCheck with
  | None => ret OrgRefundTicketNotFound
  | Some (ticket, ev) =>
    if negb (e_organizer_id ev =? organizer_id) then ret OrgRefundForbidden else
    if negb (ticket_status_eqb (t_status ticket) Active) then ret OrgRefundNotActive else
    let isSoldOut := e_total_tickets ev <=? e_tickets_sold ev in
    exec (update_ticket_status id Refunded) ;;;
    exec (decrement_event_sold (t_event_id ticket)) ;;;
    exec (add_tickets_sold (t_ticket_type_id ticket) (-1)) ;;;
    exec (update_transaction_status (t_transaction_id ticket) TxRefunded) ;;;
    waitlistAssigned <-
      (if isSoldOut
       then waitlistAssignment <-
              offer (t_event_id ticket) (t_ticket_type_id ticket) now ;;
            ret (assigned waitlistAssignment)
       else ret false) ;;
    ret (OrgRefunded id (t_event_id ticket)
           (e_total_tickets ev - (e_tickets_sold ev - 1)) waitlistAssigned)
  end.

Inductive delete_response : Type :=
| DeleteInvalid
| DeleteNotFound
| Deleted (deleted : ticket).

(** [DELETE /tickets/:id] *)
Definition delete_ticket (id : Z) : Op delete_response :=
  if negb (valid_id id) then ret DeleteInvalid else
  result <- query (fun s => filter (fun t => t_id t =? id) (tickets s)) ;;
  exec (delete_ticket_row id) ;;;
  match result with
  | [] => ret DeleteNotFound
  | deleted :: _ => ret (Deleted deleted)
  end.

(* ------------------------------------------------------------------ *)
(** ** Ticket types: recount and sync-all *)

(** [UPDATE ticket_types SET tickets_sold = (SELECT COUNT( * ) FROM tickets
     WHERE ticket_type_id = $1) WHERE id = $1] *)
Definition recount_ticket_type (id : Z) (s : DB) : DB :=
  with_ticket_types
    (update_where (fun ty => tt_id ty =? id)
                  (set_tt_sold (count_tickets_of_type id (tickets s)))) s.

(** [PUT /ticket-types/:id/recount]; [true] is the 200 answer. *)
Definition put_ticket_type_recount (id : Z) : Op bool :=
  if negb (valid_id id) then ret false else
  exec (recount_ticket_type id) ;;;
  ret true.

(** [UPDATE ticket_types tt SET tickets_sold = (SELECT COUNT( * ) FROM tickets t
     WHERE t.ticket_type_id = tt.id)] *)
Definition recount_all_ticket_types (s : DB) : DB :=
  with_ticket_types
    (map (fun ty => set_tt_sold (count_tickets_of_type (tt_id ty) (tickets s)) ty)) s.

(** [UPDATE events e SET total_tickets = (SELECT ... WHERE event_id = e.id),
     tickets_sold = (SELECT ... WHERE event_id = e.id)] *)
Definition sync_all_events (s : DB) : DB :=
  with_events
    (map (fun e => set_event_counts (sum_total_tickets (e_id e) (ticket_types s))
                                    (sum_tickets_sold (e_id e) (ticket_types s)) e)) s.

(** [POST /ticket-types/sync-all]; the answer lists the updated types. *)
Definition post_sync_all : Op (list ticket_type) :=
  exec recount_all_ticket_types ;;;
  result <- query ticket_types ;;
  exec sync_all_events ;;;
  ret result.

(** [FROM ticket_types tt JOIN events e ON tt.event_id = e.id WHERE tt.id = $1],
    first row. *)
Definition ticket_type_with_event (id : Z) (s : DB) : option (ticket_type * event) :=
  hd_error
    (flat_map (fun ty => map (pair ty)
                             (filter (fun e => e_id e =? tt_event_id ty) (events s)))
              (filter (fun ty => tt_id ty =? id) (ticket_types s))).

Inductive delete_type_response : Type :=
| DeleteTypeInvalid
| DeleteTypeNotFound
| DeleteTypeForbidden
| DeleteTypeInUse
| DeletedType (deleted : ticket_type).

(** [DELETE /ticket-types/:id], sent by the authenticated user [user_id]. *)
Definition delete_ticket_type (user_id id : Z) : Op delete_type_response :=
  if negb (valid_id id) then ret DeleteTypeInvalid else
  ownerCheck <- query (ticket_type_with_event id) ;;
  match ownerCheck with
  | None => ret DeleteTypeNotFound
  | Some (_, ev) =>
    if negb (e_organizer_id ev =? user_id) then ret DeleteTypeForbidden else
    sold <- query (fun s => count_tickets_of_type id (tickets s)) ;;
    if 0 <? sold then ret DeleteTypeInUse else
    result <- query (fun s => filter (fun ty => tt_id ty =? id) (ticket_types s)) ;;
    exec (with_ticket_types (delete_where (fun ty => tt_id ty =? id))) ;;;
    match result with
    | [] => ret DeleteTypeNotFound
    | deletedType :: _ =>
      exec (sync_event (tt_event_id deletedType)) ;;;
      ret (DeletedType deletedType)
    end
  end.

(* ------------------------------------------------------------------ *)
(** ** The aggregate invariant and the counts-toward-sold states *)

(** [sum(ticket_type.sold) == event.sold] and
    [sum(ticket_type.total) == event.total], for one event row. *)
Definition event_in_sync (s : DB) (e : event) : Prop :=
  e_tickets_sold e = sum_tickets_sold (e_id e) (ticket_types s) /\
  e_total_tickets e = sum_total_tickets (e_id e) (ticket_types s).

Definition aggregate_invariant (s : DB) : Prop :=
  forall e, In e (events s) -> event_in_sync s e.

(** A ticket row counts toward sold unless it is in the terminal state. *)
Definition counts_toward_sold (t : ticket) : bool :=
  negb (ticket_status_eqb (t_status t) Refunded).

Definition count_sold_rows (ticket_type_id : Z) (ts : list ticket) : Z :=
  Z.of_nat (List.length
    (filter (fun t => (t_ticket_type_id t =? ticket_type_id) && counts_toward_sold t) ts)).

(* ------------------------------------------------------------------ *)
(** ** Scenario stores, obtained by running the handlers

    One event (organizer 9, one ticket type priced 50.00, capacity 1).
    User 1 buys the only ticket, users 2 and 3 join the waitlist, then
    user 1 returns the ticket, which promotes user 2. *)

Definition venue : DB :=
  mkDB [1; 2; 3; 4; 9]
       [mkEvent 1 9 (Some 500000000) (Some 900000000) 1 0]
       [mkTicketType 1 1 50%float 1 0]
       [] [] [] 1 1 1.

Definition sold_out : DB :=
  Eval vm_compute in
  store (post_tickets 1 1 1 1 (Some "card"%string) 1000 venue).

Definition queued : DB :=
  Eval vm_compute in
  store (post_waitlist 3 1 3000 (store (post_waitlist 2 1 2000 sold_out))).

Definition returned : DB :=
  Eval vm_compute in store (put_ticket_refund 1 4000 queued).

(** A sold-out hall of two seats: user 1 buys both tickets, then the
    organizer refunds the second one. *)
Definition hall : DB :=
  mkDB [1; 2; 9]
       [mkEvent 1 9 (Some 500000000) None 2 0]
       [mkTicketType 1 1 20%float 2 0]
       [] [] [] 1 1 1.

Definition refunded_once : DB :=
  Eval vm_compute in
  store (put_ticket_organizer_refund 9 2 3000
           (store (post_tickets 1 1 1 2 None 1000 hall))).

(* ------------------------------------------------------------------ *)
(** ** Vocabulary of the properties *)

(** The reserved ticket and the pending transaction of a promotion. *)
Definition offered_ticket (event_id ticket_type_id now : Z) (s : DB)
    (w : waitlist_entry) : ticket :=
  mkTicket (next_ticket_id s) (next_transaction_id s) ticket_type_id event_id
           (w_user_id w) Reserved now.

Definition offered_transaction (ticket_type_id : Z) (s : DB)
    (w : waitlist_entry) : transaction :=
  mkTransaction (next_transaction_id s) (w_user_id w)
                (price_or_zero ticket_type_id s) Pending "waitlist".

(** The store after the four updates of the organizer refund, before any
    offer. *)
Definition organizer_refund_updates (id : Z) (ticket : ticket) (s : DB) : DB :=
  update_transaction_status (t_transaction_id ticket) TxRefunded
    (add_tickets_sold (t_ticket_type_id ticket) (-1)
       (decrement_event_sold (t_event_id ticket)
          (update_ticket_status id Refunded s))).

(** The store after a successful accept that displaces [returnedTicket]. *)
Definition accept_updates (transaction_id : Z) (transaction : transaction)
    (ticket returnedTicket : ticket) (refundAmount : float) (s : DB) : DB :=
  delete_waitlist_of (x_user_id transaction) (t_event_id ticket)
    (insert_transaction (t_user_id returnedTicket) (- refundAmount)%float
                        TxRefunded "waitlist_return"
       (update_ticket_status (t_id returnedTicket) Refunded
          (update_ticket_status (t_id ticket) Active
             (update_transaction_status transaction_id Completed s)))).




(** The three writes of the loop body that precede the re-offer. *)
Definition cleanup_writes (r : expired_row) (s : DB) : DB :=
  let s2 := delete_ticket_row (r_id r)
              (update_transaction_status (r_transaction_id r) Expired s) in
  match r_waitlist_id r with
  | Some wid => delete_waitlist_row wid s2
  | None => s2
  end.

(** The store the sweep leaves: the loop run over the rows selected up
    front. *)
Fixpoint sweep_rows (now : Z) (rows : list expired_row) (s : DB) : DB :=
  match rows with
  | [] => s
  | r :: rest => sweep_rows now rest (store (cleanup_one now r s))
  end.

Definition waitlist_key (w : waitlist_entry) : Z * Z := (w_user_id w, w_event_id w).

(** At most one waitlist entry per (user, event): the duplicate check of
    [POST /waitlist]. *)
Definition one_entry_per_user_event (s : DB) : Prop :=
  NoDup (map waitlist_key (waitlist s)).

(** Ids in use were drawn from the sequences: ticket and transaction ids, and
    the transaction a ticket refers to, lie below the next sequence value. *)
Definition ids_in_sequence (s : DB) : Prop :=
  (forall t, In t (tickets s) ->
     t_id t < next_ticket_id s /\ t_transaction_id t < next_transaction_id s) /\
  (forall x, In x (transactions s) -> x_id x < next_transaction_id s).

(** A reserved ticket that a sweep at time [now] selects. *)
Definition lapsed (now : Z) (s : DB) (t : ticket) : Prop :=
  In t (tickets s) /\ t_status t = Reserved /\
  (exists x, In x (transactions s) /\ x_id x = t_transaction_id t /\
             x_status x = Pending) /\
  (exists w e, In w (waitlist s) /\
               w_user_id w = t_user_id t /\ w_event_id w = t_event_id t /\
               w_reservation_expires_at w = Some e /\ e < now).

(** What holds while the first pass still has the tickets [todo] to
    process: every reservation a second pass at [now2] would select is among
    them. *)
Definition pass_inv (now2 : Z) (todo : list Z) (s : DB) : Prop :=
  one_entry_per_user_event s /\
  (forall t, In t (tickets s) -> t_transaction_id t < next_transaction_id s) /\
  (forall t, lapsed now2 s t -> In (t_id t) todo).

(** [t] is the one ticket with its id and the one ticket of its
    transaction; [x] is the one transaction with its id. *)
Definition sole_ticket (t : ticket) (s : DB) : Prop :=
  forall t', In t' (tickets s) ->
    t_id t' = t_id t \/ t_transaction_id t' = t_transaction_id t -> t' = t.

Definition sole_transaction (x : transaction) (s : DB) : Prop :=
  forall x', In x' (transactions s) -> x_id x' = x_id x -> x' = x.

(** An outstanding offer: a reserved ticket [t] with its pending waitlist
    transaction [x]. *)
Definition reservation (t : ticket) (x : transaction) (s : DB) : Prop :=
  In t (tickets s) /\ In x (transactions s) /\
  x_id x = t_transaction_id t /\ x_user_id x = t_user_id t /\
  t_status t = Reserved /\ x_status x = Pending /\
  x_payment_method x = "waitlist"%string /\
  sole_ticket t s /\ sole_transaction x s.

(** The offer's user has no waitlist entry for the ticket's event. *)
Definition unlisted (t : ticket) (s : DB) : Prop :=
  forall w, In w (waitlist s) ->
    ~ (w_user_id w = t_user_id t /\ w_event_id w = t_event_id t).

Definition unlisted_reservation (t : ticket) (x : transaction) (s : DB) : Prop :=
  reservation t x s /\ unlisted t s /\
  t_id t < next_ticket_id s /\ x_id x < next_transaction_id s.

(** Sweep passes at the given times, one after the other. *)
Fixpoint run_sweeps (times : list Z) (s : DB) : DB :=
  match times with
  | [] => s
  | now :: rest => run_sweeps rest (store (cleanupExpiredReservations now s))
  end.

(** The reservation outlives every sweep and stays acceptable: after any
    number of sweep passes at any times the ticket and the transaction are
    still in the store, no entry of the waitlist matches them, a further pass
    at any time does not select the ticket, and an accept at any time is not
    answered with [ReservationExpired] (for an id that passes validation it
    calls no offer engine and answers with the accepted ticket, or with an
    internal error when the displaced ticket's transaction row is missing). *)
Definition never_expires (t : ticket) (x : transaction) (s : DB) : Prop :=
  forall (sweeps : list Z) (later : Z),
    let s2 := run_sweeps sweeps s in
    let o := post_accept_ticket (x_id x) later s2 in
    In t (tickets s2) /\ In x (transactions s2) /\ unlisted t s2 /\
    ~ In (t_id t) (map r_id (expired_reservations later s2)) /\
    value o <> AcceptReservationExpired /\
    (valid_id (x_id x) = true ->
     engine_calls o = [] /\
     ((exists refunded_ticket_id refundAmount platformFee,
         value o = Accepted t refunded_ticket_id refundAmount platformFee) \/
      value o = AcceptInternalError)).

(** The ticket and the transaction that the fast path of [POST /waitlist]
    inserts. *)
Definition fast_path_transaction (user_id : Z) (pendingTicket : ticket) (s : DB)
    : transaction :=
  mkTransaction (next_transaction_id s) user_id
                (price_or_zero (t_ticket_type_id pendingTicket) s) Pending "waitlist".

Definition fast_path_ticket (user_id event_id now : Z) (pendingTicket : ticket)
    (s : DB) : ticket :=
  mkTicket (next_ticket_id s) (next_transaction_id s)
           (t_ticket_type_id pendingTicket) event_id user_id Reserved now.

(** A joiner who comes back.  User 1 returns the only ticket while nobody
    waits; user 2 joins and is offered it on the spot (transaction 2,
    ticket 2, no entry); user 3 joins, is offered it too, and accepts; user 2
    joins again and now gets a waitlist entry; the organizer refunds user 3,
    which offers the freed slot to user 2's entry until 1806000. *)
Definition given_back : DB :=
  Eval vm_compute in store (put_ticket_refund 1 2000 sold_out).

Definition offered_on_join : DB :=
  Eval vm_compute in store (post_waitlist 2 1 3000 given_back).

Definition taken_by_other : DB :=
  Eval vm_compute in
  store (post_accept_ticket 3 4000 (store (post_waitlist 3 1 3500 offered_on_join))).

Definition joined_again : DB :=
  Eval vm_compute in
  store (put_ticket_organizer_refund 9 3 6000
           (store (post_waitlist 2 1 5000 taken_by_other))).

(** A leaver who comes back.  User 2 waits and is offered the slot the
    organizer's refund frees (entry 1 claimed, transaction 2, ticket 2);
    user 2 leaves the waitlist, which deletes the claimed entry; user 3 buys
    the free ticket; user 2 joins again (entry 2); the organizer refunds
    user 3, which offers the slot to entry 2 until 1806000. *)
Definition promoted : DB :=
  Eval vm_compute in
  store (put_ticket_organizer_refund 9 1 3000
           (store (post_waitlist 2 1 2000 sold_out))).

Definition left_queue : DB :=
  Eval vm_compute in store (delete_waitlist 1 promoted).

Definition queued_again : DB :=
  Eval vm_compute in
  store (put_ticket_organizer_refund 9 3 6000
           (store (post_waitlist 2 1 5000
                     (store (post_tickets 3 1 1 1 None 4000 left_queue))))).

(* ------------------------------------------------------------------ *)
(** ** Requests

    The handlers of the core behind one type, so that a history of the
    service is a list of requests. *)

Inductive request : Type :=
| JoinWaitlist (user_id event_id now : Z)
| LeaveWaitlist (id : Z)
| LeaveWaitlistOfUser (event_id user_id : Z)
| AcceptTicket (transaction_id now : Z)
| DeclineTicket (transaction_id now : Z)
| Sweep (now : Z)
| PurchaseTickets (user_id event_id ticket_type_id quantity : Z)
                  (payment_method : option string) (now : Z)
| ReturnTicket (id now : Z)
| OrganizerRefund (organizer_id id now : Z)
| DeleteTicket (id : Z)
| RecountTicketType (id : Z)
| SyncAll.

(** The store a request leaves. *)
Definition serve (r : request) (s : DB) : DB :=
  match r with
  | JoinWaitlist u e now => store (post_waitlist u e now s)
  | LeaveWaitlist id => store (delete_waitlist id s)
  | LeaveWaitlistOfUser e u => store (delete_waitlist_event_user e u s)
  | AcceptTicket x now => store (post_accept_ticket x now s)
  | DeclineTicket x now => store (post_decline_ticket x now s)
  | Sweep now => store (cleanupExpiredReservations now s)
  | PurchaseTickets u e ty q m now => store (post_tickets u e ty q m now s)
  | ReturnTicket id now => store (put_ticket_refund id now s)
  | OrganizerRefund o id now => store (put_ticket_organizer_refund o id now s)
  | DeleteTicket id => store (delete_ticket id s)
  | RecountTicketType id => store (put_ticket_type_recount id s)
  | SyncAll => store (post_sync_all s)
  end.

(** The offer-engine calls a request makes. *)
Definition calls_of (r : request) (s : DB) : list (Z * Z) :=
  match r with
  | JoinWaitlist u e now => engine_calls (post_waitlist u e now s)
  | LeaveWaitlist id => engine_calls (delete_waitlist id s)
  | LeaveWaitlistOfUser e u => engine_calls (delete_waitlist_event_user e u s)
  | AcceptTicket x now => engine_calls (post_accept_ticket x now s)
  | DeclineTicket x now => engine_calls (post_decline_ticket x now s)
  | Sweep now => engine_calls (cleanupExpiredReservations now s)
  | PurchaseTickets u e ty q m now => engine_calls (post_tickets u e ty q m now s)
  | ReturnTicket id now => engine_calls (put_ticket_refund id now s)
  | OrganizerRefund o id now => engine_calls (put_ticket_organizer_refund o id now s)
  | DeleteTicket id => engine_calls (delete_ticket id s)
  | RecountTicketType id => engine_calls (put_ticket_type_recount id s)
  | SyncAll => engine_calls (post_sync_all s)
  end.

(** Requests served one after the other. *)
Fixpoint serve_all (rs : list request) (s : DB) : DB :=
  match rs with
  | [] => s
  | r :: rest => serve_all rest (serve r s)
  end.

(** The integrity the handlers rely on. *)
Definition store_integrity (s : DB) : Prop :=
  one_entry_per_user_event s /\ ids_in_sequence s.

(** A row of the sweep has been dealt with: no ticket carries its ticket id,
    every transaction with its transaction id is expired, no waitlist entry
    carries its entry id, and [row_issued] says that both ids lie below the sequences. *)
Definition row_cleared (r : expired_row) (s : DB) : Prop :=
  (forall t, In t (tickets s) -> t_id t <> r_id r) /\
  (forall x, In x (transactions s) -> x_id x = r_transaction_id r ->
             x_status x = Expired) /\
  (forall w, In w (waitlist s) -> Some (w_id w) <> r_waitlist_id r).

Definition row_issued (r : expired_row) (s : DB) : Prop :=
  r_id r < next_ticket_id s /\ r_transaction_id r < next_transaction_id s.

(** The requests whose handlers contain a statement on [ticket_types] or
    [events]. *)
Definition writes_counters (r : request) : bool :=
  match r with
  | PurchaseTickets _ _ _ _ _ _ | OrganizerRefund _ _ _
  | RecountTicketType _ | SyncAll => true
  | _ => false
  end.

(** The answers of accept and decline that refuse the request. *)
Definition accept_refused (r : accept_response) : bool :=
  match r with
  | AcceptInvalid | AcceptReservationNotFound | AcceptTicketNotFound => true
  | _ => false
  end.

Definition decline_refused (r : decline_response) : bool :=
  match r with
  | DeclineInvalid | DeclineReservationNotFound | DeclineTicketNotFound => true
  | Declined _ => false
  end.

(** The offer of a transaction can no longer be settled: whenever it is
    accepted or declined, the handler finds no pending reservation, answers
    so and writes nothing. *)
Definition offer_closed (transaction_id : Z) (s : DB) : Prop :=
  forall later,
    post_accept_ticket transaction_id later s
      = mkOutcome AcceptReservationNotFound s [] /\
    post_decline_ticket transaction_id later s
      = mkOutcome DeclineReservationNotFound s [].

(* ------------------------------------------------------------------ *)
(** * Properties *)

(** ** Row-list lemmas *)

Section SqlFacts.
Context {A : Type}.
Implicit Types (p : A -> bool) (f : A -> A) (l : list A).

Lemma in_update_where p f l r :
  In r l -> In (if p r then f r else r) (update_where p f l).
Proof.
  intros H. unfold update_where.
  exact (in_map (fun r0 => if p r0 then f r0 else r0) l r H).
Qed.

Lemma in_update_where_inv p f l r :
  In r (update_where p f l) ->
  exists r0, In r0 l /\ r = (if p r0 then f r0 else r0).
Proof.
  unfold update_where. rewrite in_map_iff.
  intros (r0 & E & H). exists r0. auto.
Qed.

Lemma find_update_where p f l :
  (forall r, p (f r) = p r) ->
  find p (update_where p f l) = option_map f (find p l).
Proof.
  intros Hp. induction l as [|r l IH]; simpl; [reflexivity|].
  destruct (p r) eqn:E.
  - rewrite Hp, E. reflexivity.
  - rewrite E. exact IH.
Qed.

Lemma in_delete_where p l r :
  In r (delete_where p l) <-> In r l /\ p r = false.
Proof.
  unfold delete_where. rewrite filter_In.
  destruct (p r); simpl; intuition congruence.
Qed.

Lemma first_by_in key l r : first_by key l = Some r -> In r l.
Proof.
  revert r. induction l as [|a l IH]; simpl; intros r H; [discriminate|].
  destruct (first_by key l) as [b|].
  - destruct (key a <=? key b); inversion H; subst; auto.
  - inversion H; auto.
Qed.

Lemma first_by_none key l : first_by key l = None <-> l = [].
Proof.
  destruct l as [|a l]; simpl; [tauto|].
  split; [|discriminate].
  destruct (first_by key l) as [b|]; [destruct (key a <=? key b)|]; discriminate.
Qed.

Lemma first_by_least key l r :
  first_by key l = Some r -> forall r', In r' l -> key r <= key r'.
Proof.
  revert r. induction l as [|a l IH]; simpl; intros r H r' Hin; [tauto|].
  destruct (first_by key l) as [b|] eqn:E.
  - specialize (IH b eq_refl).
    destruct (key a <=? key b) eqn:C; inversion H; subst.
    + apply Z.leb_le in C. destruct Hin as [<-|Hin]; [lia|].
      specialize (IH r' Hin). lia.
    + apply Z.leb_gt in C. destruct Hin as [<-|Hin]; [lia|auto].
  - apply first_by_none in E. subst l. inversion H; subst.
    destruct Hin as [<-|[]]. lia.
Qed.
End SqlFacts.

Lemma ticket_status_eqb_eq a b : ticket_status_eqb a b = true <-> a = b.
Proof. destruct a, b; simpl; split; congruence. Qed.

Lemma tx_status_eqb_eq a b : tx_status_eqb a b = true <-> a = b.
Proof. destruct a, b; simpl; split; congruence. Qed.

(** ** What the offer engine writes *)

(** The entry the engine claims is an unclaimed entry of the event, and the
    earliest of them. *)
Lemma next_unclaimed_some event_id s w :
  next_unclaimed event_id s = Some w ->
  In w (waitlist s) /\ w_event_id w = event_id /\ w_offered_at w = None /\
  forall w', In w' (waitlist s) -> w_event_id w' = event_id ->
             w_offered_at w' = None -> w_joined_at w <= w_joined_at w'.
Proof.
  unfold next_unclaimed. intros H.
  pose proof (first_by_in _ _ _ H) as Hin.
  apply filter_In in Hin. destruct Hin as [Hin Hc].
  apply andb_true_iff in Hc. destruct Hc as [He Ho].
  apply Z.eqb_eq in He.
  repeat split; auto.
  - destruct (w_offered_at w); [discriminate | reflexivity].
  - intros w' Hin' He' Ho'.
    apply (first_by_least _ _ _ H). apply filter_In. split; [assumption|].
    rewrite Ho'. apply andb_true_iff. split; [apply Z.eqb_eq; assumption | reflexivity].
Qed.

Lemma next_unclaimed_none event_id s :
  next_unclaimed event_id s = None <->
  forall w, In w (waitlist s) -> w_event_id w = event_id -> w_offered_at w <> None.
Proof.
  unfold next_unclaimed. rewrite first_by_none. split.
  - intros E w Hin He Ho.
    assert (In w []) as [].
    rewrite <- E. apply filter_In. split; [assumption|].
    rewrite Ho. apply andb_true_iff. split; [apply Z.eqb_eq; assumption | reflexivity].
  - intros H.
    destruct (filter _ (waitlist s)) as [|w l] eqn:E; [reflexivity|exfalso].
    assert (Hin : In w (w :: l)) by (left; reflexivity).
    rewrite <- E in Hin. apply filter_In in Hin. destruct Hin as [Hin Hc].
    apply andb_true_iff in Hc. destruct Hc as [He Ho]. apply Z.eqb_eq in He.
    apply (H w Hin He). destruct (w_offered_at w); [discriminate | reflexivity].
Qed.

Lemma assign_events e ty now s :
  events (snd (assignTicketToWaitlist e ty now s)) = events s.
Proof. unfold assignTicketToWaitlist. destruct (next_unclaimed e s); reflexivity. Qed.

Lemma assign_ticket_types e ty now s :
  ticket_types (snd (assignTicketToWaitlist e ty now s)) = ticket_types s.
Proof. unfold assignTicketToWaitlist. destruct (next_unclaimed e s); reflexivity. Qed.

Lemma assign_users e ty now s :
  users (snd (assignTicketToWaitlist e ty now s)) = users s.
Proof. unfold assignTicketToWaitlist. destruct (next_unclaimed e s); reflexivity. Qed.

Lemma assign_tickets e ty now s :
  tickets (snd (assignTicketToWaitlist e ty now s)) =
  tickets s ++ match next_unclaimed e s with
               | Some w => [offered_ticket e ty now s w]
               | None => []
               end.
Proof.
  unfold assignTicketToWaitlist.
  destruct (next_unclaimed e s); simpl; [reflexivity | symmetry; apply app_nil_r].
Qed.

Lemma assign_transactions e ty now s :
  transactions (snd (assignTicketToWaitlist e ty now s)) =
  transactions s ++ match next_unclaimed e s with
                    | Some w => [offered_transaction ty s w]
                    | None => []
                    end.
Proof.
  unfold assignTicketToWaitlist.
  destruct (next_unclaimed e s); simpl; [reflexivity | symmetry; apply app_nil_r].
Qed.

Lemma assign_waitlist e ty now s :
  waitlist (snd (assignTicketToWaitlist e ty now s)) =
  match next_unclaimed e s with
  | Some w => update_where (fun w' => w_id w' =? w_id w)
                           (set_offer now (now + RESERVATION_WINDOW)) (waitlist s)
  | None => waitlist s
  end.
Proof.
  unfold assignTicketToWaitlist. destruct (next_unclaimed e s); reflexivity.
Qed.

Lemma assign_sequences e ty now s :
  let s' := snd (assignTicketToWaitlist e ty now s) in
  next_transaction_id s <= next_transaction_id s' /\
  next_ticket_id s <= next_ticket_id s' /\
  next_waitlist_id s' = next_waitlist_id s.
Proof.
  unfold assignTicketToWaitlist. destruct (next_unclaimed e s); simpl; lia.
Qed.

(** ** The offer engine leaves the counters alone (C8) *)

(** C8. Every call of [assignTicketToWaitlist] leaves the ticket-type rows
    and the event rows (hence all sold counters) as they were.  When the
    event has no unclaimed waitlist entry the answer is [assigned: false]
    and the store is unchanged.  When it has one, the earliest such entry
    [w] is claimed: the answer names its user and the new transaction, and
    the only writes are one pending waitlist transaction, one reserved
    ticket and the offer / expiry stamps on [w]. *)
Theorem assignTicketToWaitlist_counters_untouched :
  forall event_id ticket_type_id now s,
    let r := assignTicketToWaitlist event_id ticket_type_id now s in
    ticket_types (snd r) = ticket_types s /\
    events (snd r) = events s /\
    ((forall w, In w (waitlist s) -> w_event_id w = event_id ->
                w_offered_at w <> None) ->
     r = (NotAssigned, s)) /\
    (forall w, next_unclaimed event_id s = Some w ->
       fst r = Assigned (w_user_id w) (next_transaction_id s) /\
       transactions (snd r) =
         transactions s ++ [offered_transaction ticket_type_id s w] /\
       tickets (snd r) =
         tickets s ++ [offered_ticket event_id ticket_type_id now s w] /\
       waitlist (snd r) =
         update_where (fun w' => w_id w' =? w_id w)
                      (set_offer now (now + RESERVATION_WINDOW)) (waitlist s) /\
       users (snd r) = users s).
Proof.
  intros event_id ticket_type_id now s r. subst r.
  split; [apply assign_ticket_types|].
  split; [apply assign_events|].
  split.
  - intros H. apply next_unclaimed_none in H.
    unfold assignTicketToWaitlist. rewrite H. reflexivity.
  - intros w Hw. unfold assignTicketToWaitlist. rewrite Hw. simpl.
    repeat split; reflexivity.
Qed.

Lemma assignTicketToWaitlist_counters_untouched_witness :
  assignTicketToWaitlist 1 1 4000 sold_out = (NotAssigned, sold_out) /\
  fst (assignTicketToWaitlist 1 1 4000 queued) = Assigned 2 2.
Proof.
  split.
  - apply (assignTicketToWaitlist_counters_untouched 1 1 4000 sold_out).
    intros w Hin. vm_compute in Hin. destruct Hin.
  - pose proof (proj2 (proj2 (proj2
             (assignTicketToWaitlist_counters_untouched 1 1 4000 queued)))
             (mkWaitlist 1 2 1 2000 None None)) as H.
    destruct H as [H _]; [vm_compute; reflexivity | exact H].
Defined.

(** ** Return and refund (C5, C6) *)

Lemma find_hd_filter {A} (p : A -> bool) (l : list A) :
  find p l = hd_error (filter p l).
Proof.
  induction l as [|a l IH]; simpl; [reflexivity|].
  destruct (p a); [reflexivity | exact IH].
Qed.

Lemma ticket_with_event_some id s ticket ev :
  ticket_with_event id s = Some (ticket, ev) ->
  In ticket (tickets s) /\ t_id ticket = id /\
  find_event (t_event_id ticket) s = Some ev.
Proof.
  unfold ticket_with_event.
  assert (G : forall l,
    hd_error (flat_map (fun t => map (pair t)
                (filter (fun e => e_id e =? t_event_id t) (events s))) l)
      = Some (ticket, ev) ->
    In ticket l /\ find_event (t_event_id ticket) s = Some ev).
  { induction l as [|a l IH]; simpl; [discriminate|].
    destruct (filter (fun e => e_id e =? t_event_id a) (events s)) as [|e es] eqn:E.
    - simpl. intros H. destruct (IH H). split; [right; assumption | assumption].
    - simpl. intros H. inversion H; subst. split; [left; reflexivity|].
      unfold find_event. rewrite find_hd_filter, E. reflexivity. }
  intros H. apply G in H. destruct H as [Hin Hev].
  apply filter_In in Hin. destruct Hin as [Hin Hid]. apply Z.eqb_eq in Hid. auto.
Qed.

(** Sequencing laws, used to run a handler on a store step by step. *)
Lemma bind_ret {A B} (a : A) (k : A -> Op B) s : bind (ret a) k s = k a s.
Proof. unfold bind, ret. simpl. destruct (k a s); reflexivity. Qed.

Lemma bind_query {A B} (q : DB -> A) (k : A -> Op B) s :
  bind (query q) k s = k (q s) s.
Proof. unfold bind, query. simpl. destruct (k (q s) s); reflexivity. Qed.

Lemma bind_exec {B} (f : DB -> DB) (k : unit -> Op B) s :
  bind (exec f) k s = k tt (f s).
Proof. unfold bind, exec. simpl. destruct (k tt (f s)); reflexivity. Qed.

Lemma bind_offer {B} e ty now (k : assignment -> Op B) s :
  bind (offer e ty now) k s =
  let r := assignTicketToWaitlist e ty now s in
  let o := k (fst r) (snd r) in
  mkOutcome (value o) (store o) ((e, ty) :: engine_calls o).
Proof. reflexivity. Qed.

Lemma bind_assoc {A B C} (m : Op A) (k : A -> Op B) (h : B -> Op C) s :
  bind (bind m k) h s = bind m (fun a => bind (k a) h) s.
Proof. unfold bind. simpl. rewrite app_assoc. reflexivity. Qed.

Ltac run_op :=
  repeat (first [ rewrite bind_ret | rewrite bind_query | rewrite bind_exec
                | rewrite bind_offer ];
          cbv beta zeta).

Lemma organizer_refund_run organizer_id id now s ticket ev :
  valid_id id = true ->
  ticket_with_event id s = Some (ticket, ev) ->
  e_organizer_id ev = organizer_id ->
  t_status ticket = Active ->
  put_ticket_organizer_refund organizer_id id now s =
  let s1 := organizer_refund_updates id ticket s in
  let available := e_total_tickets ev - (e_tickets_sold ev - 1) in
  if e_total_tickets ev <=? e_tickets_sold ev
  then
    let r := assignTicketToWaitlist (t_event_id ticket) (t_ticket_type_id ticket) now s1 in
    mkOutcome (OrgRefunded id (t_event_id ticket) available (assigned (fst r)))
              (snd r) [(t_event_id ticket, t_ticket_type_id ticket)]
  else mkOutcome (OrgRefunded id (t_event_id ticket) available false) s1 [].
Proof.
  intros Hid Hjoin Horg Hact.
  unfold put_ticket_organizer_refund. rewrite Hid. cbn [negb].
  rewrite bind_query, Hjoin, Horg, Z.eqb_refl, Hact. cbn [negb ticket_status_eqb].
  run_op.
  destruct (e_total_tickets ev <=? e_tickets_sold ev); run_op; reflexivity.
Qed.

(** C5. When the organizer of the event refunds an active ticket, the ticket
    row becomes refunded (the same row with status [refunded]), the sold
    counter of every type with the ticket's type id and the sold counter of
    its event each go down by one, every transaction with the ticket's
    transaction id becomes refunded (the same row with status [refunded]),
    and [assignTicketToWaitlist] is called (once, for the ticket's event and
    type) exactly when the event was sold out before the refund. *)
Theorem organizer_refund_effects :
  forall organizer_id id now s ticket ev,
    valid_id id = true ->
    ticket_with_event id s = Some (ticket, ev) ->
    e_organizer_id ev = organizer_id ->
    t_status ticket = Active ->
    let o := put_ticket_organizer_refund organizer_id id now s in
    let was_sold_out := e_total_tickets ev <=? e_tickets_sold ev in
    (exists waitlist_assigned,
       value o = OrgRefunded id (t_event_id ticket)
                   (e_total_tickets ev - (e_tickets_sold ev - 1)) waitlist_assigned) /\
    In (mkTicket id (t_transaction_id ticket) (t_ticket_type_id ticket)
                 (t_event_id ticket) (t_user_id ticket) Refunded (t_issued_at ticket))
       (tickets (store o)) /\
    ticket_types (store o) =
      update_where (fun ty => tt_id ty =? t_ticket_type_id ticket)
                   (fun ty => set_tt_sold (tt_tickets_sold ty - 1) ty) (ticket_types s) /\
    (forall ty, In ty (ticket_types s) -> tt_id ty = t_ticket_type_id ticket ->
                In (mkTicketType (tt_id ty) (tt_event_id ty) (tt_price ty)
                                 (tt_total_tickets ty) (tt_tickets_sold ty - 1))
                   (ticket_types (store o))) /\
    events (store o) =
      update_where (fun e => e_id e =? t_event_id ticket)
                   (fun e => set_event_counts (e_total_tickets e) (e_tickets_sold e - 1) e)
                   (events s) /\
    find_event (t_event_id ticket) (store o) =
      Some (mkEvent (e_id ev) (e_organizer_id ev) (e_start_datetime ev)
                    (e_end_datetime ev) (e_total_tickets ev) (e_tickets_sold ev - 1)) /\
    (forall x, In x (transactions s) -> x_id x = t_transaction_id ticket ->
               In (mkTransaction (x_id x) (x_user_id x) (x_total_price x) TxRefunded
                                 (x_payment_method x))
                  (transactions (store o))) /\
    (forall x, In x (transactions (store o)) -> x_id x = t_transaction_id ticket ->
               x_id x < next_transaction_id s -> x_status x = TxRefunded) /\
    engine_calls o =
      if was_sold_out then [(t_event_id ticket, t_ticket_type_id ticket)] else [].
Proof.
  intros organizer_id id now s ticket ev Hid Hjoin Horg Hact o was_sold_out.
  destruct (ticket_with_event_some _ _ _ _ Hjoin) as (Hin & Htid & Hev).
  subst o. rewrite (organizer_refund_run _ _ now _ _ _ Hid Hjoin Horg Hact).
  fold was_sold_out. cbv zeta.
  assert (Hrow : In (mkTicket id (t_transaction_id ticket) (t_ticket_type_id ticket)
                       (t_event_id ticket) (t_user_id ticket) Refunded
                       (t_issued_at ticket))
                    (tickets (organizer_refund_updates id ticket s))).
  { pose proof (in_update_where (fun t => t_id t =? id)
                  (set_ticket_status Refunded) _ _ Hin) as H.
    cbv beta in H. rewrite Htid, Z.eqb_refl in H.
    unfold set_ticket_status in H. rewrite Htid in H. exact H. }
  assert (Hty : forall ty, In ty (ticket_types s) ->
                  tt_id ty = t_ticket_type_id ticket ->
                  In (mkTicketType (tt_id ty) (tt_event_id ty) (tt_price ty)
                                   (tt_total_tickets ty) (tt_tickets_sold ty - 1))
                     (ticket_types (organizer_refund_updates id ticket s))).
  { intros ty Hty Htyid.
    pose proof (in_update_where (fun ty => tt_id ty =? t_ticket_type_id ticket)
                  (fun ty => set_tt_sold (tt_tickets_sold ty - 1) ty) _ _ Hty) as H.
    cbv beta in H. rewrite Htyid, Z.eqb_refl in H. exact H. }
  assert (Htx : forall x, In x (transactions s) -> x_id x = t_transaction_id ticket ->
                 In (mkTransaction (x_id x) (x_user_id x) (x_total_price x) TxRefunded
                                   (x_payment_method x))
                    (transactions (organizer_refund_updates id ticket s))).
  { intros x Hx Hxid.
    pose proof (in_update_where (fun x => x_id x =? t_transaction_id ticket)
                  (set_tx_status TxRefunded) _ _ Hx) as H.
    cbv beta in H. rewrite Hxid, Z.eqb_refl in H. exact H. }
  assert (Hall : forall x, In x (transactions (organizer_refund_updates id ticket s)) ->
                  x_id x = t_transaction_id ticket -> x_status x = TxRefunded).
  { intros x Hx Hxid.
    unfold organizer_refund_updates, update_transaction_status, with_transactions in Hx.
    cbn [transactions] in Hx. apply in_update_where_inv in Hx.
    destruct Hx as (x0 & _ & ->). cbv beta in *.
    destruct (x_id x0 =? t_transaction_id ticket) eqn:C; [reflexivity|].
    apply Z.eqb_neq in C. contradiction. }
  assert (Hfe : find_event (t_event_id ticket) (organizer_refund_updates id ticket s)
            = Some (mkEvent (e_id ev) (e_organizer_id ev) (e_start_datetime ev)
                      (e_end_datetime ev) (e_total_tickets ev) (e_tickets_sold ev - 1))).
  { unfold find_event, organizer_refund_updates. cbn [events update_transaction_status
      add_tickets_sold decrement_event_sold update_ticket_status with_transactions
      with_ticket_types with_events with_tickets].
    rewrite find_update_where; [|reflexivity].
    unfold find_event in Hev. rewrite Hev. reflexivity. }
  destruct was_sold_out; cbn [value store engine_calls].
  - rewrite assign_tickets, assign_ticket_types, assign_events, assign_transactions.
    unfold find_event. rewrite assign_events. fold (find_event (t_event_id ticket)
      (organizer_refund_updates id ticket s)).
    split; [eexists; reflexivity|].
    split; [apply in_or_app; left; exact Hrow|].
    split; [reflexivity|]. split; [exact Hty|]. split; [reflexivity|].
    split; [exact Hfe|].
    split; [intros x Hx Hxid; apply in_or_app; left; apply Htx; assumption|].
    split; [|reflexivity].
    intros x Hx Hxid Hlt. apply in_app_or in Hx. destruct Hx as [Hx|Hx].
    + apply Hall; assumption.
    + destruct (next_unclaimed _ _); [|destruct Hx].
      destruct Hx as [<-|[]]. cbn in Hlt. lia.
  - split; [eexists; reflexivity|].
    split; [exact Hrow|].
    split; [reflexivity|]. split; [exact Hty|]. split; [reflexivity|].
    split; [exact Hfe|]. split; [exact Htx|]. split; [|reflexivity].
    intros x Hx Hxid _. apply Hall; assumption.
Qed.

Lemma organizer_refund_effects_witness :
  In (mkTicket 1 1 1 1 1 Refunded 1000)
     (tickets (store (put_ticket_organizer_refund 9 1 4000 queued))) /\
  In (mkTicketType 1 1 50%float 1 0)
     (ticket_types (store (put_ticket_organizer_refund 9 1 4000 queued))) /\
  find_event 1 (store (put_ticket_organizer_refund 9 1 4000 queued)) =
    Some (mkEvent 1 9 (Some 500000000) (Some 900000000) 1 0) /\
  In (mkTransaction 1 1 50%float TxRefunded "card")
     (transactions (store (put_ticket_organizer_refund 9 1 4000 queued))) /\
  engine_calls (put_ticket_organizer_refund 9 1 4000 queued) = [(1, 1)].
Proof.
  pose proof (organizer_refund_effects 9 1 4000 queued
                (mkTicket 1 1 1 1 1 Active 1000)
                (mkEvent 1 9 (Some 500000000) (Some 900000000) 1 1)
                ltac:(vm_compute; reflexivity) ltac:(vm_compute; reflexivity)
                ltac:(vm_compute; reflexivity) ltac:(vm_compute; reflexivity)) as H.
  cbv zeta in H. destruct H as (_ & H2 & _ & H4 & _ & H6 & H7 & _ & H9).
  split; [exact H2|].
  split; [apply (H4 (mkTicketType 1 1 50%float 1 1));
          [vm_compute; left; reflexivity | reflexivity]|].
  split; [exact H6|].
  split; [apply (H7 (mkTransaction 1 1 50%float Completed "card"));
          [vm_compute; left; reflexivity | reflexivity]|].
  exact H9.
Defined.

Lemma put_ticket_refund_run id now s ticket ev :
  valid_id id = true ->
  ticket_with_event id s = Some (ticket, ev) ->
  put_ticket_refund id now s =
  if negb (ticket_status_eqb (t_status ticket) Active)
  then mkOutcome RefundNotActive s []
  else if negb (e_total_tickets ev <=? e_tickets_sold ev)
  then mkOutcome RefundNotSoldOut s []
  else
    let r := assignTicketToWaitlist (t_event_id ticket) (t_ticket_type_id ticket) now
               (update_ticket_status id PendingReturn s) in
    mkOutcome (RefundRequested (assigned (fst r))) (snd r)
              [(t_event_id ticket, t_ticket_type_id ticket)].
Proof.
  intros Hid Hjoin.
  unfold put_ticket_refund. rewrite Hid. cbn [negb].
  rewrite bind_query, Hjoin.
  destruct (negb (ticket_status_eqb (t_status ticket) Active)); [reflexivity|].
  destruct (negb (e_total_tickets ev <=? e_tickets_sold ev)); [reflexivity|].
  run_op. reflexivity.
Qed.

(** A request that is not granted writes nothing and calls nothing, whatever
    the reason (bad id, unknown ticket, wrong status, event not sold out). *)
Lemma put_ticket_refund_rejected id now s :
  (forall a, value (put_ticket_refund id now s) <> RefundRequested a) ->
  store (put_ticket_refund id now s) = s /\
  engine_calls (put_ticket_refund id now s) = [].
Proof.
  destruct (valid_id id) eqn:Hid.
  - destruct (ticket_with_event id s) as [[ticket ev]|] eqn:Hjoin.
    + rewrite (put_ticket_refund_run _ now _ _ _ Hid Hjoin).
      destruct (negb (ticket_status_eqb (t_status ticket) Active)); [auto|].
      destruct (negb (e_total_tickets ev <=? e_tickets_sold ev)); [auto|].
      cbv zeta. cbn [value]. intros H. exfalso. eapply H. reflexivity.
    + unfold put_ticket_refund. rewrite Hid. cbn [negb].
      rewrite bind_query, Hjoin. auto.
  - unfold put_ticket_refund. rewrite Hid. auto.
Qed.

(** C6. For a return request on an existing ticket: if the ticket is not
    active or its event is not sold out, the request is rejected, the store
    is unchanged (no ticket status, no counter moves) and the offer engine is
    not called; the request is granted only for an active ticket of a
    sold-out event, and then the ticket becomes [pending_return], the
    counters stay as they were and the offer engine is called once for the
    ticket's event and type. *)
Theorem self_return_only_when_sold_out :
  forall id now s ticket ev,
    valid_id id = true ->
    ticket_with_event id s = Some (ticket, ev) ->
    let o := put_ticket_refund id now s in
    (t_status ticket <> Active \/ e_tickets_sold ev < e_total_tickets ev ->
       (value o = RefundNotActive \/ value o = RefundNotSoldOut) /\
       store o = s /\ engine_calls o = []) /\
    (forall a, value o = RefundRequested a ->
       t_status ticket = Active /\ e_total_tickets ev <= e_tickets_sold ev) /\
    (t_status ticket = Active -> e_total_tickets ev <= e_tickets_sold ev ->
       (exists a, value o = RefundRequested a) /\
       In (set_ticket_status PendingReturn ticket) (tickets (store o)) /\
       ticket_types (store o) = ticket_types s /\
       events (store o) = events s /\
       engine_calls o = [(t_event_id ticket, t_ticket_type_id ticket)]).
Proof.
  intros id now s ticket ev Hid Hjoin o. subst o.
  destruct (ticket_with_event_some _ _ _ _ Hjoin) as (Hin & Htid & _).
  rewrite (put_ticket_refund_run _ now _ _ _ Hid Hjoin).
  destruct (ticket_status_eqb (t_status ticket) Active) eqn:Hst; cbn [negb].
  - apply ticket_status_eqb_eq in Hst.
    destruct (e_total_tickets ev <=? e_tickets_sold ev) eqn:Hso; cbn [negb].
    + apply Z.leb_le in Hso. cbv zeta. cbn [value store engine_calls].
      split; [intros [H|H]; [congruence | lia]|].
      split; [auto|].
      intros _ _.
      rewrite assign_tickets, assign_ticket_types, assign_events.
      repeat split; try reflexivity.
      * eexists; reflexivity.
      * apply in_or_app. left.
        pose proof (in_update_where (fun t => t_id t =? id)
                      (set_ticket_status PendingReturn) _ _ Hin) as H.
        cbv beta in H. rewrite Htid, Z.eqb_refl in H. exact H.
    + apply Z.leb_gt in Hso. cbn [value store engine_calls].
      split; [auto|]. split; [discriminate|]. intros _ H. lia.
  - cbn [value store engine_calls].
    split; [auto|]. split; [discriminate|].
    intros H. rewrite H in Hst. discriminate.
Qed.

Lemma self_return_only_when_sold_out_witness :
  (exists a, value (put_ticket_refund 1 4000 queued) = RefundRequested a) /\
  In (mkTicket 1 1 1 1 1 PendingReturn 1000)
     (tickets (store (put_ticket_refund 1 4000 queued))) /\
  ticket_types (store (put_ticket_refund 1 4000 queued)) = ticket_types queued /\
  events (store (put_ticket_refund 1 4000 queued)) = events queued /\
  engine_calls (put_ticket_refund 1 4000 queued) = [(1, 1)].
Proof.
  apply (self_return_only_when_sold_out 1 4000 queued
           (mkTicket 1 1 1 1 1 Active 1000)
           (mkEvent 1 9 (Some 500000000) (Some 900000000) 1 1)
           ltac:(vm_compute; reflexivity) ltac:(vm_compute; reflexivity)).
  - reflexivity.
  - simpl. lia.
Defined.

(* ------------------------------------------------------------------ *)
(** ** The aggregate counters and the recount (C1, C3) *)

(** The recompute-from-children statement puts the event rows it touches in
    sync with the ticket types. *)
Lemma sync_event_in_sync event_id s e :
  In e (events (sync_event event_id s)) -> e_id e = event_id ->
  event_in_sync (sync_event event_id s) e.
Proof.
  unfold sync_event, with_events. cbn [events ticket_types].
  intros Hin Hid. apply in_update_where_inv in Hin.
  destruct Hin as (e0 & _ & He). cbv beta in He.
  unfold event_in_sync. cbn [ticket_types].
  destruct (e_id e0 =? event_id) eqn:E; subst e.
  - apply Z.eqb_eq in E. cbn [set_event_counts e_id e_tickets_sold e_total_tickets].
    rewrite E. split; reflexivity.
  - apply Z.eqb_neq in E. contradiction.
Qed.

(** [sync-all] establishes the aggregate invariant from any store. *)
Lemma post_sync_all_aggregate s : aggregate_invariant (store (post_sync_all s)).
Proof.
  unfold post_sync_all. run_op. cbn [store].
  intros e Hin. unfold sync_all_events, with_events in *. cbn [events ticket_types] in *.
  apply in_map_iff in Hin. destruct Hin as (e0 & <- & _).
  split; reflexivity.
Qed.

(** A purchase that goes through recomputes the counters of the event it
    names from the ticket types. *)
Lemma post_tickets_syncs_event user_id event_id ticket_type_id quantity method now s
    transaction_id total_price q :
  value (post_tickets user_id event_id ticket_type_id quantity method now s)
    = Purchased transaction_id total_price q ->
  forall e,
    In e (events (store (post_tickets user_id event_id ticket_type_id quantity
                                      method now s))) ->
    e_id e = event_id ->
    event_in_sync (store (post_tickets user_id event_id ticket_type_id quantity
                                       method now s)) e.
Proof.
  unfold post_tickets.
  destruct (valid_id event_id); cbn [negb]; [|discriminate].
  destruct (valid_id ticket_type_id); cbn [negb]; [|discriminate].
  destruct ((1 <=? quantity) && (quantity <=? 10)); cbn [negb]; [|discriminate].
  rewrite !bind_query. cbv beta.
  destruct (existsb (Z.eqb user_id) (users s)); cbn [negb]; [|discriminate].
  destruct (find_event event_id s) as [ev|]; [|discriminate].
  destruct (event_end_time ev <? now); [discriminate|].
  destruct (find_ticket_type ticket_type_id s) as [ty|]; [|discriminate].
  cbv zeta.
  destruct (tt_total_tickets ty - tt_tickets_sold ty <? quantity); [discriminate|].
  run_op. cbn [value store]. intros _ e He Hid.
  apply sync_event_in_sync; assumption.
Qed.

(** Deleting a ticket row writes no counter, so it keeps the invariant. *)
Lemma delete_ticket_aggregate id s :
  aggregate_invariant s -> aggregate_invariant (store (delete_ticket id s)).
Proof.
  intros H. unfold delete_ticket.
  destruct (valid_id id); cbn [negb]; [|exact H].
  run_op. destruct (filter _ (tickets s)); exact H.
Qed.

(** C1 (the code departs from the specification). After a purchase and an organizer
    refund the event counters equal the sums over the ticket types; the
    recount of the ticket type then rewrites the type's sold counter and
    leaves the event row alone, so the aggregate invariant no longer holds;
    running sync-all afterwards restores it. *)
Theorem recount_breaks_aggregate_invariant :
  aggregate_invariant refunded_once /\
  value (put_ticket_type_recount 1 refunded_once) = true /\
  events (store (put_ticket_type_recount 1 refunded_once)) = events refunded_once /\
  map e_tickets_sold (events (store (put_ticket_type_recount 1 refunded_once))) = [1] /\
  sum_tickets_sold 1 (ticket_types (store (put_ticket_type_recount 1 refunded_once))) = 2 /\
  ~ aggregate_invariant (store (put_ticket_type_recount 1 refunded_once)) /\
  aggregate_invariant
    (store (post_sync_all (store (put_ticket_type_recount 1 refunded_once)))).
Proof.
  split.
  { intros e [<-|[]]. vm_compute. split; reflexivity. }
  do 4 (split; [vm_compute; reflexivity|]).
  split; [|apply post_sync_all_aggregate].
  intros H.
  specialize (H (mkEvent 1 9 (Some 500000000) None 2 1) (or_introl eq_refl)).
  destruct H as [H _]. vm_compute in H. discriminate H.
Qed.

(** What the recount writes: the number of all ticket rows of the type,
    whatever their status. *)
Lemma recount_writes_row_count id s ty :
  valid_id id = true -> In ty (ticket_types s) -> tt_id ty = id ->
  In (set_tt_sold (count_tickets_of_type id (tickets s)) ty)
     (ticket_types (store (put_ticket_type_recount id s))).
Proof.
  intros Hid Hin Hty. unfold put_ticket_type_recount. rewrite Hid. cbn [negb].
  run_op. cbn [store]. unfold recount_ticket_type, with_ticket_types.
  cbn [ticket_types].
  pose proof (in_update_where (fun ty => tt_id ty =? id)
                (set_tt_sold (count_tickets_of_type id (tickets s))) _ _ Hin) as H.
  cbv beta in H. rewrite Hty, Z.eqb_refl in H. exact H.
Qed.

(** C3 (the code departs from the specification). The ticket type of the hall has
    two ticket rows, one active and one refunded, so one row counts toward
    sold; the recount stores 2, the number of all rows, refunded one
    included. *)
Theorem recount_counts_refunded_rows :
  map t_status (tickets refunded_once) = [Active; Refunded] /\
  count_sold_rows 1 (tickets refunded_once) = 1 /\
  map tt_tickets_sold (ticket_types refunded_once) = [1] /\
  map tt_tickets_sold
      (ticket_types (store (put_ticket_type_recount 1 refunded_once))) = [2] /\
  count_tickets_of_type 1 (tickets refunded_once) = 2.
Proof.
  do 4 (split; [vm_compute; reflexivity|]). vm_compute; reflexivity.
Qed.

(* ------------------------------------------------------------------ *)
(** ** Accepting an offer (C2, C4) *)

(** C2 (the code departs from the specification). User 2 holds an offer that lapses
    at 1804000.  One second before, the accept succeeds; so does it at the
    expiry instant itself.  One second after, the accept answers
    [ReservationExpired], marks the transaction expired, deletes the reserved
    ticket and cascades the offer to user 3, as the sweep does, but the
    stale waitlist entry of user 2 stays in the queue, whereas the sweep run
    on the same store at the same time deletes it. *)
Theorem accept_after_expiry_keeps_stale_entry :
  waitlist_entry_of 2 1 returned =
    Some (mkWaitlist 1 2 1 2000 (Some 4000) (Some 1804000)) /\
  (exists t r f, value (post_accept_ticket 2 1803000 returned)
                 = Accepted t r f (Digits "1.00")) /\
  (exists t r f, value (post_accept_ticket 2 1804000 returned)
                 = Accepted t r f (Digits "1.00")) /\
  let o := post_accept_ticket 2 1805000 returned in
  let swept := cleanupExpiredReservations 1805000 returned in
  value o = AcceptReservationExpired /\
  option_map x_status (find_transaction 2 (store o)) = Some Expired /\
  find_ticket 2 (store o) = None /\
  engine_calls o = [(1, 1)] /\
  waitlist_entry_of 3 1 (store o) =
    Some (mkWaitlist 2 3 1 3000 (Some 1805000) (Some 3605000)) /\
  waitlist_entry_of 2 1 (store o) =
    Some (mkWaitlist 1 2 1 2000 (Some 4000) (Some 1804000)) /\
  value swept = 1 /\
  tickets (store swept) = tickets (store o) /\
  transactions (store swept) = transactions (store o) /\
  waitlist_entry_of 2 1 (store swept) = None /\
  waitlist (store o) =
    mkWaitlist 1 2 1 2000 (Some 4000) (Some 1804000) :: waitlist (store swept).
Proof.
  split; [vm_compute; reflexivity|].
  split; [do 3 eexists; vm_compute; reflexivity|].
  split; [do 3 eexists; vm_compute; reflexivity|].
  cbv zeta. do 10 (split; [vm_compute; reflexivity|]).
  vm_compute; reflexivity.
Qed.

Lemma find_update_where_any {A} (p q : A -> bool) (f : A -> A) (l : list A) :
  (forall r, p (f r) = p r) ->
  find p (update_where q f l) =
  option_map (fun r => if q r then f r else r) (find p l).
Proof.
  intros Hp. induction l as [|r l IH]; simpl; [reflexivity|].
  destruct (q r) eqn:Eq.
  - rewrite Hp. destruct (p r); [simpl; rewrite Eq; reflexivity | exact IH].
  - destruct (p r); [simpl; rewrite Eq; reflexivity | exact IH].
Qed.

Lemma post_accept_ticket_run transaction_id now s transaction ticket :
  valid_id transaction_id = true ->
  pending_offer transaction_id s = Some transaction ->
  reserved_ticket_of transaction_id s = Some ticket ->
  post_accept_ticket transaction_id now s =
  if offer_lapsed now (waitlist_entry_of (x_user_id transaction) (t_event_id ticket) s)
  then
    let r := assignTicketToWaitlist (t_event_id ticket) (t_ticket_type_id ticket) now
               (delete_ticket_row (t_id ticket)
                  (update_transaction_status transaction_id Expired s)) in
    mkOutcome AcceptReservationExpired (snd r)
              [(t_event_id ticket, t_ticket_type_id ticket)]
  else
    let s2 := update_ticket_status (t_id ticket) Active
                (update_transaction_status transaction_id Completed s) in
    match pending_return_ticket (t_event_id ticket) (t_ticket_type_id ticket) s with
    | Some returnedTicket =>
        match find_transaction (t_transaction_id returnedTicket) s2 with
        | None => mkOutcome AcceptInternalError s2 []
        | Some original =>
            mkOutcome
              (Accepted ticket (Some (t_id returnedTicket))
                        (refund_amount (x_total_price original))
                        (toFixed2 (platform_fee (x_total_price original))))
              (accept_updates transaction_id transaction ticket returnedTicket
                              (refund_amount (x_total_price original)) s)
              []
        end
    | None =>
        mkOutcome (Accepted ticket None 0%float (toFixed2 0%float))
                  (delete_waitlist_of (x_user_id transaction) (t_event_id ticket) s2) []
    end.
Proof.
  intros Hid Htx Ht.
  unfold post_accept_ticket. rewrite Hid. cbn [negb].
  rewrite bind_query, Htx. cbv beta iota.
  rewrite bind_query, Ht. cbv beta iota.
  rewrite bind_query. cbv beta.
  destruct (offer_lapsed now _).
  - run_op. reflexivity.
  - run_op.
    destruct (pending_return_ticket (t_event_id ticket) (t_ticket_type_id ticket) s)
      as [returnedTicket|].
    + run_op.
      destruct (find_transaction (t_transaction_id returnedTicket) _) as [original|].
      * run_op. reflexivity.
      * reflexivity.
    + run_op. reflexivity.
Qed.







(* ------------------------------------------------------------------ *)
(** ** The sweep, one row at a time *)

Lemma cleanup_one_store now r s :
  store (cleanup_one now r s) =
  snd (assignTicketToWaitlist (r_event_id r) (r_ticket_type_id r) now
         (cleanup_writes r s)).
Proof.
  unfold cleanup_one, cleanup_writes. run_op.
  destruct (r_waitlist_id r); run_op; reflexivity.
Qed.

Lemma for_each_cons {A} (body : A -> Op unit) a l s :
  store (for_each body (a :: l) s) = store (for_each body l (store (body a s))).
Proof. reflexivity. Qed.

Lemma for_each_sweep_rows now rows s :
  store (for_each (cleanup_one now) rows s) = sweep_rows now rows s.
Proof.
  revert s. induction rows as [|r rows IH]; intros s; [reflexivity|].
  rewrite for_each_cons. apply IH.
Qed.

Lemma cleanup_store now s :
  store (cleanupExpiredReservations now s) =
  sweep_rows now (expired_reservations now s) s.
Proof.
  unfold cleanupExpiredReservations. rewrite bind_query.
  destruct (expired_reservations now s) as [|r rows] eqn:E; [reflexivity|].
  rewrite <- for_each_sweep_rows. reflexivity.
Qed.

Lemma cleanup_value now s :
  value (cleanupExpiredReservations now s) =
  Z.of_nat (List.length (expired_reservations now s)).
Proof.
  unfold cleanupExpiredReservations. rewrite bind_query.
  destruct (expired_reservations now s); reflexivity.
Qed.

Lemma cleanup_writes_tickets r s t :
  In t (tickets (cleanup_writes r s)) <-> In t (tickets s) /\ t_id t <> r_id r.
Proof.
  unfold cleanup_writes. cbv zeta.
  assert (E : tickets (match r_waitlist_id r with
                       | Some wid => delete_waitlist_row wid
                                       (delete_ticket_row (r_id r)
                                          (update_transaction_status
                                             (r_transaction_id r) Expired s))
                       | None => delete_ticket_row (r_id r)
                                   (update_transaction_status
                                      (r_transaction_id r) Expired s)
                       end)
              = delete_where (fun t => t_id t =? r_id r) (tickets s))
    by (destruct (r_waitlist_id r); reflexivity).
  rewrite E, in_delete_where, Z.eqb_neq. reflexivity.
Qed.

Lemma cleanup_writes_transactions r s :
  transactions (cleanup_writes r s) =
  update_where (fun x => x_id x =? r_transaction_id r) (set_tx_status Expired)
               (transactions s).
Proof. unfold cleanup_writes. destruct (r_waitlist_id r); reflexivity. Qed.

Lemma cleanup_writes_waitlist r s w :
  In w (waitlist (cleanup_writes r s)) -> In w (waitlist s).
Proof.
  unfold cleanup_writes. cbv zeta. destruct (r_waitlist_id r) as [wid|].
  - unfold delete_waitlist_row, with_waitlist. cbn [waitlist].
    rewrite in_delete_where. tauto.
  - tauto.
Qed.

Lemma cleanup_writes_waitlist_filter r s :
  exists keep, waitlist (cleanup_writes r s) = filter keep (waitlist s).
Proof.
  unfold cleanup_writes. cbv zeta. destruct (r_waitlist_id r) as [wid|].
  - eexists. reflexivity.
  - exists (fun _ => true). cbn [waitlist delete_ticket_row with_tickets
      update_transaction_status with_transactions].
    induction (waitlist s) as [|a l IH]; simpl; [reflexivity | f_equal; exact IH].
Qed.

Lemma cleanup_writes_sequences r s :
  next_transaction_id (cleanup_writes r s) = next_transaction_id s /\
  next_ticket_id (cleanup_writes r s) = next_ticket_id s.
Proof. unfold cleanup_writes. destruct (r_waitlist_id r); split; reflexivity. Qed.

(** Where the selected rows come from. *)
Lemma expired_reservations_sound now s r :
  In r (expired_reservations now s) ->
  exists t x w e,
    In t (tickets s) /\ In x (transactions s) /\ In w (waitlist s) /\
    x_id x = t_transaction_id t /\
    w_user_id w = t_user_id t /\ w_event_id w = t_event_id t /\
    t_status t = Reserved /\ x_status x = Pending /\
    w_reservation_expires_at w = Some e /\ e < now /\
    r = mkExpiredRow (t_id t) (t_event_id t) (t_ticket_type_id t) (t_user_id t)
                     (t_transaction_id t) (Some (w_id w)).
Proof.
  unfold expired_reservations. rewrite in_flat_map.
  intros (t & Ht & H). rewrite in_flat_map in H. destruct H as (x & Hx & H).
  rewrite in_flat_map in H. destruct H as (ow & How & H).
  apply filter_In in Hx. destruct Hx as [Hx Hxid]. apply Z.eqb_eq in Hxid.
  destruct (is_expired_reservation now t x ow) eqn:C; [|destruct H].
  destruct H as [<-|[]].
  unfold is_expired_reservation in C.
  apply andb_true_iff in C. destruct C as [C Cw].
  apply andb_true_iff in C. destruct C as [Ct Cx].
  apply ticket_status_eqb_eq in Ct. apply tx_status_eqb_eq in Cx.
  destruct ow as [w|]; [|discriminate].
  destruct (w_reservation_expires_at w) as [e|] eqn:Ee; [|discriminate].
  apply Z.ltb_lt in Cw.
  unfold left_join in How.
  destruct (filter _ (waitlist s)) as [|w0 ws] eqn:Ef; [destruct How as [H|[]]; discriminate|].
  apply in_map_iff in How. destruct How as (w' & Hw' & Hin). inversion Hw'; subst w'.
  rewrite <- Ef in Hin. apply filter_In in Hin. destruct Hin as [Hin Hon].
  apply andb_true_iff in Hon. destruct Hon as [Hu He].
  apply Z.eqb_eq in Hu. apply Z.eqb_eq in He.
  exists t, x, w, e. repeat split; auto.
Qed.

Lemma expired_reservations_complete now s t x w e :
  In t (tickets s) -> In x (transactions s) -> In w (waitlist s) ->
  x_id x = t_transaction_id t ->
  w_user_id w = t_user_id t -> w_event_id w = t_event_id t ->
  t_status t = Reserved -> x_status x = Pending ->
  w_reservation_expires_at w = Some e -> e < now ->
  In (mkExpiredRow (t_id t) (t_event_id t) (t_ticket_type_id t) (t_user_id t)
                   (t_transaction_id t) (Some (w_id w)))
     (expired_reservations now s).
Proof.
  intros Ht Hx Hw Hxid Hu He Hts Hxs Hexp Hlt.
  unfold expired_reservations. rewrite in_flat_map. exists t. split; [assumption|].
  rewrite in_flat_map. exists x. split.
  { apply filter_In. split; [assumption | apply Z.eqb_eq; assumption]. }
  rewrite in_flat_map. exists (Some w). split.
  - unfold left_join.
    assert (Hf : In w (filter (fun w => (w_user_id w =? t_user_id t) &&
                                        (w_event_id w =? t_event_id t)) (waitlist s))).
    { apply filter_In. split; [assumption|].
      apply andb_true_iff. split; apply Z.eqb_eq; assumption. }
    destruct (filter _ (waitlist s)) as [|w0 ws]; [destruct Hf|].
    apply in_map. exact Hf.
  - unfold is_expired_reservation. rewrite Hts, Hxs, Hexp. cbn [ticket_status_eqb
      tx_status_eqb andb option_map].
    apply Z.ltb_lt in Hlt. rewrite Hlt. left. reflexivity.
Qed.

(* ------------------------------------------------------------------ *)
(** ** Store integrity used by the sweep properties *)

(** Deleting entries keeps the keys distinct. *)
Lemma distinct_keys_after_delete (keep : waitlist_entry -> bool) (ws : list waitlist_entry) :
  NoDup (map waitlist_key ws) -> NoDup (map waitlist_key (filter keep ws)).
Proof.
  intros Hnd. induction ws as [|w ws IH]; simpl; [constructor|].
  simpl in Hnd. apply NoDup_cons_iff in Hnd. destruct Hnd as [Hfresh Hrest].
  destruct (keep w); [|exact (IH Hrest)].
  simpl. apply NoDup_cons; [|exact (IH Hrest)].
  intros Hin. apply Hfresh. apply in_map_iff in Hin.
  destruct Hin as (w' & Ekey & Hw'). apply filter_In in Hw'.
  rewrite <- Ekey. apply in_map. tauto.
Qed.

(** Two entries of a queue with distinct keys that share a key are the same
    entry. *)
Lemma same_key_same_entry (ws : list waitlist_entry) (w1 w2 : waitlist_entry) :
  NoDup (map waitlist_key ws) -> In w1 ws -> In w2 ws ->
  waitlist_key w1 = waitlist_key w2 -> w1 = w2.
Proof.
  induction ws as [|w ws IH]; simpl; intros Hnd H1 H2 E; [tauto|].
  apply NoDup_cons_iff in Hnd. destruct Hnd as [Hfresh Hrest].
  destruct H1 as [<-|H1], H2 as [<-|H2]; auto.
  - exfalso. apply Hfresh. rewrite E. apply in_map. assumption.
  - exfalso. apply Hfresh. rewrite <- E. apply in_map. assumption.
Qed.

Lemma waitlist_key_set_offer p a b l :
  map waitlist_key (update_where p (set_offer a b) l) = map waitlist_key l.
Proof.
  unfold update_where. rewrite map_map. apply map_ext.
  intros w. destruct (p w); reflexivity.
Qed.

Lemma lapsed_selected now s t :
  lapsed now s t -> In (t_id t) (map r_id (expired_reservations now s)).
Proof.
  intros (Ht & Hts & (x & Hx & Hxid & Hxs) & (w & e & Hw & Hu & He & Hexp & Hlt)).
  apply in_map_iff. eexists. split; [|eapply expired_reservations_complete; eassumption].
  reflexivity.
Qed.

Lemma no_lapsed_no_rows now s :
  (forall t, ~ lapsed now s t) -> expired_reservations now s = [].
Proof.
  intros H. destruct (expired_reservations now s) as [|r rows] eqn:E; [reflexivity|].
  exfalso.
  destruct (expired_reservations_sound now s r) as
    (t & x & w & e & Ht & Hx & Hw & Hxid & Hu & He & Hts & Hxs & Hexp & Hlt & _).
  { rewrite E. left. reflexivity. }
  apply (H t). repeat split; eauto 10.
Qed.

(** ** Two sweeps in a row (C7) *)

Section SweepTwice.
Variables now1 now2 : Z.
Hypothesis second_within_window : now2 <= now1 + RESERVATION_WINDOW.

Lemma cleanup_writes_pass_inv r todo s :
  pass_inv now2 (r_id r :: todo) s -> pass_inv now2 todo (cleanup_writes r s).
Proof.
  intros (Hone & Href & Hlap). split; [|split].
  - unfold one_entry_per_user_event in *.
    destruct (cleanup_writes_waitlist_filter r s) as (keep & ->).
    apply distinct_keys_after_delete. exact Hone.
  - intros t Ht. apply cleanup_writes_tickets in Ht. destruct Ht as [Ht _].
    destruct (cleanup_writes_sequences r s) as [-> _]. auto.
  - intros t (Ht & Hts & (x & Hx & Hxid & Hxs) & (w & e & Hw & Hu & He & Hexp & Hlt)).
    apply cleanup_writes_tickets in Ht. destruct Ht as [Ht Hne].
    apply cleanup_writes_waitlist in Hw.
    rewrite cleanup_writes_transactions in Hx.
    apply in_update_where_inv in Hx. destruct Hx as (x0 & Hx0 & Ex).
    cbv beta in Ex.
    assert (Hx' : In x (transactions s)).
    { destruct (x_id x0 =? r_transaction_id r); subst x; [discriminate | assumption]. }
    destruct (Hlap t) as [E|Hin]; [|congruence|exact Hin].
    repeat split; eauto 10.
Qed.

Lemma assign_pass_inv e ty todo s :
  pass_inv now2 todo s ->
  pass_inv now2 todo (snd (assignTicketToWaitlist e ty now1 s)).
Proof.
  intros (Hone & Href & Hlap).
  destruct (next_unclaimed e s) as [w|] eqn:Hnext.
  2:{ unfold assignTicketToWaitlist. rewrite Hnext. repeat split; assumption. }
  destruct (next_unclaimed_some _ _ _ Hnext) as (Hw & Hwe & _).
  pose proof (assign_tickets e ty now1 s) as Et.
  pose proof (assign_transactions e ty now1 s) as Ex.
  pose proof (assign_waitlist e ty now1 s) as Ew.
  rewrite Hnext in Et, Ex, Ew.
  assert (En : next_transaction_id (snd (assignTicketToWaitlist e ty now1 s))
               = next_transaction_id s + 1).
  { unfold assignTicketToWaitlist. rewrite Hnext. reflexivity. }
  split; [|split].
  - unfold one_entry_per_user_event. rewrite Ew, waitlist_key_set_offer. exact Hone.
  - intros t Ht. rewrite Et in Ht. rewrite En.
    apply in_app_or in Ht. destruct Ht as [Ht|[<-|[]]].
    + specialize (Href t Ht). lia.
    + cbn [offered_ticket t_transaction_id]. lia.
  - intros t (Ht & Hts & (x & Hx & Hxid & Hxs) & (w1 & e1 & Hw1 & Hu & He & Hexp & Hlt)).
    rewrite Ew in Hw1. apply in_update_where_inv in Hw1.
    destruct Hw1 as (w0 & Hw0 & Ew1). cbv beta in Ew1.
    destruct (w_id w0 =? w_id w) eqn:Eid.
    { subst w1. cbn [set_offer w_reservation_expires_at] in Hexp.
      inversion Hexp; subst e1. lia. }
    subst w1.
    rewrite Et in Ht. apply in_app_or in Ht. destruct Ht as [Ht|[<-|[]]].
    + apply Hlap. rewrite Ex in Hx. apply in_app_or in Hx.
      destruct Hx as [Hx|[<-|[]]].
      * repeat split; eauto 10.
      * specialize (Href t Ht).
        cbn [offered_transaction x_id] in Hxid. lia.
    + exfalso. cbn [offered_ticket t_user_id t_event_id] in Hu, He.
      assert (w0 = w).
      { apply (same_key_same_entry (waitlist s)); auto.
        unfold waitlist_key. congruence. }
      subst w0. rewrite Z.eqb_refl in Eid. discriminate.
Qed.

Lemma sweep_rows_pass_inv rows s :
  pass_inv now2 (map r_id rows) s -> pass_inv now2 [] (sweep_rows now1 rows s).
Proof.
  revert s. induction rows as [|r rows IH]; intros s H; [exact H|].
  cbn [sweep_rows]. apply IH. rewrite cleanup_one_store.
  apply assign_pass_inv. apply cleanup_writes_pass_inv. exact H.
Qed.

End SweepTwice.

(** C7. Take a store with at most one waitlist entry per (user, event) and
    ids drawn from the sequences.  Run the sweep at [now1] and again at
    [now2], where nothing expires in between: every expiry before [now2] was
    already before [now1], and [now2] is no later than the expiry of the
    offers the first pass itself made.  The second pass selects no row: it
    reports 0 cleaned, leaves the store as the first pass left it and calls
    the offer engine not at all. *)
Theorem sweep_twice_cleans_nothing :
  forall now1 now2 s,
    one_entry_per_user_event s ->
    ids_in_sequence s ->
    now2 <= now1 + RESERVATION_WINDOW ->
    (forall w e, In w (waitlist s) -> w_reservation_expires_at w = Some e ->
                 e < now2 -> e < now1) ->
    let first := cleanupExpiredReservations now1 s in
    let second := cleanupExpiredReservations now2 (store first) in
    value second = 0 /\ store second = store first /\ engine_calls second = [].
Proof.
  intros now1 now2 s Hone Hids Hwin Hquiet first second.
  assert (Hnone : expired_reservations now2 (store first) = []).
  { apply no_lapsed_no_rows. intros t Hl.
    subst first. rewrite cleanup_store in Hl.
    assert (Hinv : pass_inv now2 [] (sweep_rows now1 (expired_reservations now1 s) s)).
    { apply sweep_rows_pass_inv; [exact Hwin|].
      split; [exact Hone|]. split; [intros t0 Ht0; apply Hids; exact Ht0|].
      intros t0 (Ht & Hts & Hx & (w & e & Hw & Hu & He & Hexp & Hlt)).
      apply lapsed_selected. repeat split; eauto 10. }
    destruct Hinv as (_ & _ & Hin). exact (Hin t Hl). }
  assert (E : second = mkOutcome 0 (store first) []).
  { subst second. unfold cleanupExpiredReservations at 1.
    rewrite bind_query, Hnone. reflexivity. }
  rewrite E. repeat split.
Qed.

Lemma sweep_twice_cleans_nothing_witness :
  value (cleanupExpiredReservations 1805000 returned) = 1 /\
  value (cleanupExpiredReservations 1806000
           (store (cleanupExpiredReservations 1805000 returned))) = 0.
Proof.
  split; [vm_compute; reflexivity|].
  apply (sweep_twice_cleans_nothing 1805000 1806000 returned).
  - unfold one_entry_per_user_event. vm_compute.
    repeat constructor; simpl; intuition discriminate.
  - split.
    + intros t Ht. vm_compute in Ht.
      destruct Ht as [<-|[<-|[]]]; vm_compute; split; reflexivity.
    + intros x Hx. vm_compute in Hx.
      destruct Hx as [<-|[<-|[]]]; vm_compute; reflexivity.
  - vm_compute. discriminate.
  - intros w e Hw. vm_compute in Hw.
    destruct Hw as [<-|[<-|[]]]; simpl; intros He; inversion He; subst; lia.
Defined.

(* ------------------------------------------------------------------ *)
(** ** Reservations that no waitlist entry tracks (C9, C10) *)

Lemma unlisted_not_selected now s t x r :
  unlisted_reservation t x s -> In r (expired_reservations now s) ->
  r_id r <> t_id t /\ r_transaction_id r <> x_id x.
Proof.
  intros ((Ht & Hx & Hxid & Hxu & Hts & Hxs & Hm & Hsole & Hsolex) & Hun & _) Hr.
  apply expired_reservations_sound in Hr.
  destruct Hr as (t' & x' & w & e & Ht' & Hx' & Hw & Hxid' & Hu & He & _ & _ & _ & _ & ->).
  cbn [r_id r_transaction_id].
  assert (Hne : t' <> t).
  { intros ->. apply (Hun w Hw). split; assumption. }
  split; intros E; apply Hne; apply Hsole; auto.
  right. congruence.
Qed.

Lemma cleanup_writes_unlisted r s t x :
  unlisted_reservation t x s ->
  r_id r <> t_id t -> r_transaction_id r <> x_id x ->
  unlisted_reservation t x (cleanup_writes r s).
Proof.
  intros ((Ht & Hx & Hxid & Hxu & Hts & Hxs & Hm & Hsole & Hsolex) & Hun & Hnt & Hnx)
         Hrid Hrtx.
  assert (Hkeep : forall x0, In x0 (transactions s) ->
            x_id (if x_id x0 =? r_transaction_id r then set_tx_status Expired x0 else x0)
              = x_id x -> x0 = x).
  { intros x0 Hx0 E. apply Hsolex; [assumption|].
    destruct (x_id x0 =? r_transaction_id r); exact E. }
  destruct (cleanup_writes_sequences r s) as [En Et].
  split; [|split; [|rewrite En, Et; split; assumption]].
  - repeat split; try assumption.
    + apply cleanup_writes_tickets. split; [assumption | congruence].
    + rewrite cleanup_writes_transactions.
      pose proof (in_update_where (fun x => x_id x =? r_transaction_id r)
                    (set_tx_status Expired) _ _ Hx) as H.
      cbv beta in H.
      destruct (x_id x =? r_transaction_id r) eqn:E; [|exact H].
      apply Z.eqb_eq in E. congruence.
    + intros t' Ht' H. apply cleanup_writes_tickets in Ht'. apply Hsole; tauto.
    + intros x' Hx' E. rewrite cleanup_writes_transactions in Hx'.
      apply in_update_where_inv in Hx'. destruct Hx' as (x0 & Hx0 & ->).
      cbv beta in E |- *.
      pose proof (Hkeep x0 Hx0 E) as ->.
      destruct (x_id x =? r_transaction_id r) eqn:E'; [|reflexivity].
      apply Z.eqb_eq in E'. congruence.
  - intros w Hw. apply Hun. apply (cleanup_writes_waitlist r s w Hw).
Qed.

Lemma assign_unlisted e ty now s t x :
  unlisted_reservation t x s ->
  unlisted_reservation t x (snd (assignTicketToWaitlist e ty now s)).
Proof.
  intros ((Ht & Hx & Hxid & Hxu & Hts & Hxs & Hm & Hsole & Hsolex) & Hun & Hnt & Hnx).
  pose proof (assign_tickets e ty now s) as Et.
  pose proof (assign_transactions e ty now s) as Ex.
  pose proof (assign_waitlist e ty now s) as Ew.
  destruct (assign_sequences e ty now s) as (Hsx & Hst & _).
  split; [|split; [|split; lia]].
  - repeat split; try assumption.
    + rewrite Et. apply in_or_app. left. assumption.
    + rewrite Ex. apply in_or_app. left. assumption.
    + intros t' Ht' H. rewrite Et in Ht'. apply in_app_or in Ht'.
      destruct Ht' as [Ht'|Ht']; [apply Hsole; assumption|].
      destruct (next_unclaimed e s) as [w|]; [|destruct Ht'].
      destruct Ht' as [<-|[]]. cbn [offered_ticket t_id t_transaction_id] in H. lia.
    + intros x' Hx' E. rewrite Ex in Hx'. apply in_app_or in Hx'.
      destruct Hx' as [Hx'|Hx']; [apply Hsolex; assumption|].
      destruct (next_unclaimed e s) as [w|]; [|destruct Hx'].
      destruct Hx' as [<-|[]]. cbn [offered_transaction x_id] in E. lia.
  - intros w Hw. rewrite Ew in Hw.
    destruct (next_unclaimed e s) as [w0|]; [|apply Hun; assumption].
    apply in_update_where_inv in Hw. destruct Hw as (w1 & Hw1 & ->).
    specialize (Hun w1 Hw1). cbv beta.
    destruct (w_id w1 =? w_id w0); exact Hun.
Qed.

Lemma sweep_rows_unlisted now rows s t x :
  (forall r, In r rows -> r_id r <> t_id t /\ r_transaction_id r <> x_id x) ->
  unlisted_reservation t x s ->
  unlisted_reservation t x (sweep_rows now rows s).
Proof.
  revert s. induction rows as [|r rows IH]; intros s Hrows H; [exact H|].
  cbn [sweep_rows]. apply IH.
  - intros r' Hr'. apply Hrows. right. exact Hr'.
  - rewrite cleanup_one_store. apply assign_unlisted.
    destruct (Hrows r (or_introl eq_refl)).
    apply cleanup_writes_unlisted; assumption.
Qed.

(** No sweep pass, at whatever time, touches an unlisted reservation. *)
Lemma cleanup_unlisted now s t x :
  unlisted_reservation t x s ->
  unlisted_reservation t x (store (cleanupExpiredReservations now s)).
Proof.
  intros H. rewrite cleanup_store. apply sweep_rows_unlisted; [|exact H].
  intros r Hr. apply (unlisted_not_selected now s t x r H Hr).
Qed.

Lemma run_sweeps_unlisted times s t x :
  unlisted_reservation t x s -> unlisted_reservation t x (run_sweeps times s).
Proof.
  revert s. induction times as [|now times IH]; intros s H; [exact H|].
  cbn [run_sweeps]. apply IH. apply cleanup_unlisted. exact H.
Qed.

(** Accepting an unlisted reservation skips the expiry check, at any time. *)
Lemma accept_unlisted now s t x :
  unlisted_reservation t x s ->
  valid_id (x_id x) = true ->
  let o := post_accept_ticket (x_id x) now s in
  engine_calls o = [] /\
  ((exists refunded_ticket_id refundAmount platformFee,
      value o = Accepted t refunded_ticket_id refundAmount platformFee) \/
   value o = AcceptInternalError).
Proof.
  intros ((Ht & Hx & Hxid & Hxu & Hts & Hxs & Hm & Hsole & Hsolex) & Hun & _) Hid o.
  assert (Htx : pending_offer (x_id x) s = Some x).
  { unfold pending_offer.
    destruct (find _ (transactions s)) as [y|] eqn:E.
    - apply find_some in E. destruct E as [Hy Hp].
      apply andb_true_iff in Hp. destruct Hp as [Hp _].
      apply andb_true_iff in Hp. destruct Hp as [Hp _].
      apply Z.eqb_eq in Hp. f_equal. apply Hsolex; assumption.
    - exfalso. pose proof (find_none _ _ E x Hx) as H. cbv beta in H.
      rewrite Z.eqb_refl, Hxs, Hm in H. discriminate H. }
  assert (Htk : reserved_ticket_of (x_id x) s = Some t).
  { unfold reserved_ticket_of.
    destruct (find _ (tickets s)) as [y|] eqn:E.
    - apply find_some in E. destruct E as [Hy Hp].
      apply andb_true_iff in Hp. destruct Hp as [Hp _].
      apply Z.eqb_eq in Hp. f_equal. apply Hsole; [assumption|].
      right. congruence.
    - exfalso. pose proof (find_none _ _ E t Ht) as H. cbv beta in H.
      rewrite <- Hxid, Z.eqb_refl, Hts in H. discriminate H. }
  assert (Hw : waitlist_entry_of (x_user_id x) (t_event_id t) s = None).
  { unfold waitlist_entry_of.
    destruct (find _ (waitlist s)) as [w|] eqn:E; [|reflexivity].
    exfalso. apply find_some in E. destruct E as [Hin Hp].
    apply andb_true_iff in Hp. destruct Hp as [Hu He].
    apply Z.eqb_eq in Hu. apply Z.eqb_eq in He.
    apply (Hun w Hin). split; congruence. }
  subst o. rewrite (post_accept_ticket_run _ now _ _ _ Hid Htx Htk), Hw.
  cbn [offer_lapsed]. cbv zeta.
  destruct (pending_return_ticket (t_event_id t) (t_ticket_type_id t) s) as [rt|].
  - destruct (find_transaction (t_transaction_id rt) _) as [orig|];
      cbn [value engine_calls]; split; eauto.
  - cbn [value engine_calls]. split; eauto.
Qed.

Lemma unlisted_never_expires t x s :
  unlisted_reservation t x s -> never_expires t x s.
Proof.
  intros H1 sweeps later s2 o.
  pose proof (run_sweeps_unlisted sweeps s t x H1) as H2. fold s2 in H2.
  pose proof H2 as ((Ht & Hx & _) & Hun & _).
  split; [exact Ht|]. split; [exact Hx|]. split; [exact Hun|].
  split.
  { intros Hin. apply in_map_iff in Hin. destruct Hin as (r & Er & Hr).
    destruct (unlisted_not_selected later s2 t x r H2 Hr) as [Hne _].
    contradiction. }
  assert (Hacc : valid_id (x_id x) = true ->
            engine_calls o = [] /\
            ((exists r a f, value o = Accepted t r a f) \/
             value o = AcceptInternalError)).
  { intros Hid. exact (accept_unlisted later s2 t x H2 Hid). }
  split; [|exact Hacc].
  destruct (valid_id (x_id x)) eqn:Hid.
  - destruct (Hacc eq_refl) as (_ & [(r & a & f & ->)| ->]); discriminate.
  - subst o. unfold post_accept_ticket. rewrite Hid. discriminate.
Qed.

(** The only way [POST /waitlist] answers with an offer. *)
Lemma post_waitlist_offered user_id event_id now s transaction_id :
  value (post_waitlist user_id event_id now s) = JoinOffered transaction_id ->
  exists pendingTicket,
    oldest_pending_return event_id s = Some pendingTicket /\
    filter (fun w => (w_user_id w =? user_id) && (w_event_id w =? event_id))
           (waitlist s) = [] /\
    transaction_id = next_transaction_id s /\
    engine_calls (post_waitlist user_id event_id now s) = [] /\
    let s1 := store (post_waitlist user_id event_id now s) in
    tickets s1 = tickets s ++ [fast_path_ticket user_id event_id now pendingTicket s] /\
    transactions s1 = transactions s ++ [fast_path_transaction user_id pendingTicket s] /\
    waitlist s1 = waitlist s /\
    ticket_types s1 = ticket_types s /\ events s1 = events s /\
    next_ticket_id s1 = next_ticket_id s + 1 /\
    next_transaction_id s1 = next_transaction_id s + 1.
Proof.
  unfold post_waitlist.
  destruct (valid_id user_id); cbn [negb]; [|discriminate].
  destruct (valid_id event_id); cbn [negb]; [|discriminate].
  rewrite !bind_query. cbv beta.
  destruct (existsb (Z.eqb user_id) (users s)); cbn [negb]; [|discriminate].
  destruct (find_event event_id s) as [ev|]; [|discriminate].
  destruct (event_end_time ev <? now); [discriminate|].
  destruct (e_tickets_sold ev <? e_total_tickets ev); [discriminate|].
  rewrite bind_query. cbv beta.
  destruct (filter _ (waitlist s)) as [|w ws] eqn:Eex; [|discriminate].
  rewrite bind_query. cbv beta.
  destruct (oldest_pending_return event_id s) as [pendingTicket|].
  - run_op. cbn [value store engine_calls]. intros H. inversion H; subst.
    exists pendingTicket. repeat split.
  - run_op. discriminate.
Qed.

(** C9, as the code has it. Let [POST /waitlist] answer with an immediate
    offer (a [pending_return] ticket of the event exists).  It inserts a
    pending waitlist transaction [x] and a reserved ticket [t] for the joiner
    and no waitlist entry, so the joiner has no entry for the event.  For as
    long as that is so (it is right after the join, and every sweep pass
    keeps it so) the reservation never expires: no sweep pass at any time
    selects the ticket and an accept at any time is not answered with
    [ReservationExpired]. *)
Theorem fast_path_offer_never_expires :
  forall user_id event_id now s transaction_id,
    ids_in_sequence s ->
    value (post_waitlist user_id event_id now s) = JoinOffered transaction_id ->
    let s1 := store (post_waitlist user_id event_id now s) in
    waitlist s1 = waitlist s /\
    exists t x,
      t_transaction_id t = transaction_id /\ x_id x = transaction_id /\
      t_user_id t = user_id /\ t_event_id t = event_id /\
      t_status t = Reserved /\ x_status x = Pending /\
      x_payment_method x = "waitlist"%string /\
      unlisted_reservation t x s1 /\
      never_expires t x s1 /\
      (forall s2, unlisted_reservation t x s2 ->
         forall later,
           unlisted_reservation t x (store (cleanupExpiredReservations later s2)) /\
           never_expires t x s2).
Proof.
  intros user_id event_id now s transaction_id [Hseq_t Hseq_x] Hoffer s1.
  destruct (post_waitlist_offered _ _ _ _ _ Hoffer)
    as (pt & _ & Hnone & Htx & _ & Et & Ex & Ew & _ & _ & Ent & Enx).
  fold s1 in Et, Ex, Ew, Ent, Enx.
  split; [exact Ew|].
  exists (fast_path_ticket user_id event_id now pt s),
         (fast_path_transaction user_id pt s).
  subst transaction_id.
  do 7 (split; [reflexivity|]).
  assert (H1 : unlisted_reservation (fast_path_ticket user_id event_id now pt s)
                                    (fast_path_transaction user_id pt s) s1).
  { split; [|split; [|split]].
    - repeat split.
      + rewrite Et. apply in_or_app. right. left. reflexivity.
      + rewrite Ex. apply in_or_app. right. left. reflexivity.
      + intros t' Ht' H. rewrite Et in Ht'. apply in_app_or in Ht'.
        destruct Ht' as [Ht'|[<-|[]]]; [|reflexivity].
        destruct (Hseq_t t' Ht'). cbn [fast_path_ticket t_id t_transaction_id] in H. lia.
      + intros x' Hx' H. rewrite Ex in Hx'. apply in_app_or in Hx'.
        destruct Hx' as [Hx'|[<-|[]]]; [|reflexivity].
        specialize (Hseq_x x' Hx'). cbn [fast_path_transaction x_id] in H. lia.
    - intros w Hw [Hu He]. rewrite Ew in Hw.
      cbn [fast_path_ticket t_user_id t_event_id] in Hu, He.
      assert (Hin : In w []).
      { rewrite <- Hnone. apply filter_In. split; [assumption|].
        apply andb_true_iff. split; apply Z.eqb_eq; assumption. }
      destruct Hin.
    - rewrite Ent. cbn [fast_path_ticket t_id]. lia.
    - rewrite Enx. cbn [fast_path_transaction x_id]. lia. }
  split; [exact H1|]. split; [apply unlisted_never_expires; exact H1|].
  intros s2 H2 later. split.
  - apply cleanup_unlisted. exact H2.
  - apply unlisted_never_expires. exact H2.
Qed.

Lemma returned_ids_in_sequence : ids_in_sequence returned.
Proof.
  split.
  - intros t Ht. vm_compute in Ht.
    destruct Ht as [<-|[<-|[]]]; vm_compute; split; reflexivity.
  - intros x Hx. vm_compute in Hx.
    destruct Hx as [<-|[<-|[]]]; vm_compute; reflexivity.
Defined.

Lemma fast_path_offer_never_expires_witness :
  value (post_waitlist 4 1 4500 returned) = JoinOffered 3 /\
  exists x, x_id x = 3 /\
    value (post_accept_ticket (x_id x) 800000000
             (run_sweeps [1805000; 3700000] (store (post_waitlist 4 1 4500 returned))))
      <> AcceptReservationExpired.
Proof.
  split; [vm_compute; reflexivity|].
  destruct (fast_path_offer_never_expires 4 1 4500 returned 3
              returned_ids_in_sequence ltac:(vm_compute; reflexivity))
    as (_ & t & x & H).
  destruct H as (_ & Hx & _ & _ & _ & _ & _ & _ & H & _).
  exists x. split; [exact Hx|].
  destruct (H [1805000; 3700000] 800000000) as (_ & _ & _ & _ & Hne & _).
  exact Hne.
Defined.

(** C9 read for every later store fails.  In the store [joined_again] the
    fast-path offer of user 2 (transaction 2, ticket 2) is still outstanding
    and user 2 holds a waitlist entry whose own offer lapsed at 1806000:
    the accept of transaction 2 is answered with [ReservationExpired], and
    the sweep selects ticket 2, deletes it and marks transaction 2
    expired. *)
Lemma fast_path_offer_expires_after_rejoin :
  value (post_waitlist 2 1 3000 given_back) = JoinOffered 2 /\
  waitlist offered_on_join = [] /\
  find_ticket 2 offered_on_join = Some (mkTicket 2 2 1 1 2 Reserved 3000) /\
  value (post_waitlist 3 1 3500 offered_on_join) = JoinOffered 3 /\
  value (post_waitlist 2 1 5000 taken_by_other) =
    JoinJoined (mkWaitlist 1 2 1 5000 None None) 1 /\
  value (put_ticket_organizer_refund 9 3 6000
           (store (post_waitlist 2 1 5000 taken_by_other))) = OrgRefunded 3 1 1 true /\
  find_ticket 2 joined_again = Some (mkTicket 2 2 1 1 2 Reserved 3000) /\
  value (post_accept_ticket 2 1807000 joined_again) = AcceptReservationExpired /\
  In 2 (map r_id (expired_reservations 1807000 joined_again)) /\
  find_ticket 2 (store (cleanupExpiredReservations 1807000 joined_again)) = None /\
  option_map x_status
    (find_transaction 2 (store (cleanupExpiredReservations 1807000 joined_again)))
    = Some Expired.
Proof.
  do 8 (split; [vm_compute; reflexivity|]).
  split; [vm_compute; left; reflexivity|].
  split; vm_compute; reflexivity.
Qed.

(** C10, as the code has it. [DELETE /waitlist/:id] deletes the entry
    whatever its offer columns hold.  Let the entry be claimed and linked to
    an outstanding offer (a reserved ticket [t] of the entry's user and event
    with its pending transaction [x]), in a store with one entry per (user,
    event) and ids drawn from the sequences.  While the entry is there, any
    sweep after its expiry selects [t].  The deletion touches neither the
    ticket nor the transaction and leaves the user without an entry for the
    event; for as long as that is so (every sweep pass keeps it so) the
    reservation never expires: no sweep pass at any time selects the ticket
    or expires the transaction, and an accept at any time is not answered
    with [ReservationExpired]. *)
Theorem leave_strands_claimed_reservation :
  forall id s w offered expires t x,
    valid_id id = true ->
    one_entry_per_user_event s ->
    ids_in_sequence s ->
    In w (waitlist s) -> w_id w = id ->
    w_offered_at w = Some offered ->
    w_reservation_expires_at w = Some expires ->
    reservation t x s ->
    t_user_id t = w_user_id w -> t_event_id t = w_event_id w ->
    let o := delete_waitlist id s in
    (forall later, expires < later ->
       In (t_id t) (map r_id (expired_reservations later s))) /\
    (exists deleted, value o = LeaveDeleted deleted /\ w_id deleted = id) /\
    ~ In w (waitlist (store o)) /\
    tickets (store o) = tickets s /\ transactions (store o) = transactions s /\
    unlisted_reservation t x (store o) /\
    never_expires t x (store o) /\
    (forall s2, unlisted_reservation t x s2 ->
       forall later,
         unlisted_reservation t x (store (cleanupExpiredReservations later s2)) /\
         never_expires t x s2).
Proof.
  intros id s w offered expires t x Hid Hone [Hseq_t Hseq_x] Hw Hwid Hoff Hexp
         Hres Hu He o.
  pose proof Hres as (Ht & Hx & Hxid & Hxu & Hts & Hxs & Hm & Hsole & Hsolex).
  assert (Eo : o = mkOutcome
                 (match filter (fun w => w_id w =? id) (waitlist s) with
                  | [] => LeaveNotFound
                  | deleted :: _ => LeaveDeleted deleted
                  end)
                 (delete_waitlist_row id s) []).
  { subst o. unfold delete_waitlist. rewrite Hid. cbn [negb]. run_op.
    destruct (filter _ (waitlist s)); reflexivity. }
  split.
  { intros later Hlater. apply lapsed_selected.
    repeat split; eauto 10. }
  rewrite Eo. cbn [value store].
  split.
  { destruct (filter (fun w => w_id w =? id) (waitlist s)) as [|d ds] eqn:E.
    - assert (Hin : In w []).
      { rewrite <- E. apply filter_In. split; [assumption | apply Z.eqb_eq; assumption]. }
      destruct Hin.
    - exists d. split; [reflexivity|].
      assert (Hd : In d (d :: ds)) by (left; reflexivity).
      rewrite <- E in Hd. apply filter_In in Hd. apply Z.eqb_eq. tauto. }
  split.
  { unfold delete_waitlist_row, with_waitlist. cbn [waitlist].
    rewrite in_delete_where. intros [_ H]. rewrite Hwid, Z.eqb_refl in H. discriminate. }
  split; [reflexivity|]. split; [reflexivity|].
  assert (H1 : unlisted_reservation t x (delete_waitlist_row id s)).
  { split; [exact Hres|]. split; [|split].
    - intros w' Hw' [Hu' He'].
      unfold delete_waitlist_row, with_waitlist in Hw'. cbn [waitlist] in Hw'.
      apply in_delete_where in Hw'. destruct Hw' as [Hw' Hne].
      assert (w' = w).
      { apply (same_key_same_entry (waitlist s)); auto.
        unfold waitlist_key. congruence. }
      subst w'. rewrite Hwid, Z.eqb_refl in Hne. discriminate.
    - apply Hseq_t. exact Ht.
    - apply Hseq_x. exact Hx. }
  split; [exact H1|]. split; [apply unlisted_never_expires; exact H1|].
  intros s2 H2 later. split.
  - apply cleanup_unlisted. exact H2.
  - apply unlisted_never_expires. exact H2.
Qed.

Lemma leave_strands_claimed_reservation_witness :
  In 2 (map r_id (expired_reservations 1805000 returned)) /\
  let left := store (delete_waitlist 1 returned) in
  In (mkTicket 2 2 1 1 2 Reserved 4000)
     (tickets (run_sweeps [1805000; 3700000] left)) /\
  In (mkTransaction 2 2 50%float Pending "waitlist")
     (transactions (run_sweeps [1805000; 3700000] left)).
Proof.
  assert (Hone : one_entry_per_user_event returned).
  { unfold one_entry_per_user_event. vm_compute.
    repeat constructor; simpl; intuition discriminate. }
  assert (Hres : reservation (mkTicket 2 2 1 1 2 Reserved 4000)
                             (mkTransaction 2 2 50%float Pending "waitlist") returned).
  { repeat split.
    - vm_compute. right. left. reflexivity.
    - vm_compute. right. left. reflexivity.
    - intros t' Ht'. vm_compute in Ht'.
      destruct Ht' as [<-|[<-|[]]]; simpl; intros [H|H]; try reflexivity; discriminate H.
    - intros x' Hx'. vm_compute in Hx'.
      destruct Hx' as [<-|[<-|[]]]; simpl; intros H; try reflexivity; discriminate H. }
  destruct (leave_strands_claimed_reservation 1 returned
              (mkWaitlist 1 2 1 2000 (Some 4000) (Some 1804000)) 4000 1804000
              (mkTicket 2 2 1 1 2 Reserved 4000)
              (mkTransaction 2 2 50%float Pending "waitlist")
              ltac:(vm_compute; reflexivity) Hone returned_ids_in_sequence
              ltac:(vm_compute; left; reflexivity) eq_refl eq_refl eq_refl Hres
              eq_refl eq_refl)
    as (Hbefore & _ & _ & _ & _ & _ & Hafter & _).
  split.
  - apply (Hbefore 1805000). reflexivity.
  - cbv zeta.
    destruct (Hafter [1805000; 3700000] 0) as (Ht & Hx & _).
    split; [exact Ht | exact Hx].
Defined.

(** C10 read for every later store fails.  In the store [queued_again] the
    reservation whose entry user 2 deleted (transaction 2, ticket 2) is still
    outstanding and user 2 holds a new entry whose offer lapsed at 1806000:
    the sweep selects ticket 2 through the new entry, deletes it and marks
    transaction 2 expired. *)
Lemma left_reservation_expires_after_rejoin :
  waitlist promoted = [mkWaitlist 1 2 1 2000 (Some 3000) (Some 1803000)] /\
  find_ticket 2 promoted = Some (mkTicket 2 2 1 1 2 Reserved 3000) /\
  value (delete_waitlist 1 promoted) =
    LeaveDeleted (mkWaitlist 1 2 1 2000 (Some 3000) (Some 1803000)) /\
  waitlist left_queue = [] /\
  value (post_tickets 3 1 1 1 None 4000 left_queue) = Purchased 3 50%float 1 /\
  value (post_waitlist 2 1 5000 (store (post_tickets 3 1 1 1 None 4000 left_queue))) =
    JoinJoined (mkWaitlist 2 2 1 5000 None None) 1 /\
  find_ticket 2 queued_again = Some (mkTicket 2 2 1 1 2 Reserved 3000) /\
  In 2 (map r_id (expired_reservations 1807000 queued_again)) /\
  find_ticket 2 (store (cleanupExpiredReservations 1807000 queued_again)) = None /\
  option_map x_status
    (find_transaction 2 (store (cleanupExpiredReservations 1807000 queued_again)))
    = Some Expired.
Proof.
  do 7 (split; [vm_compute; reflexivity|]).
  split; [vm_compute; left; reflexivity|].
  split; vm_compute; reflexivity.
Qed.

(* ------------------------------------------------------------------ *)
(** * Further properties of the handlers *)

(** ** Running a handler through all its branches *)

Ltac step_op :=
  first [ rewrite bind_ret | rewrite bind_query | rewrite bind_exec
        | rewrite bind_offer ];
  cbv beta zeta.

Ltac split_op :=
  match goal with
  | |- context [ (if ?c then _ else _) ?s ] => destruct c eqn:?
  | |- context [ (match ?x with Some _ => _ | None => _ end) ?s ] => destruct x eqn:?
  | |- context [ (match ?x with [] => _ | _ :: _ => _ end) ?s ] => destruct x eqn:?
  | |- context [ (let (_, _) := ?x in _) ?s ] => destruct x eqn:?
  | |- context [ bind (if ?c then _ else _) _ ] => destruct c eqn:?
  end.

Ltac run_handler :=
  repeat first [ step_op | split_op ];
  cbn [store value engine_calls ret fst snd].

(** ** The store integrity is kept by every request *)

Lemma ids_frame s s' :
  tickets s' = tickets s -> transactions s' = transactions s ->
  next_ticket_id s' = next_ticket_id s ->
  next_transaction_id s' = next_transaction_id s ->
  ids_in_sequence s -> ids_in_sequence s'.
Proof.
  unfold ids_in_sequence. intros -> -> -> ->. tauto.
Qed.

Lemma ids_update_transaction_status id st s :
  ids_in_sequence s -> ids_in_sequence (update_transaction_status id st s).
Proof.
  intros [Ht Hx]. split; [exact Ht|].
  intros x Hin. cbn [update_transaction_status with_transactions transactions
    next_transaction_id] in *.
  apply in_update_where_inv in Hin. destruct Hin as (x0 & Hx0 & ->).
  specialize (Hx x0 Hx0). cbv beta. destruct (x_id x0 =? id); exact Hx.
Qed.

Lemma ids_update_ticket_status id st s :
  ids_in_sequence s -> ids_in_sequence (update_ticket_status id st s).
Proof.
  intros [Ht Hx]. split; [|exact Hx].
  intros t Hin. cbn [update_ticket_status with_tickets tickets next_ticket_id
    next_transaction_id] in *.
  apply in_update_where_inv in Hin. destruct Hin as (t0 & Ht0 & ->).
  specialize (Ht t0 Ht0). cbv beta. destruct (t_id t0 =? id); exact Ht.
Qed.

Lemma ids_delete_ticket_row id s :
  ids_in_sequence s -> ids_in_sequence (delete_ticket_row id s).
Proof.
  intros [Ht Hx]. split; [|exact Hx].
  intros t Hin. cbn [delete_ticket_row with_tickets tickets next_ticket_id
    next_transaction_id] in *.
  apply in_delete_where in Hin. apply Ht. tauto.
Qed.

Lemma ids_insert_transaction u p st m s :
  ids_in_sequence s -> ids_in_sequence (insert_transaction u p st m s).
Proof.
  intros [Ht Hx]. split.
  - intros t Hin. cbn [insert_transaction tickets next_ticket_id
      next_transaction_id] in *. specialize (Ht t Hin). lia.
  - intros x Hin. cbn [insert_transaction transactions next_transaction_id] in *.
    apply in_app_or in Hin. destruct Hin as [Hin|[<-|[]]].
    + specialize (Hx x Hin). lia.
    + cbn [x_id]. lia.
Qed.

Lemma ids_insert_ticket tid ty e u st now s :
  tid < next_transaction_id s ->
  ids_in_sequence s -> ids_in_sequence (insert_ticket tid ty e u st now s).
Proof.
  intros Htid [Ht Hx]. split; [|exact Hx].
  intros t Hin. cbn [insert_ticket tickets next_ticket_id next_transaction_id] in *.
  apply in_app_or in Hin. destruct Hin as [Hin|[<-|[]]].
  - specialize (Ht t Hin). lia.
  - cbn [t_id t_transaction_id]. lia.
Qed.

Lemma ids_insert_active_tickets n tid ty e u now s :
  tid < next_transaction_id s ->
  ids_in_sequence s ->
  ids_in_sequence (insert_active_tickets n tid ty e u now s).
Proof.
  revert s. induction n as [|n IH]; intros s Htid H; [exact H|].
  cbn [insert_active_tickets]. apply IH; [exact Htid|].
  apply ids_insert_ticket; assumption.
Qed.

Lemma ids_new_offer u p m tid ty e u' now s :
  tid = next_transaction_id s ->
  ids_in_sequence s ->
  ids_in_sequence
    (insert_ticket tid ty e u' Reserved now (insert_transaction u p Pending m s)).
Proof.
  intros -> H. apply ids_insert_ticket.
  - cbn [insert_transaction next_transaction_id]. lia.
  - apply ids_insert_transaction. exact H.
Qed.

Lemma ids_assign e ty now s :
  ids_in_sequence s ->
  ids_in_sequence (snd (assignTicketToWaitlist e ty now s)).
Proof.
  intros H. unfold assignTicketToWaitlist.
  destruct (next_unclaimed e s) as [w|]; [|exact H].
  cbn [snd]. apply ids_new_offer; [reflexivity|].
  revert H. apply ids_frame; reflexivity.
Qed.

Lemma ids_cleanup_writes r s :
  ids_in_sequence s -> ids_in_sequence (cleanup_writes r s).
Proof.
  intros H. unfold cleanup_writes. cbv zeta.
  assert (H2 : ids_in_sequence
                 (delete_ticket_row (r_id r)
                    (update_transaction_status (r_transaction_id r) Expired s))).
  { apply ids_delete_ticket_row, ids_update_transaction_status, H. }
  destruct (r_waitlist_id r); [|exact H2].
  revert H2. apply ids_frame; reflexivity.
Qed.

Lemma ids_sweep_rows now rows s :
  ids_in_sequence s -> ids_in_sequence (sweep_rows now rows s).
Proof.
  revert s. induction rows as [|r rows IH]; intros s H; [exact H|].
  cbn [sweep_rows]. apply IH. rewrite cleanup_one_store.
  apply ids_assign, ids_cleanup_writes, H.
Qed.

Lemma one_frame s s' :
  waitlist s' = waitlist s ->
  one_entry_per_user_event s -> one_entry_per_user_event s'.
Proof. unfold one_entry_per_user_event. intros ->. tauto. Qed.

Lemma one_delete p s :
  one_entry_per_user_event s ->
  one_entry_per_user_event (with_waitlist (delete_where p) s).
Proof.
  unfold one_entry_per_user_event. cbn [with_waitlist waitlist].
  apply distinct_keys_after_delete.
Qed.

Lemma one_assign e ty now s :
  one_entry_per_user_event s ->
  one_entry_per_user_event (snd (assignTicketToWaitlist e ty now s)).
Proof.
  unfold one_entry_per_user_event. rewrite assign_waitlist.
  destruct (next_unclaimed e s); [rewrite waitlist_key_set_offer|]; tauto.
Qed.

Lemma one_cleanup_writes r s :
  one_entry_per_user_event s -> one_entry_per_user_event (cleanup_writes r s).
Proof.
  unfold one_entry_per_user_event.
  destruct (cleanup_writes_waitlist_filter r s) as (keep & ->).
  apply distinct_keys_after_delete.
Qed.

Lemma one_sweep_rows now rows s :
  one_entry_per_user_event s -> one_entry_per_user_event (sweep_rows now rows s).
Proof.
  revert s. induction rows as [|r rows IH]; intros s H; [exact H|].
  cbn [sweep_rows]. apply IH. rewrite cleanup_one_store.
  apply one_assign, one_cleanup_writes, H.
Qed.

Lemma one_insert_waitlist u e now s :
  filter (fun w => (w_user_id w =? u) && (w_event_id w =? e)) (waitlist s) = [] ->
  one_entry_per_user_event s ->
  one_entry_per_user_event (insert_waitlist u e now s).
Proof.
  unfold one_entry_per_user_event. cbn [insert_waitlist waitlist].
  intros Hnone H. rewrite map_app. cbn [map].
  assert (Hfresh : ~ In (u, e) (map waitlist_key (waitlist s))).
  { intros Hin. apply in_map_iff in Hin. destruct Hin as (w & Ek & Hw).
    unfold waitlist_key in Ek. inversion Ek; subst.
    assert (Hf : In w []).
    { rewrite <- Hnone. apply filter_In. split; [assumption|].
      rewrite !Z.eqb_refl. reflexivity. }
    destruct Hf. }
  clear Hnone. induction (map waitlist_key (waitlist s)) as [|k ks IH]; simpl.
  - constructor; [intros []|constructor].
  - apply NoDup_cons_iff in H. destruct H as [Hk Hks].
    apply NoDup_cons.
    + intros Hin. apply in_app_or in Hin. destruct Hin as [Hin|[E|[]]]; [tauto|].
      apply Hfresh. left. unfold waitlist_key in E. cbn in E. congruence.
    + apply IH; [assumption|]. intros Hin. apply Hfresh. right. assumption.
Qed.

Lemma ids_with_waitlist f s :
  ids_in_sequence s -> ids_in_sequence (with_waitlist f s).
Proof. apply ids_frame; reflexivity. Qed.

Lemma ids_with_events f s :
  ids_in_sequence s -> ids_in_sequence (with_events f s).
Proof. apply ids_frame; reflexivity. Qed.

Lemma ids_with_ticket_types f s :
  ids_in_sequence s -> ids_in_sequence (with_ticket_types f s).
Proof. apply ids_frame; reflexivity. Qed.

Ltac ids_tac H :=
  repeat first
    [ exact H
    | apply ids_assign
    | apply ids_new_offer; [reflexivity|]
    | apply ids_insert_active_tickets;
        [cbn [insert_transaction next_transaction_id]; lia|]
    | apply ids_insert_transaction
    | apply ids_update_ticket_status
    | apply ids_update_transaction_status
    | apply ids_delete_ticket_row
    | apply ids_with_waitlist
    | apply ids_with_events
    | apply ids_with_ticket_types ].

Lemma serve_keeps_ids r s : ids_in_sequence s -> ids_in_sequence (serve r s).
Proof.
  intros H. destruct r; cbn [serve].
  - unfold post_waitlist. run_handler; ids_tac H.
  - unfold delete_waitlist. run_handler; ids_tac H.
  - unfold delete_waitlist_event_user. run_handler; ids_tac H.
  - unfold post_accept_ticket. run_handler; ids_tac H.
  - unfold post_decline_ticket. run_handler; ids_tac H.
  - rewrite cleanup_store. apply ids_sweep_rows, H.
  - unfold post_tickets. run_handler; unfold sync_event, add_tickets_sold; ids_tac H.
  - unfold put_ticket_refund. run_handler; ids_tac H.
  - unfold put_ticket_organizer_refund. run_handler;
      unfold add_tickets_sold, decrement_event_sold; ids_tac H.
  - unfold delete_ticket. run_handler; ids_tac H.
  - unfold put_ticket_type_recount. run_handler; unfold recount_ticket_type; ids_tac H.
  - unfold post_sync_all. run_handler.
    unfold sync_all_events, recount_all_ticket_types; ids_tac H.
Qed.

(** The ticket inserts of a purchase write the ticket table and its sequence
    only. *)
Lemma insert_active_tickets_frame n tid ty e u now s :
  let s' := insert_active_tickets n tid ty e u now s in
  users s' = users s /\ events s' = events s /\
  ticket_types s' = ticket_types s /\ transactions s' = transactions s /\
  waitlist s' = waitlist s /\
  next_transaction_id s' = next_transaction_id s /\
  next_waitlist_id s' = next_waitlist_id s /\
  next_ticket_id s' = next_ticket_id s + Z.of_nat n.
Proof.
  revert s. induction n as [|n IH]; intros s; cbn [insert_active_tickets].
  - cbv zeta. rewrite Z.add_0_r. repeat split.
  - specialize (IH (insert_ticket tid ty e u Active now s)). cbv zeta in *.
    destruct IH as (-> & -> & -> & -> & -> & -> & -> & ->).
    cbn [insert_ticket users events ticket_types transactions waitlist
         next_transaction_id next_waitlist_id next_ticket_id].
    repeat split. lia.
Qed.

Ltac one_tac H :=
  repeat first
    [ exact H
    | apply one_assign
    | apply one_delete
    | apply one_insert_waitlist; [assumption|] ].

Lemma serve_keeps_one_entry r s :
  one_entry_per_user_event s -> one_entry_per_user_event (serve r s).
Proof.
  intros H. destruct r; cbn [serve].
  - unfold post_waitlist. run_handler; one_tac H.
  - unfold delete_waitlist. run_handler; one_tac H.
  - unfold delete_waitlist_event_user. run_handler; one_tac H.
  - unfold post_accept_ticket. run_handler; one_tac H.
  - unfold post_decline_ticket. run_handler; one_tac H.
  - rewrite cleanup_store. apply one_sweep_rows, H.
  - unfold post_tickets. run_handler; one_tac H.
    revert H. apply one_frame.
    cbn [sync_event add_tickets_sold with_events with_ticket_types waitlist].
    destruct (insert_active_tickets_frame (Z.to_nat quantity) (next_transaction_id s)
                ticket_type_id event_id user_id now
                (insert_transaction user_id
                   (tt_price t * PrimFloat.of_uint63 (Uint63.of_Z quantity))%float
                   Completed (method_or_card payment_method) s))
      as (_ & _ & _ & _ & -> & _).
    reflexivity.
  - unfold put_ticket_refund. run_handler; one_tac H.
  - unfold put_ticket_organizer_refund. run_handler; one_tac H.
  - unfold delete_ticket. run_handler; one_tac H.
  - unfold put_ticket_type_recount. run_handler; one_tac H.
  - unfold post_sync_all. run_handler; one_tac H.
Qed.

(** X1. Every request keeps the integrity of the store: at most one waitlist
    entry per (user, event), and ticket ids, transaction ids and the
    transaction a ticket refers to all below the next sequence values.  So
    does every history of requests. *)
Theorem requests_keep_store_integrity :
  forall rs s, store_integrity s -> store_integrity (serve_all rs s).
Proof.
  induction rs as [|r rs IH]; intros s H; [exact H|].
  cbn [serve_all]. apply IH. destruct H as [H1 H2]. split.
  - apply serve_keeps_one_entry, H1.
  - apply serve_keeps_ids, H2.
Qed.

Lemma requests_keep_store_integrity_witness :
  store_integrity
    (serve_all [PurchaseTickets 1 1 1 1 None 1000; JoinWaitlist 2 1 2000;
                OrganizerRefund 9 1 3000; Sweep 1900000] venue).
Proof.
  apply requests_keep_store_integrity. split.
  - unfold one_entry_per_user_event. cbn. constructor.
  - split; intros ? [].
Defined.

(** ** Declining an offer *)

Lemma pending_offer_in transaction_id s x :
  pending_offer transaction_id s = Some x ->
  In x (transactions s) /\ x_id x = transaction_id.
Proof.
  unfold pending_offer. intros H. apply find_some in H. destruct H as [Hin H].
  apply andb_true_iff in H. destruct H as [H _].
  apply andb_true_iff in H. destruct H as [H _].
  apply Z.eqb_eq in H. split; assumption.
Qed.

Lemma post_decline_ticket_run transaction_id now s transaction ticket :
  valid_id transaction_id = true ->
  pending_offer transaction_id s = Some transaction ->
  reserved_ticket_of transaction_id s = Some ticket ->
  post_decline_ticket transaction_id now s =
  let s1 := delete_waitlist_of (x_user_id transaction) (t_event_id ticket)
              (delete_ticket_row (t_id ticket)
                 (update_transaction_status transaction_id Cancelled s)) in
  let r := assignTicketToWaitlist (t_event_id ticket) (t_ticket_type_id ticket) now s1 in
  mkOutcome (Declined (assigned (fst r))) (snd r)
            [(t_event_id ticket, t_ticket_type_id ticket)].
Proof.
  intros Hid Htx Ht. unfold post_decline_ticket. rewrite Hid. cbn [negb].
  rewrite bind_query, Htx. cbv beta iota.
  rewrite bind_query, Ht. cbv beta iota.
  run_op. reflexivity.
Qed.

(** X2. Declining a pending waitlist offer marks its transaction cancelled
    (the same row with status [cancelled]; so is every transaction with that
    id drawn from the sequence), deletes the reserved ticket and every
    waitlist entry of the decliner for the event, leaves the counters alone
    and calls the offer engine once for the ticket's event and type.  Either
    nobody is promoted, or the earliest unclaimed entry of the event is: it
    belongs to another user than the decliner, no unclaimed entry of the
    event of another user joined before it, and it gets the offer stamps
    (offered now, expiring 30 minutes later), a pending waitlist transaction
    at the type's price and a reserved ticket.  The decliner is left without
    an entry for the event. *)
Theorem decline_cascades_past_the_decliner :
  forall transaction_id now s transaction ticket,
    valid_id transaction_id = true ->
    pending_offer transaction_id s = Some transaction ->
    reserved_ticket_of transaction_id s = Some ticket ->
    let o := post_decline_ticket transaction_id now s in
    let kept_tickets := delete_where (fun t => t_id t =? t_id ticket) (tickets s) in
    let marked := update_where (fun x => x_id x =? transaction_id)
                               (set_tx_status Cancelled) (transactions s) in
    engine_calls o = [(t_event_id ticket, t_ticket_type_id ticket)] /\
    In (mkTransaction transaction_id (x_user_id transaction)
                      (x_total_price transaction) Cancelled
                      (x_payment_method transaction))
       (transactions (store o)) /\
    (forall x, In x (transactions (store o)) -> x_id x = transaction_id ->
               x_id x < next_transaction_id s -> x_status x = Cancelled) /\
    (forall t, In t (tickets (store o)) -> t_id t < next_ticket_id s ->
               t_id t <> t_id ticket) /\
    (forall w, In w (waitlist (store o)) ->
       ~ (w_user_id w = x_user_id transaction /\ w_event_id w = t_event_id ticket)) /\
    events (store o) = events s /\ ticket_types (store o) = ticket_types s /\
    ((value o = Declined false /\
      tickets (store o) = kept_tickets /\ transactions (store o) = marked)
     \/
     (exists w,
        In w (waitlist s) /\ w_event_id w = t_event_id ticket /\
        w_offered_at w = None /\ w_user_id w <> x_user_id transaction /\
        (forall w', In w' (waitlist s) -> w_event_id w' = t_event_id ticket ->
                    w_offered_at w' = None ->
                    w_user_id w' <> x_user_id transaction ->
                    w_joined_at w <= w_joined_at w') /\
        value o = Declined true /\
        tickets (store o) =
          kept_tickets ++ [mkTicket (next_ticket_id s) (next_transaction_id s)
                             (t_ticket_type_id ticket) (t_event_id ticket)
                             (w_user_id w) Reserved now] /\
        transactions (store o) =
          marked ++ [mkTransaction (next_transaction_id s) (w_user_id w)
                       (price_or_zero (t_ticket_type_id ticket) s) Pending "waitlist"] /\
        In (mkWaitlist (w_id w) (w_user_id w) (w_event_id w) (w_joined_at w)
                       (Some now) (Some (now + 1800000)))
           (waitlist (store o)))).
Proof.
  intros transaction_id now s transaction ticket Hid Htx Ht o kept_tickets marked.
  subst o. rewrite (post_decline_ticket_run _ now _ _ _ Hid Htx Ht). cbv zeta.
  set (s1 := delete_waitlist_of (x_user_id transaction) (t_event_id ticket)
               (delete_ticket_row (t_id ticket)
                  (update_transaction_status transaction_id Cancelled s))).
  cbn [value store engine_calls].
  assert (Hgone : forall w, In w (waitlist s1) ->
            ~ (w_user_id w = x_user_id transaction /\ w_event_id w = t_event_id ticket)).
  { intros w Hw [Hu He]. unfold s1, delete_waitlist_of, with_waitlist in Hw.
    cbn [waitlist] in Hw. apply in_delete_where in Hw. destruct Hw as [_ Hw].
    rewrite Hu, He, !Z.eqb_refl in Hw. discriminate. }
  assert (Hsub : forall w, In w (waitlist s1) -> In w (waitlist s)).
  { intros w Hw. unfold s1, delete_waitlist_of, with_waitlist in Hw.
    cbn [waitlist] in Hw. apply in_delete_where in Hw. tauto. }
  assert (Hstay : forall w, In w (waitlist s) ->
            ~ (w_user_id w = x_user_id transaction /\ w_event_id w = t_event_id ticket) ->
            In w (waitlist s1)).
  { intros w Hw Hne. unfold s1, delete_waitlist_of, with_waitlist.
    cbn [waitlist]. apply in_delete_where. split; [exact Hw|].
    apply andb_false_iff. rewrite !Z.eqb_neq.
    destruct (Z.eq_dec (w_user_id w) (x_user_id transaction)); [right | left]; tauto. }
  pose proof (assign_tickets (t_event_id ticket) (t_ticket_type_id ticket) now s1) as Et.
  pose proof (assign_transactions (t_event_id ticket) (t_ticket_type_id ticket) now s1) as Ex.
  pose proof (assign_waitlist (t_event_id ticket) (t_ticket_type_id ticket) now s1) as Ew.
  destruct (pending_offer_in _ _ _ Htx) as [Hin Hxid].
  split; [reflexivity|]. split; [|split; [|split; [|split; [|split; [|split]]]]].
  - rewrite Ex. apply in_or_app. left.
    pose proof (in_update_where (fun x => x_id x =? transaction_id)
                  (set_tx_status Cancelled) _ _ Hin) as H.
    cbv beta in H. rewrite Hxid, Z.eqb_refl in H.
    unfold set_tx_status in H. rewrite Hxid in H. exact H.
  - intros x Hx Exid Hlt. rewrite Ex in Hx. apply in_app_or in Hx.
    destruct Hx as [Hx|Hx].
    + cbn [s1 delete_waitlist_of with_waitlist delete_ticket_row with_tickets
           update_transaction_status with_transactions transactions] in Hx.
      apply in_update_where_inv in Hx. destruct Hx as (x0 & _ & ->). cbv beta in *.
      destruct (x_id x0 =? transaction_id) eqn:C; [reflexivity|].
      apply Z.eqb_neq in C. contradiction.
    + destruct (next_unclaimed _ _); [|destruct Hx].
      destruct Hx as [<-|[]]. cbn in Hlt. lia.
  - intros t Hin' Hlt. rewrite Et in Hin'. apply in_app_or in Hin'.
    destruct Hin' as [Hin'|Hin'].
    + cbn [s1 delete_waitlist_of with_waitlist delete_ticket_row with_tickets
           tickets] in Hin'.
      apply in_delete_where in Hin'. destruct Hin' as [_ C].
      apply Z.eqb_neq in C. exact C.
    + destruct (next_unclaimed _ _); [|destruct Hin'].
      destruct Hin' as [<-|[]]. cbn in Hlt. lia.
  - intros w Hw. rewrite Ew in Hw.
    destruct (next_unclaimed (t_event_id ticket) s1) as [w0|]; [|apply Hgone; exact Hw].
    apply in_update_where_inv in Hw. destruct Hw as (w1 & Hw1 & ->).
    specialize (Hgone w1 Hw1). cbv beta. destruct (w_id w1 =? w_id w0); exact Hgone.
  - rewrite assign_events. reflexivity.
  - rewrite assign_ticket_types. reflexivity.
  - destruct (next_unclaimed (t_event_id ticket) s1) as [w|] eqn:Hnext.
    + right. exists w.
      destruct (next_unclaimed_some _ _ _ Hnext) as (Hw & He & Ho & Hleast).
      split; [apply Hsub; exact Hw|]. split; [exact He|]. split; [exact Ho|].
      split; [intros Hu; apply (Hgone w Hw); split; assumption|].
      split.
      { intros w' Hw' He' Ho' Hu'. apply Hleast; [|exact He' | exact Ho'].
        apply Hstay; [exact Hw'|]. intros [Hu'' _]. contradiction. }
      unfold assignTicketToWaitlist. rewrite Hnext. cbn [fst snd assigned].
      split; [reflexivity|]. split; [reflexivity|]. split; [reflexivity|].
      cbn [insert_ticket insert_transaction with_waitlist waitlist].
      pose proof (in_update_where (fun w' => w_id w' =? w_id w)
                    (set_offer now (now + RESERVATION_WINDOW)) _ _ Hw) as H.
      cbv beta in H. rewrite Z.eqb_refl in H. exact H.
    + left. unfold assignTicketToWaitlist. rewrite Hnext. cbn [fst snd assigned].
      repeat split.
Qed.

Lemma decline_cascades_past_the_decliner_witness :
  engine_calls (post_decline_ticket 2 5000 returned) = [(1, 1)] /\
  events (store (post_decline_ticket 2 5000 returned)) = events returned /\
  In (mkTransaction 2 2 50%float Cancelled "waitlist")
     (transactions (store (post_decline_ticket 2 5000 returned))) /\
  In (mkWaitlist 2 3 1 3000 (Some 5000) (Some 1805000))
     (waitlist (store (post_decline_ticket 2 5000 returned))).
Proof.
  pose proof (decline_cascades_past_the_decliner 2 5000 returned
                (mkTransaction 2 2 50%float Pending "waitlist")
                (mkTicket 2 2 1 1 2 Reserved 4000)
                ltac:(vm_compute; reflexivity) ltac:(vm_compute; reflexivity)
                ltac:(vm_compute; reflexivity)) as H.
  cbv zeta in H. destruct H as (Hcalls & Hrow & _ & _ & _ & Hev & _ & Hcase).
  split; [exact Hcalls|]. split; [exact Hev|]. split; [exact Hrow|].
  destruct Hcase as [(Hv & _)|(w & Hw & _ & _ & Hother & _ & _ & _ & _ & Hoffer)].
  - vm_compute in Hv. discriminate Hv.
  - vm_compute in Hw. destruct Hw as [<-|[<-|[]]].
    + exfalso. apply Hother. reflexivity.
    + exact Hoffer.
Defined.

(** ** What a sweep pass does *)

Lemma cleanup_one_calls now r s :
  engine_calls (cleanup_one now r s) = [(r_event_id r, r_ticket_type_id r)].
Proof.
  unfold cleanup_one. run_op.
  destruct (r_waitlist_id r); run_op; reflexivity.
Qed.

Lemma for_each_calls now rows s :
  engine_calls (for_each (cleanup_one now) rows s) =
  map (fun r => (r_event_id r, r_ticket_type_id r)) rows.
Proof.
  revert s. induction rows as [|r rows IH]; intros s; [reflexivity|].
  cbn [for_each map]. unfold bind at 1. cbn [engine_calls].
  rewrite cleanup_one_calls, IH. reflexivity.
Qed.

Lemma row_issued_assign r e ty now s :
  row_issued r s -> row_issued r (snd (assignTicketToWaitlist e ty now s)).
Proof.
  intros [H1 H2]. destruct (assign_sequences e ty now s) as (Hx & Ht & _).
  split; lia.
Qed.

Lemma row_issued_cleanup_writes r r' s :
  row_issued r s -> row_issued r (cleanup_writes r' s).
Proof.
  intros [H1 H2]. destruct (cleanup_writes_sequences r' s) as [Hx Ht].
  split; [rewrite Ht | rewrite Hx]; assumption.
Qed.

Lemma row_cleared_assign r e ty now s :
  row_issued r s -> row_cleared r s ->
  row_cleared r (snd (assignTicketToWaitlist e ty now s)).
Proof.
  intros [Hi1 Hi2] (Ht & Hx & Hw).
  pose proof (assign_tickets e ty now s) as Et.
  pose proof (assign_transactions e ty now s) as Ex.
  pose proof (assign_waitlist e ty now s) as Ew.
  split; [|split].
  - intros t Hin. rewrite Et in Hin. apply in_app_or in Hin.
    destruct Hin as [Hin|Hin]; [apply Ht; exact Hin|].
    destruct (next_unclaimed e s); [|destruct Hin].
    destruct Hin as [<-|[]]. cbn [offered_ticket t_id]. lia.
  - intros x Hin E. rewrite Ex in Hin. apply in_app_or in Hin.
    destruct Hin as [Hin|Hin]; [apply Hx; assumption|].
    destruct (next_unclaimed e s); [|destruct Hin].
    destruct Hin as [<-|[]]. cbn [offered_transaction x_id] in E. lia.
  - intros w Hin. rewrite Ew in Hin.
    destruct (next_unclaimed e s) as [w0|]; [|apply Hw; exact Hin].
    apply in_update_where_inv in Hin. destruct Hin as (w1 & Hw1 & ->).
    specialize (Hw w1 Hw1). cbv beta. destruct (w_id w1 =? w_id w0); exact Hw.
Qed.

Lemma row_cleared_cleanup_writes r r' s :
  row_cleared r s -> row_cleared r (cleanup_writes r' s).
Proof.
  intros (Ht & Hx & Hw). split; [|split].
  - intros t Hin. apply cleanup_writes_tickets in Hin. apply Ht. tauto.
  - intros x Hin E. rewrite cleanup_writes_transactions in Hin.
    apply in_update_where_inv in Hin. destruct Hin as (x0 & Hx0 & ->).
    cbv beta in E |- *.
    destruct (x_id x0 =? r_transaction_id r'); [reflexivity | apply Hx; assumption].
  - intros w Hin. apply Hw. apply (cleanup_writes_waitlist r' s w Hin).
Qed.

Lemma cleanup_writes_clears r s : row_cleared r (cleanup_writes r s).
Proof.
  split; [|split].
  - intros t Hin. apply cleanup_writes_tickets in Hin. tauto.
  - intros x Hin E. rewrite cleanup_writes_transactions in Hin.
    apply in_update_where_inv in Hin. destruct Hin as (x0 & Hx0 & ->).
    cbv beta in E |- *.
    destruct (x_id x0 =? r_transaction_id r) eqn:C; [reflexivity|].
    apply Z.eqb_neq in C. contradiction.
  - intros w Hin E. unfold cleanup_writes in Hin. cbv zeta in Hin.
    destruct (r_waitlist_id r) as [wid|]; [|discriminate].
    inversion E; subst wid.
    unfold delete_waitlist_row, with_waitlist in Hin. cbn [waitlist] in Hin.
    apply in_delete_where in Hin. destruct Hin as [_ Hin].
    rewrite Z.eqb_refl in Hin. discriminate.
Qed.

Lemma sweep_rows_clears now r rows s :
  row_issued r s -> In r rows \/ row_cleared r s ->
  row_cleared r (sweep_rows now rows s).
Proof.
  revert s. induction rows as [|r' rows IH]; intros s Hi H.
  - destruct H as [[]|H]. exact H.
  - cbn [sweep_rows]. rewrite cleanup_one_store. apply IH.
    + apply row_issued_assign, row_issued_cleanup_writes, Hi.
    + destruct H as [[->|Hin]|Hc].
      * right. apply row_cleared_assign;
          [apply row_issued_cleanup_writes, Hi | apply cleanup_writes_clears].
      * left. exact Hin.
      * right. apply row_cleared_assign;
          [apply row_issued_cleanup_writes, Hi | apply row_cleared_cleanup_writes, Hc].
Qed.

(** X3. A sweep pass reports the number of reservations it selected and
    calls the offer engine once per selected row, in order, for the row's
    event and ticket type.  In a store whose ids were drawn from the
    sequences, once the pass is over every selected reservation is gone: no
    ticket has its ticket id, every transaction with its transaction id is
    expired and the waitlist entry it was matched with is deleted. *)
Theorem sweep_clears_what_it_selects :
  forall now s,
    ids_in_sequence s ->
    let o := cleanupExpiredReservations now s in
    let rows := expired_reservations now s in
    value o = Z.of_nat (List.length rows) /\
    engine_calls o = map (fun r => (r_event_id r, r_ticket_type_id r)) rows /\
    forall r, In r rows -> row_cleared r (store o).
Proof.
  intros now s [Hseq _] o rows. subst o rows.
  split; [apply cleanup_value|]. split.
  - unfold cleanupExpiredReservations. rewrite bind_query.
    destruct (expired_reservations now s) as [|r rows] eqn:E; [reflexivity|].
    unfold bind. cbn [engine_calls ret]. rewrite for_each_calls, app_nil_r. reflexivity.
  - intros r Hr. rewrite cleanup_store.
    apply sweep_rows_clears; [|left; exact Hr].
    destruct (expired_reservations_sound now s r Hr)
      as (t & x & w & e & Ht & _ & _ & _ & _ & _ & _ & _ & _ & _ & ->).
    destruct (Hseq t Ht). split; assumption.
Qed.

Lemma sweep_clears_what_it_selects_witness :
  value (cleanupExpiredReservations 1805000 returned) = 1 /\
  engine_calls (cleanupExpiredReservations 1805000 returned) = [(1, 1)] /\
  row_cleared (mkExpiredRow 2 1 1 2 2 (Some 1))
              (store (cleanupExpiredReservations 1805000 returned)).
Proof.
  pose proof (sweep_clears_what_it_selects 1805000 returned returned_ids_in_sequence)
    as H.
  cbv zeta in H. destruct H as (H1 & H2 & H3).
  split; [exact H1|]. split; [exact H2|].
  apply H3. vm_compute. left. reflexivity.
Defined.

(** ** The offer engine walks the queue in join order *)

(** X4. When the offer engine promotes an entry [w1] of an event and is
    called again for that event, the entry it promotes next, [w2], is another
    entry than [w1] (a different id): it was already in the queue before the
    first call, unclaimed, and joined no earlier than [w1].  The first call
    leaves [w1] stamped with the offer time and an expiry 30 minutes
    later. *)
Theorem promotions_follow_the_queue :
  forall event_id type1 type2 now1 now2 s w1 w2,
    next_unclaimed event_id s = Some w1 ->
    let s1 := snd (assignTicketToWaitlist event_id type1 now1 s) in
    next_unclaimed event_id s1 = Some w2 ->
    In (set_offer now1 (now1 + 1800000) w1) (waitlist s1) /\
    w_id w2 <> w_id w1 /\
    In w2 (waitlist s) /\ w_offered_at w2 = None /\
    w_joined_at w1 <= w_joined_at w2 /\
    fst (assignTicketToWaitlist event_id type2 now2 s1)
      = Assigned (w_user_id w2) (next_transaction_id s + 1).
Proof.
  intros event_id type1 type2 now1 now2 s w1 w2 H1 s1 H2.
  destruct (next_unclaimed_some _ _ _ H1) as (Hw1 & He1 & Ho1 & Hleast).
  destruct (next_unclaimed_some _ _ _ H2) as (Hw2 & He2 & Ho2 & _).
  assert (Ew : waitlist s1 = update_where (fun w' => w_id w' =? w_id w1)
                               (set_offer now1 (now1 + RESERVATION_WINDOW)) (waitlist s)).
  { unfold s1. rewrite assign_waitlist, H1. reflexivity. }
  assert (En : next_transaction_id s1 = next_transaction_id s + 1).
  { unfold s1, assignTicketToWaitlist. rewrite H1. reflexivity. }
  rewrite Ew in Hw2. apply in_update_where_inv in Hw2.
  destruct Hw2 as (w0 & Hw0 & E0). cbv beta in E0.
  destruct (w_id w0 =? w_id w1) eqn:C.
  { subst w2. discriminate Ho2. }
  subst w2. apply Z.eqb_neq in C.
  split.
  - rewrite Ew.
    pose proof (in_update_where (fun w' => w_id w' =? w_id w1)
                  (set_offer now1 (now1 + RESERVATION_WINDOW)) _ _ Hw1) as H.
    cbv beta in H. rewrite Z.eqb_refl in H. exact H.
  - split; [exact C|]. split; [exact Hw0|]. split; [exact Ho2|].
    split; [apply Hleast; assumption|].
    unfold assignTicketToWaitlist. rewrite H2. cbn [fst].
    cbn [with_waitlist next_transaction_id]. rewrite En. reflexivity.
Qed.

Lemma promotions_follow_the_queue_witness :
  fst (assignTicketToWaitlist 1 1 6000 (snd (assignTicketToWaitlist 1 1 5000 queued)))
    = Assigned 3 3.
Proof.
  apply (promotions_follow_the_queue 1 1 1 5000 6000 queued
           (mkWaitlist 1 2 1 2000 None None) (mkWaitlist 2 3 1 3000 None None)
           ltac:(vm_compute; reflexivity) ltac:(vm_compute; reflexivity)).
Defined.

(** ** Purchase *)

Lemma insert_active_tickets_rows n tid ty e u now s :
  tickets (insert_active_tickets n tid ty e u now s) =
  tickets s ++ map (fun i => mkTicket (next_ticket_id s + Z.of_nat i) tid ty e u
                                      Active now)
                   (seq 0 n).
Proof.
  revert s. induction n as [|n IH]; intros s; cbn [insert_active_tickets].
  - cbn [seq map]. symmetry. apply app_nil_r.
  - rewrite IH. cbn [insert_ticket tickets next_ticket_id].
    rewrite <- app_assoc. f_equal. cbn [seq map app].
    rewrite Z.add_0_r. f_equal.
    rewrite <- seq_shift, map_map. apply map_ext.
    intros i. f_equal. lia.
Qed.

(** X5. A purchase that goes through never oversells: the quantity lies in
    1..10 and fits the type's remaining capacity, so the type's sold counter
    moves from [sold] to [sold + quantity <= total].  It appends one
    completed transaction priced [price * quantity] and exactly [quantity]
    active tickets with consecutive fresh ids, and touches neither the
    waitlist nor the offer engine.  A purchase that is refused writes
    nothing. *)
Theorem purchase_never_oversells :
  forall user_id event_id ticket_type_id quantity payment_method now s,
    let o := post_tickets user_id event_id ticket_type_id quantity payment_method now s in
    ((forall tx total q, value o <> Purchased tx total q) -> store o = s) /\
    engine_calls o = [] /\
    forall tx total q,
      value o = Purchased tx total q ->
      exists ty,
        find_ticket_type ticket_type_id s = Some ty /\
        q = quantity /\ 1 <= quantity <= 10 /\
        tt_tickets_sold ty + quantity <= tt_total_tickets ty /\
        tx = next_transaction_id s /\
        total = (tt_price ty * PrimFloat.of_uint63 (Uint63.of_Z quantity))%float /\
        transactions (store o) =
          transactions s ++ [mkTransaction tx user_id total Completed
                                           (method_or_card payment_method)] /\
        tickets (store o) =
          tickets s ++ map (fun i => mkTicket (next_ticket_id s + Z.of_nat i) tx
                                       ticket_type_id event_id user_id Active now)
                           (seq 0 (Z.to_nat quantity)) /\
        find_ticket_type ticket_type_id (store o) =
          Some (set_tt_sold (tt_tickets_sold ty + quantity) ty) /\
        waitlist (store o) = waitlist s.
Proof.
  intros user_id event_id ticket_type_id quantity payment_method now s o.
  subst o. unfold post_tickets.
  destruct (valid_id event_id); cbn [negb];
    [|split; [reflexivity|split; [reflexivity|discriminate]]].
  destruct (valid_id ticket_type_id); cbn [negb];
    [|split; [reflexivity|split; [reflexivity|discriminate]]].
  destruct ((1 <=? quantity) && (quantity <=? 10)) eqn:Hq; cbn [negb];
    [|split; [reflexivity|split; [reflexivity|discriminate]]].
  rewrite !bind_query. cbv beta.
  destruct (existsb (Z.eqb user_id) (users s)); cbn [negb];
    [|split; [reflexivity|split; [reflexivity|discriminate]]].
  destruct (find_event event_id s) as [ev|];
    [|split; [reflexivity|split; [reflexivity|discriminate]]].
  destruct (event_end_time ev <? now);
    [split; [reflexivity|split; [reflexivity|discriminate]]|].
  destruct (find_ticket_type ticket_type_id s) as [ty|] eqn:Hty;
    [|split; [reflexivity|split; [reflexivity|discriminate]]].
  cbv zeta.
  destruct (tt_total_tickets ty - tt_tickets_sold ty <? quantity) eqn:Hav;
    [split; [reflexivity|split; [reflexivity|discriminate]]|].
  run_op. unfold ret. cbn [value store engine_calls].
  split; [intros H; exfalso; eapply H; reflexivity|].
  split; [reflexivity|].
  intros tx total q E. inversion E; subst tx total q. clear E.
  apply andb_true_iff in Hq. destruct Hq as [Hq1 Hq2].
  apply Z.leb_le in Hq1. apply Z.leb_le in Hq2. apply Z.ltb_ge in Hav.
  exists ty. split; [reflexivity|]. split; [reflexivity|]. split; [lia|].
  split; [lia|]. split; [reflexivity|]. split; [reflexivity|].
  set (s1 := insert_transaction user_id
               (tt_price ty * PrimFloat.of_uint63 (Uint63.of_Z quantity))%float
               Completed (method_or_card payment_method) s).
  destruct (insert_active_tickets_frame (Z.to_nat quantity) (next_transaction_id s)
              ticket_type_id event_id user_id now s1)
    as (_ & _ & Ett & Ex & Ew & _).
  cbv zeta in Ett, Ex, Ew.
  split; [|split; [|split]].
  - cbn [sync_event add_tickets_sold with_events with_ticket_types transactions].
    rewrite Ex. reflexivity.
  - cbn [sync_event add_tickets_sold with_events with_ticket_types tickets].
    rewrite insert_active_tickets_rows. reflexivity.
  - unfold find_ticket_type.
    cbn [sync_event add_tickets_sold with_events with_ticket_types ticket_types].
    rewrite Ett. cbn [s1 insert_transaction ticket_types].
    rewrite find_update_where by reflexivity.
    unfold find_ticket_type in Hty. rewrite Hty. reflexivity.
  - cbn [sync_event add_tickets_sold with_events with_ticket_types waitlist].
    rewrite Ew. reflexivity.
Qed.

Lemma purchase_never_oversells_witness :
  exists ty,
    find_ticket_type 1 hall = Some ty /\
    tt_tickets_sold ty + 2 <= tt_total_tickets ty /\
    store (post_tickets 1 1 1 3 None 1000 hall) = hall.
Proof.
  destruct (purchase_never_oversells 1 1 1 2 None 1000 hall) as (_ & _ & H).
  destruct (H 1 40%float 2 ltac:(vm_compute; reflexivity))
    as (ty & Hty & _ & _ & Hcap & _).
  exists ty. split; [exact Hty|]. split; [exact Hcap|].
  apply (purchase_never_oversells 1 1 1 3 None 1000 hall).
  intros tx total q. vm_compute. discriminate.
Defined.

(** ** Joining and leaving the waitlist *)

Lemma filter_length_le {A} (p : A -> bool) (l : list A) :
  (List.length (filter p l) <= List.length l)%nat.
Proof.
  induction l as [|a l IH]; simpl; [lia|]. destruct (p a); simpl; lia.
Qed.

Lemma filter_and_length_le {A} (p q : A -> bool) (l : list A) :
  (List.length (filter (fun a => p a && q a) l) <= List.length (filter p l))%nat.
Proof.
  induction l as [|a l IH]; simpl; [lia|].
  destruct (p a), (q a); simpl; lia.
Qed.

Lemma filter_and_all {A} (p q : A -> bool) (l : list A) :
  (forall a, In a l -> q a = true) ->
  filter (fun a => p a && q a) l = filter p l.
Proof.
  intros H. apply filter_ext_in. intros a Ha. rewrite (H a Ha). apply andb_true_r.
Qed.

Lemma delete_where_none {A} (p : A -> bool) (l : list A) :
  filter p l = [] -> delete_where p l = l.
Proof.
  unfold delete_where. induction l as [|a l IH]; simpl; [reflexivity|].
  destruct (p a); simpl; [discriminate|]. intros H. f_equal. exact (IH H).
Qed.

(** The only way [POST /waitlist] answers with a queue position. *)
Lemma post_waitlist_joined user_id event_id now s entry position :
  value (post_waitlist user_id event_id now s) = JoinJoined entry position ->
  valid_id user_id = true /\ valid_id event_id = true /\
  existsb (Z.eqb user_id) (users s) = true /\
  (exists ev, find_event event_id s = Some ev /\
              now <= event_end_time ev /\
              e_total_tickets ev <= e_tickets_sold ev) /\
  filter (fun w => (w_user_id w =? user_id) && (w_event_id w =? event_id))
         (waitlist s) = [] /\
  oldest_pending_return event_id s = None /\
  entry = mkWaitlist (next_waitlist_id s) user_id event_id now None None /\
  store (post_waitlist user_id event_id now s) = insert_waitlist user_id event_id now s /\
  position = position_of_new_entry event_id now (insert_waitlist user_id event_id now s).
Proof.
  unfold post_waitlist.
  destruct (valid_id user_id); cbn [negb]; [|discriminate].
  destruct (valid_id event_id); cbn [negb]; [|discriminate].
  rewrite !bind_query. cbv beta.
  destruct (existsb (Z.eqb user_id) (users s)); cbn [negb]; [|discriminate].
  destruct (find_event event_id s) as [ev|]; [|discriminate].
  destruct (event_end_time ev <? now) eqn:Hend; [discriminate|].
  destruct (e_tickets_sold ev <? e_total_tickets ev) eqn:Hso; [discriminate|].
  rewrite bind_query. cbv beta.
  destruct (filter _ (waitlist s)) as [|w ws] eqn:Eex; [|discriminate].
  rewrite bind_query. cbv beta.
  destruct (oldest_pending_return event_id s) as [pendingTicket|].
  - run_op. discriminate.
  - run_op. unfold ret. cbn [value store]. intros H. inversion H; subst.
    apply Z.ltb_ge in Hend. apply Z.ltb_ge in Hso.
    repeat split. exists ev. repeat split; assumption.
Qed.

(** X6. [POST /waitlist] writes only when it answers with an offer or with a
    queue position, and never calls the offer engine.  When it answers with
    a position, the event is sold out and not over, the user had no entry
    for it and no [pending_return] ticket of the event exists; the new entry
    is unclaimed and appended to the queue, tickets, transactions and
    counters are untouched, and the position lies between 1 and the length
    of the event's queue; it is the last position when no entry of the queue
    joined later than now. *)
Theorem join_appends_to_the_queue :
  forall user_id event_id now s,
    let o := post_waitlist user_id event_id now s in
    let queue s' := filter (fun w => w_event_id w =? event_id) (waitlist s') in
    ((forall tx, value o <> JoinOffered tx) ->
     (forall entry position, value o <> JoinJoined entry position) ->
     store o = s) /\
    engine_calls o = [] /\
    forall entry position,
      value o = JoinJoined entry position ->
      entry = mkWaitlist (next_waitlist_id s) user_id event_id now None None /\
      waitlist (store o) = waitlist s ++ [entry] /\
      tickets (store o) = tickets s /\ transactions (store o) = transactions s /\
      events (store o) = events s /\ ticket_types (store o) = ticket_types s /\
      waitlist_entry_of user_id event_id s = None /\
      oldest_pending_return event_id s = None /\
      (exists ev, find_event event_id s = Some ev /\
                  now <= event_end_time ev /\
                  e_total_tickets ev <= e_tickets_sold ev) /\
      1 <= position <= Z.of_nat (List.length (queue (store o))) /\
      ((forall w, In w (waitlist s) -> w_joined_at w <= now) ->
       position = Z.of_nat (List.length (queue (store o)))).
Proof.
  intros user_id event_id now s o queue.
  split; [|split].
  - assert (H : store o = s \/ (exists tx, value o = JoinOffered tx) \/
                (exists entry position, value o = JoinJoined entry position)).
    { subst o. unfold post_waitlist.
      run_handler;
        first [ left; reflexivity
              | right; left; eexists; reflexivity
              | right; right; do 2 eexists; reflexivity ]. }
    intros Hno Hnj. destruct H as [H|[(tx & H)|(entry & position & H)]].
    + exact H.
    + destruct (Hno tx H).
    + destruct (Hnj entry position H).
  - subst o. unfold post_waitlist. run_handler; reflexivity.
  - intros entry position Hj.
    destruct (post_waitlist_joined _ _ _ _ _ _ Hj)
      as (_ & _ & _ & Hev & Hnone & Hpr & -> & Es & ->).
    subst o. rewrite Es. cbn [insert_waitlist waitlist tickets transactions events
      ticket_types].
    do 6 (split; [reflexivity|]).
    split.
    { unfold waitlist_entry_of. rewrite find_hd_filter, Hnone. reflexivity. }
    split; [exact Hpr|]. split; [exact Hev|].
    unfold position_of_new_entry, queue. cbn [insert_waitlist waitlist].
    split.
    + split.
      * rewrite filter_app, length_app. cbn [filter w_event_id w_joined_at].
        rewrite Z.eqb_refl, Z.leb_refl. cbn [andb List.length]. lia.
      * apply inj_le. apply filter_and_length_le.
    + intros Hpast. f_equal. f_equal. apply filter_and_all.
      intros w Hw. apply in_app_or in Hw. apply Z.leb_le.
      destruct Hw as [Hw|[<-|[]]]; [apply Hpast; exact Hw | cbn; lia].
Qed.

Lemma join_appends_to_the_queue_witness :
  waitlist (store (post_waitlist 4 1 3500 queued)) =
    waitlist queued ++ [mkWaitlist 3 4 1 3500 None None] /\
  store (post_waitlist 2 1 3500 queued) = queued.
Proof.
  destruct (join_appends_to_the_queue 4 1 3500 queued) as (_ & _ & H).
  destruct (H (mkWaitlist 3 4 1 3500 None None) 3 ltac:(vm_compute; reflexivity))
    as (_ & Hw & _).
  split; [exact Hw|].
  apply (join_appends_to_the_queue 2 1 3500 queued).
  - intros tx. vm_compute. discriminate.
  - intros entry position. vm_compute. discriminate.
Defined.

(** X7. Joining and then leaving through
    [DELETE /waitlist/event/:event_id/user/:user_id] gives the queue back:
    the leave answers with the very entry the join created, the waitlist is
    the one before the join, and tickets, transactions and counters were
    never touched. *)
Theorem join_then_leave_restores_the_queue :
  forall user_id event_id now s entry position,
    value (post_waitlist user_id event_id now s) = JoinJoined entry position ->
    let joined := store (post_waitlist user_id event_id now s) in
    let o := delete_waitlist_event_user event_id user_id joined in
    value o = LeaveDeleted entry /\
    waitlist (store o) = waitlist s /\
    tickets (store o) = tickets s /\ transactions (store o) = transactions s /\
    events (store o) = events s /\ ticket_types (store o) = ticket_types s /\
    next_waitlist_id (store o) = next_waitlist_id s + 1.
Proof.
  intros user_id event_id now s entry position Hj joined o.
  destruct (post_waitlist_joined _ _ _ _ _ _ Hj)
    as (Hu & He & _ & _ & Hnone & _ & -> & Es & _).
  subst o joined. rewrite Es. unfold delete_waitlist_event_user.
  rewrite He, Hu. cbn [negb]. run_op.
  cbn [insert_waitlist waitlist]. rewrite filter_app, Hnone.
  cbn [filter w_user_id w_event_id app]. rewrite !Z.eqb_refl. cbn [andb].
  unfold ret. cbn [value store].
  split; [reflexivity|]. split; [|repeat split].
  cbn [delete_waitlist_of with_waitlist waitlist insert_waitlist].
  unfold delete_where. rewrite filter_app.
  fold (delete_where (fun w => (w_user_id w =? user_id) && (w_event_id w =? event_id))
                     (waitlist s)).
  rewrite (delete_where_none _ _ Hnone).
  cbn [filter w_user_id w_event_id]. rewrite !Z.eqb_refl. cbn [andb negb].
  apply app_nil_r.
Qed.

Lemma join_then_leave_restores_the_queue_witness :
  waitlist (store (delete_waitlist_event_user 1 4
                     (store (post_waitlist 4 1 3500 queued)))) = waitlist queued.
Proof.
  apply (join_then_leave_restores_the_queue 4 1 3500 queued
           (mkWaitlist 3 4 1 3500 None None) 3 ltac:(vm_compute; reflexivity)).
Defined.

(** ** Who writes the counters *)

Lemma cleanup_writes_counters r s :
  events (cleanup_writes r s) = events s /\
  ticket_types (cleanup_writes r s) = ticket_types s.
Proof. unfold cleanup_writes. destruct (r_waitlist_id r); split; reflexivity. Qed.

Lemma sweep_rows_counters now rows s :
  events (sweep_rows now rows s) = events s /\
  ticket_types (sweep_rows now rows s) = ticket_types s.
Proof.
  revert s. induction rows as [|r rows IH]; intros s; [split; reflexivity|].
  cbn [sweep_rows]. destruct (IH (store (cleanup_one now r s))) as [-> ->].
  rewrite cleanup_one_store, assign_events, assign_ticket_types.
  apply cleanup_writes_counters.
Qed.

Ltac counters_tac :=
  repeat first
    [ split
    | reflexivity
    | rewrite assign_events
    | rewrite assign_ticket_types ].

(** X8. Joining, leaving, accepting, declining, the sweep, a self-service
    return and the deletion of a ticket never write a ticket type or an
    event: all counters are exactly as before, whatever the request answers,
    so these requests keep the aggregate invariant. *)
Theorem waitlist_side_leaves_counters :
  forall r s,
    writes_counters r = false ->
    events (serve r s) = events s /\
    ticket_types (serve r s) = ticket_types s /\
    (aggregate_invariant s -> aggregate_invariant (serve r s)).
Proof.
  intros r s Hr.
  assert (H : events (serve r s) = events s /\ ticket_types (serve r s) = ticket_types s).
  { destruct r; try discriminate Hr; cbn [serve].
    - unfold post_waitlist. run_handler; counters_tac.
    - unfold delete_waitlist. run_handler; counters_tac.
    - unfold delete_waitlist_event_user. run_handler; counters_tac.
    - unfold post_accept_ticket. run_handler; counters_tac.
    - unfold post_decline_ticket. run_handler; counters_tac.
    - rewrite cleanup_store. apply sweep_rows_counters.
    - unfold put_ticket_refund. run_handler; counters_tac.
    - unfold delete_ticket. run_handler; counters_tac. }
  destruct H as [He Ht]. split; [exact He|]. split; [exact Ht|].
  unfold aggregate_invariant, event_in_sync. rewrite He, Ht. tauto.
Qed.

Lemma waitlist_side_leaves_counters_witness :
  events (serve (Sweep 1805000) returned) = events returned /\
  ticket_types (serve (AcceptTicket 2 5000) returned) = ticket_types returned.
Proof.
  split.
  - apply (waitlist_side_leaves_counters (Sweep 1805000) returned eq_refl).
  - apply (waitlist_side_leaves_counters (AcceptTicket 2 5000) returned eq_refl).
Defined.

(** ** The aggregate invariant under the counter-writing requests *)

Lemma sum_sold_update_other e p f l :
  (forall ty, tt_event_id (f ty) = tt_event_id ty) ->
  (forall ty, In ty l -> p ty = true -> tt_event_id ty <> e) ->
  sum_tickets_sold e (update_where p f l) = sum_tickets_sold e l.
Proof.
  intros Hf Hp. unfold sum_tickets_sold, update_where.
  induction l as [|ty l IH]; [reflexivity|].
  cbn [map filter].
  assert (IH' := IH (fun ty' Hin => Hp ty' (or_intror Hin))).
  destruct (p ty) eqn:C.
  - rewrite Hf. pose proof (Hp ty (or_introl eq_refl) C) as Hne.
    apply Z.eqb_neq in Hne. rewrite Hne. exact IH'.
  - destruct (tt_event_id ty =? e); cbn [fold_right]; rewrite IH'; reflexivity.
Qed.

Lemma sum_total_update e p f l :
  (forall ty, tt_event_id (f ty) = tt_event_id ty) ->
  (forall ty, tt_total_tickets (f ty) = tt_total_tickets ty) ->
  sum_total_tickets e (update_where p f l) = sum_total_tickets e l.
Proof.
  intros Hf Ht. unfold sum_total_tickets, update_where.
  induction l as [|ty l IH]; [reflexivity|].
  cbn [map filter].
  destruct (p ty).
  - rewrite Hf. destruct (tt_event_id ty =? e); cbn [fold_right];
      rewrite ?Ht, IH; reflexivity.
  - destruct (tt_event_id ty =? e); cbn [fold_right]; rewrite IH; reflexivity.
Qed.

Lemma update_where_absent {A} (p : A -> bool) (f : A -> A) (l : list A) :
  (forall a, In a l -> p a = false) -> update_where p f l = l.
Proof.
  intros H. unfold update_where. rewrite <- (map_id l) at 2. apply map_ext_in.
  intros a Hin. rewrite (H a Hin). reflexivity.
Qed.

Lemma sum_sold_update_one e T delta l ty :
  NoDup (map tt_id l) -> In ty l -> tt_id ty = T -> tt_event_id ty = e ->
  sum_tickets_sold e
    (update_where (fun ty => tt_id ty =? T)
                  (fun ty => set_tt_sold (tt_tickets_sold ty + delta) ty) l)
  = sum_tickets_sold e l + delta.
Proof.
  intros Hnd Hin Hid He.
  induction l as [|a l IH]; [destruct Hin|].
  cbn [map] in Hnd. apply NoDup_cons_iff in Hnd. destruct Hnd as [Hfresh Hnd].
  change (update_where (fun ty => tt_id ty =? T)
            (fun ty => set_tt_sold (tt_tickets_sold ty + delta) ty) (a :: l))
    with ((if tt_id a =? T then set_tt_sold (tt_tickets_sold a + delta) a else a)
          :: update_where (fun ty => tt_id ty =? T)
               (fun ty => set_tt_sold (tt_tickets_sold ty + delta) ty) l).
  destruct Hin as [->|Hin].
  - rewrite update_where_absent.
    + rewrite Hid, Z.eqb_refl. unfold sum_tickets_sold. cbn [filter].
      cbn [set_tt_sold tt_event_id]. rewrite He, Z.eqb_refl.
      cbn [fold_right]. cbn [set_tt_sold tt_tickets_sold]. lia.
    + intros ty' Hin'. apply Z.eqb_neq. intros E. apply Hfresh.
      rewrite Hid, <- E. apply in_map. exact Hin'.
  - specialize (IH Hnd Hin).
    assert (Ha : tt_id a <> T).
    { intros E. apply Hfresh. rewrite E, <- Hid. apply in_map. exact Hin. }
    apply Z.eqb_neq in Ha. rewrite Ha.
    unfold sum_tickets_sold in *. cbn [filter].
    destruct (tt_event_id a =? e); cbn [fold_right]; rewrite IH; lia.
Qed.

(** The store after a purchase that goes through. *)
Lemma post_tickets_store user_id event_id ticket_type_id quantity payment_method now s :
  store (post_tickets user_id event_id ticket_type_id quantity payment_method now s) = s \/
  exists s1,
    store (post_tickets user_id event_id ticket_type_id quantity payment_method now s) =
      sync_event event_id (add_tickets_sold ticket_type_id quantity s1) /\
    events s1 = events s /\ ticket_types s1 = ticket_types s.
Proof.
  unfold post_tickets. run_handler; try (left; reflexivity).
  right. eexists. split; [reflexivity|].
  destruct (insert_active_tickets_frame (Z.to_nat quantity) (next_transaction_id s)
              ticket_type_id event_id user_id now
              (insert_transaction user_id
                 (tt_price t * PrimFloat.of_uint63 (Uint63.of_Z quantity))%float
                 Completed (method_or_card payment_method) s))
    as (_ & He & Ht & _).
  cbv zeta in He, Ht. rewrite He, Ht. split; reflexivity.
Qed.

(** X9. A purchase keeps the aggregate invariant of every event, provided
    the ticket type bought belongs to the event named in the request (the
    handler itself does not check that). *)
Theorem purchase_keeps_aggregate_invariant :
  forall user_id event_id ticket_type_id quantity payment_method now s,
    aggregate_invariant s ->
    (forall ty, In ty (ticket_types s) -> tt_id ty = ticket_type_id ->
                tt_event_id ty = event_id) ->
    aggregate_invariant
      (store (post_tickets user_id event_id ticket_type_id quantity payment_method
                           now s)).
Proof.
  intros user_id event_id ticket_type_id quantity payment_method now s Hinv Hown.
  destruct (post_tickets_store user_id event_id ticket_type_id quantity
              payment_method now s) as [->|(s1 & -> & He & Ht)]; [exact Hinv|].
  intros e Hin.
  destruct (Z.eq_dec (e_id e) event_id) as [E|E].
  - apply sync_event_in_sync; assumption.
  - unfold sync_event, add_tickets_sold, with_events, with_ticket_types in *.
    cbn [events ticket_types] in *.
    apply in_update_where_inv in Hin. destruct Hin as (e0 & He0 & Ee).
    cbv beta in Ee.
    destruct (e_id e0 =? event_id) eqn:C.
    { subst e. cbn [set_event_counts e_id] in E. apply Z.eqb_eq in C. contradiction. }
    subst e. rewrite He in He0. destruct (Hinv e0 He0) as [Hs Htot].
    unfold event_in_sync. cbn [ticket_types]. rewrite Ht.
    rewrite sum_sold_update_other, sum_total_update; try reflexivity.
    + split; assumption.
    + intros ty Hty Hp Hev. apply Z.eqb_eq in Hp.
      apply E. rewrite <- Hev. apply Hown; assumption.
Qed.

Lemma purchase_keeps_aggregate_invariant_witness :
  aggregate_invariant (store (post_tickets 1 1 1 2 None 1000 hall)).
Proof.
  apply (purchase_keeps_aggregate_invariant 1 1 1 2 None 1000 hall).
  - intros e [<-|[]]. vm_compute. split; reflexivity.
  - intros ty [<-|[]] _. reflexivity.
Defined.

(** ** Organizer refund: refusals, repetition and the aggregate invariant *)

(** Either the organizer refund is refused and nothing happens, or the ticket
    is an active ticket of one of the organizer's events. *)
Lemma organizer_refund_cases organizer_id id now s :
  let o := put_ticket_organizer_refund organizer_id id now s in
  (store o = s /\ engine_calls o = [] /\
   (value o = OrgRefundInvalid \/ value o = OrgRefundTicketNotFound \/
    value o = OrgRefundForbidden \/ value o = OrgRefundNotActive)) \/
  (exists ticket ev,
     valid_id id = true /\ ticket_with_event id s = Some (ticket, ev) /\
     e_organizer_id ev = organizer_id /\ t_status ticket = Active).
Proof.
  cbv zeta. unfold put_ticket_organizer_refund.
  destruct (valid_id id) eqn:Hid; cbn [negb]; [|left; auto 10].
  rewrite bind_query.
  destruct (ticket_with_event id s) as [[ticket ev]|] eqn:Hj; [|left; auto 10].
  destruct (e_organizer_id ev =? organizer_id) eqn:Ho; cbn [negb]; [|left; auto 10].
  destruct (ticket_status_eqb (t_status ticket) Active) eqn:Hs; cbn [negb];
    [|left; auto 10].
  right. exists ticket, ev. apply Z.eqb_eq in Ho. apply ticket_status_eqb_eq in Hs.
  auto.
Qed.

Lemma organizer_refund_counters organizer_id id now s ticket ev :
  valid_id id = true ->
  ticket_with_event id s = Some (ticket, ev) ->
  e_organizer_id ev = organizer_id ->
  t_status ticket = Active ->
  let s' := store (put_ticket_organizer_refund organizer_id id now s) in
  events s' = events (organizer_refund_updates id ticket s) /\
  ticket_types s' = ticket_types (organizer_refund_updates id ticket s) /\
  exists extra,
    tickets s' = tickets (organizer_refund_updates id ticket s) ++ extra.
Proof.
  intros Hid Hj Ho Hs. cbv zeta.
  rewrite (organizer_refund_run _ _ now _ _ _ Hid Hj Ho Hs). cbv zeta.
  destruct (e_total_tickets ev <=? e_tickets_sold ev); cbn [store].
  - rewrite assign_events, assign_ticket_types, assign_tickets.
    split; [reflexivity|]. split; [reflexivity|].
    eexists; reflexivity.
  - split; [reflexivity|]. split; [reflexivity|].
    exists []. rewrite app_nil_r. reflexivity.
Qed.

(** X10. An organizer refund keeps the aggregate invariant of every event
    when ticket-type ids are unique and the refunded ticket's type exists
    and belongs to the ticket's event: the event counter and the type
    counter go down together. *)
Theorem organizer_refund_keeps_aggregate_invariant :
  forall organizer_id id now s,
    aggregate_invariant s ->
    NoDup (map tt_id (ticket_types s)) ->
    (forall ticket ev, ticket_with_event id s = Some (ticket, ev) ->
       exists ty, In ty (ticket_types s) /\
                  tt_id ty = t_ticket_type_id ticket /\
                  tt_event_id ty = t_event_id ticket) ->
    aggregate_invariant (store (put_ticket_organizer_refund organizer_id id now s)).
Proof.
  intros organizer_id id now s Hinv Hnd Hown.
  destruct (organizer_refund_cases organizer_id id now s)
    as [(-> & _)|(ticket & ev & Hid & Hj & Ho & Hs)]; [exact Hinv|].
  destruct (organizer_refund_counters _ _ now _ _ _ Hid Hj Ho Hs) as (Ee & Et & _).
  destruct (Hown ticket ev Hj) as (ty & Hty & Htid & Htev).
  intros e Hin. unfold event_in_sync. rewrite Et. rewrite Ee in Hin.
  unfold organizer_refund_updates in *.
  cbn [update_transaction_status add_tickets_sold decrement_event_sold
       update_ticket_status with_transactions with_ticket_types with_events
       with_tickets events ticket_types] in *.
  apply in_update_where_inv in Hin. destruct Hin as (e0 & He0 & ->). cbv beta.
  destruct (Hinv e0 He0) as [Hsold Htot].
  rewrite sum_total_update by reflexivity.
  destruct (e_id e0 =? t_event_id ticket) eqn:C.
  - apply Z.eqb_eq in C.
    cbn [set_event_counts e_id e_tickets_sold e_total_tickets].
    rewrite (sum_sold_update_one (e_id e0) (t_ticket_type_id ticket) (-1)
               (ticket_types s) ty Hnd Hty Htid) by congruence.
    split; [lia | exact Htot].
  - apply Z.eqb_neq in C.
    rewrite sum_sold_update_other; [split; assumption | reflexivity |].
    intros ty' Hty' Hp Hev. apply Z.eqb_eq in Hp.
    assert (ty' = ty).
    { clear - Hnd Hty Hty' Hp Htid.
      induction (ticket_types s) as [|a l IH]; [destruct Hty|].
      cbn [map] in Hnd. apply NoDup_cons_iff in Hnd. destruct Hnd as [Hf Hnd].
      destruct Hty as [->|Hty], Hty' as [->|Hty']; auto.
      - exfalso. apply Hf. rewrite Htid, <- Hp. apply in_map. exact Hty'.
      - exfalso. apply Hf. rewrite Hp, <- Htid. apply in_map. exact Hty. }
    subst ty'. congruence.
Qed.

Lemma organizer_refund_keeps_aggregate_invariant_witness :
  aggregate_invariant (store (put_ticket_organizer_refund 9 1 4000 queued)).
Proof.
  apply (organizer_refund_keeps_aggregate_invariant 9 1 4000 queued).
  - intros e [<-|[]]. vm_compute. split; reflexivity.
  - vm_compute. repeat constructor. intros [].
  - intros ticket ev H. vm_compute in H. inversion H; subst.
    eexists. split; [left; reflexivity|]. split; reflexivity.
Defined.

Lemma filter_event_id_map (h : event -> event) k evs :
  (forall e, e_id (h e) = e_id e) ->
  filter (fun e => e_id e =? k) (map h evs) =
  map h (filter (fun e => e_id e =? k) evs).
Proof.
  intros Hh. induction evs as [|e l IH]; [reflexivity|].
  cbn [map filter]. rewrite Hh. destruct (e_id e =? k); cbn [map]; rewrite IH;
    reflexivity.
Qed.

Lemma first_joined_row_after id (g : ticket -> ticket) (h : event -> event)
    evs ts extra t ev :
  (forall t, t_id (g t) = t_id t /\ t_event_id (g t) = t_event_id t) ->
  (forall e, e_id (h e) = e_id e) ->
  hd_error (flat_map (fun t => map (pair t)
                        (filter (fun e => e_id e =? t_event_id t) evs))
                     (filter (fun t => t_id t =? id) ts)) = Some (t, ev) ->
  hd_error (flat_map (fun t => map (pair t)
                        (filter (fun e => e_id e =? t_event_id t) (map h evs)))
                     (filter (fun t => t_id t =? id) (map g ts ++ extra)))
    = Some (g t, h ev).
Proof.
  intros Hg Hh. induction ts as [|a l IH]; [discriminate|].
  cbn [map app filter]. destruct (Hg a) as [-> Hge].
  destruct (t_id a =? id); [|exact IH].
  cbn [flat_map]. rewrite Hge, (filter_event_id_map h _ evs Hh).
  destruct (filter (fun e => e_id e =? t_event_id a) evs) as [|e es].
  - cbn [map app]. exact IH.
  - cbn [map app hd_error]. intros H. inversion H; subst. reflexivity.
Qed.

Lemma ticket_with_event_after id (g : ticket -> ticket) (h : event -> event)
    s s' extra t ev :
  (forall t, t_id (g t) = t_id t /\ t_event_id (g t) = t_event_id t) ->
  (forall e, e_id (h e) = e_id e) ->
  tickets s' = map g (tickets s) ++ extra ->
  events s' = map h (events s) ->
  ticket_with_event id s = Some (t, ev) ->
  ticket_with_event id s' = Some (g t, h ev).
Proof.
  intros Hg Hh Et Ee. unfold ticket_with_event. rewrite Et, Ee.
  apply first_joined_row_after; assumption.
Qed.

(** X11. An organizer refund that is refused (bad id, unknown ticket, caller
    not the event's organizer, ticket not active) writes nothing and calls
    nothing.  In particular a ticket cannot be refunded twice: after a
    refund that went through, the same request again is answered with
    [NotActive] and leaves the store as it is, so the counters are
    decremented once. *)
Theorem organizer_refund_refused_or_once :
  forall organizer_id id now s,
    let o := put_ticket_organizer_refund organizer_id id now s in
    ((forall a b c d, value o <> OrgRefunded a b c d) ->
     store o = s /\ engine_calls o = []) /\
    (forall a b c d, value o = OrgRefunded a b c d ->
       forall later,
         let again := put_ticket_organizer_refund organizer_id id later (store o) in
         value again = OrgRefundNotActive /\ store again = store o /\
         engine_calls again = []).
Proof.
  intros organizer_id id now s o. subst o.
  destruct (organizer_refund_cases organizer_id id now s)
    as [(Es & Ec & Hv)|(ticket & ev & Hid & Hj & Ho & Hs)].
  - cbv zeta in *. split; [auto|].
    intros a b c d H. rewrite H in Hv.
    destruct Hv as [Hv|[Hv|[Hv|Hv]]]; discriminate Hv.
  - split.
    + intros H. exfalso.
      rewrite (organizer_refund_run _ _ now _ _ _ Hid Hj Ho Hs) in H. cbv zeta in H.
      destruct (e_total_tickets ev <=? e_tickets_sold ev); eapply H; reflexivity.
    + intros a b c d _ later.
      destruct (organizer_refund_counters _ _ now _ _ _ Hid Hj Ho Hs)
        as (Ee & _ & extra & Et).
      cbv zeta in Ee, Et.
      destruct (ticket_with_event_some _ _ _ _ Hj) as (_ & Htid & Hev).
      assert (Heid : e_id ev = t_event_id ticket).
      { unfold find_event in Hev. apply find_some in Hev. apply Z.eqb_eq. tauto. }
      pose proof (ticket_with_event_after id
                    (fun t => if t_id t =? id then set_ticket_status Refunded t else t)
                    (fun e => if e_id e =? t_event_id ticket
                              then set_event_counts (e_total_tickets e)
                                                    (e_tickets_sold e - 1) e
                              else e)
                    s (store (put_ticket_organizer_refund organizer_id id now s))
                    extra ticket ev) as Hagain.
      cbv beta in Hagain. rewrite Htid, Z.eqb_refl, Heid, Z.eqb_refl in Hagain.
      specialize (Hagain
        ltac:(intros t; destruct (t_id t =? id); split; reflexivity)
        ltac:(intros e; destruct (e_id e =? t_event_id ticket); reflexivity)
        Et Ee Hj).
      cbv zeta.
      set (s1 := store (put_ticket_organizer_refund organizer_id id now s)) in *.
      assert (E : put_ticket_organizer_refund organizer_id id later s1
                  = mkOutcome OrgRefundNotActive s1 []).
      { unfold put_ticket_organizer_refund.
        rewrite Hid. cbn [negb]. rewrite bind_query, Hagain.
        cbn [set_event_counts e_organizer_id]. rewrite Ho, Z.eqb_refl. cbn [negb].
        reflexivity. }
      rewrite E. repeat split.
Qed.

Lemma organizer_refund_refused_or_once_witness :
  value (put_ticket_organizer_refund 9 1 5000
           (store (put_ticket_organizer_refund 9 1 4000 queued))) = OrgRefundNotActive /\
  store (put_ticket_organizer_refund 8 1 4000 queued) = queued.
Proof.
  split.
  - apply (proj2 (organizer_refund_refused_or_once 9 1 4000 queued) 1 1 1 true
             ltac:(vm_compute; reflexivity) 5000).
  - apply (proj1 (organizer_refund_refused_or_once 8 1 4000 queued)).
    intros a b c d. vm_compute. discriminate.
Defined.

(* ------------------------------------------------------------------ *)
(** ** Sync-all *)

Lemma recount_map_twice (ts : list ticket) (tts : list ticket_type) :
  map (fun ty => set_tt_sold (count_tickets_of_type (tt_id ty) ts) ty)
      (map (fun ty => set_tt_sold (count_tickets_of_type (tt_id ty) ts) ty) tts)
  = map (fun ty => set_tt_sold (count_tickets_of_type (tt_id ty) ts) ty) tts.
Proof. rewrite map_map. apply map_ext. intros ty. reflexivity. Qed.

Lemma post_sync_all_store s :
  store (post_sync_all s) = sync_all_events (recount_all_ticket_types s).
Proof. unfold post_sync_all. run_op. reflexivity. Qed.

(** X12. [POST /ticket-types/sync-all] rebuilds every counter from the rows
    below it, whatever the store: afterwards each ticket type's sold counter
    is the number of ticket rows of the type (of any status), each event's
    counters are the sums over its ticket types, so the aggregate invariant
    holds.  Ids, prices and capacities of the types, and the tickets,
    transactions and waitlist, are untouched; the answer lists the ticket
    types as updated; the offer engine is not called.  Running it a second
    time changes nothing. *)
Theorem sync_all_rebuilds_the_counters :
  forall s,
    let o := post_sync_all s in
    aggregate_invariant (store o) /\
    (forall ty, In ty (ticket_types (store o)) ->
       tt_tickets_sold ty = count_tickets_of_type (tt_id ty) (tickets (store o))) /\
    (forall e, In e (events (store o)) ->
       e_tickets_sold e = sum_tickets_sold (e_id e) (ticket_types (store o)) /\
       e_total_tickets e = sum_total_tickets (e_id e) (ticket_types s)) /\
    map (fun ty => (tt_id ty, tt_event_id ty, tt_price ty, tt_total_tickets ty))
        (ticket_types (store o))
    = map (fun ty => (tt_id ty, tt_event_id ty, tt_price ty, tt_total_tickets ty))
          (ticket_types s) /\
    map e_id (events (store o)) = map e_id (events s) /\
    tickets (store o) = tickets s /\ transactions (store o) = transactions s /\
    waitlist (store o) = waitlist s /\
    value o = ticket_types (store o) /\ engine_calls o = [] /\
    store (post_sync_all (store o)) = store o.
Proof.
  intros s o.
  assert (Es : store o = sync_all_events (recount_all_ticket_types s))
    by apply post_sync_all_store.
  assert (Tot : forall k, sum_total_tickets k (ticket_types (store o))
                          = sum_total_tickets k (ticket_types s)).
  { intros k. rewrite Es.
    cbn [sync_all_events recount_all_ticket_types with_events with_ticket_types
         ticket_types].
    unfold sum_total_tickets.
    induction (ticket_types s) as [|ty l IH]; [reflexivity|].
    cbn [map filter set_tt_sold tt_event_id].
    destruct (tt_event_id ty =? k); cbn [fold_right]; rewrite ?IH; reflexivity. }
  split; [|split; [|split; [|split; [|split]]]].
  - intros e Hin. rewrite Es in *.
    cbn [sync_all_events recount_all_ticket_types with_events with_ticket_types
         events ticket_types] in *.
    apply in_map_iff in Hin. destruct Hin as (e0 & <- & _). split; reflexivity.
  - intros ty Hin. rewrite Es in *.
    cbn [sync_all_events recount_all_ticket_types with_events with_ticket_types
         ticket_types tickets] in *.
    apply in_map_iff in Hin. destruct Hin as (ty0 & <- & _). reflexivity.
  - intros e Hin. rewrite <- Tot. rewrite Es in *.
    cbn [sync_all_events recount_all_ticket_types with_events with_ticket_types
         events ticket_types] in *.
    apply in_map_iff in Hin. destruct Hin as (e0 & <- & _). split; reflexivity.
  - rewrite Es.
    cbn [sync_all_events recount_all_ticket_types with_events with_ticket_types
         ticket_types].
    rewrite map_map. apply map_ext. intros ty. reflexivity.
  - rewrite Es.
    cbn [sync_all_events recount_all_ticket_types with_events with_ticket_types
         events].
    rewrite map_map. apply map_ext. intros e. reflexivity.
  - rewrite Es. do 3 (split; [reflexivity|]).
    split; [subst o; unfold post_sync_all; run_op; reflexivity|].
    split; [subst o; unfold post_sync_all; run_op; reflexivity|].
    rewrite post_sync_all_store.
    unfold sync_all_events, recount_all_ticket_types, with_events, with_ticket_types.
    cbn [users events ticket_types tickets transactions waitlist
         next_transaction_id next_ticket_id next_waitlist_id].
    rewrite recount_map_twice. f_equal.
    rewrite map_map. apply map_ext. intros e. reflexivity.
Qed.

Lemma sync_all_rebuilds_the_counters_witness :
  aggregate_invariant (store (post_sync_all refunded_once)) /\
  tt_tickets_sold (mkTicketType 1 1 20%float 2 2)
    = count_tickets_of_type 1 (tickets (store (post_sync_all refunded_once))).
Proof.
  destruct (sync_all_rebuilds_the_counters refunded_once) as (H1 & H2 & _).
  split; [exact H1|].
  apply (H2 (mkTicketType 1 1 20%float 2 2)). vm_compute. left. reflexivity.
Defined.

(* ------------------------------------------------------------------ *)
(** ** What a sweep pass leaves alone *)

Lemma sweep_rows_keeps_ticket now rows s t :
  In t (tickets s) -> ~ In (t_id t) (map r_id rows) ->
  In t (tickets (sweep_rows now rows s)).
Proof.
  revert s. induction rows as [|r rows IH]; intros s Hin Hno; [exact Hin|].
  cbn [sweep_rows]. apply IH.
  - rewrite cleanup_one_store, assign_tickets. apply in_or_app. left.
    apply cleanup_writes_tickets. split; [exact Hin|].
    intros E. apply Hno. left. symmetry. exact E.
  - intros H. apply Hno. right. exact H.
Qed.

Lemma sweep_rows_keeps_transaction now rows s x :
  In x (transactions s) -> ~ In (x_id x) (map r_transaction_id rows) ->
  In x (transactions (sweep_rows now rows s)).
Proof.
  revert s. induction rows as [|r rows IH]; intros s Hin Hno; [exact Hin|].
  cbn [sweep_rows]. apply IH.
  - rewrite cleanup_one_store, assign_transactions. apply in_or_app. left.
    rewrite cleanup_writes_transactions.
    pose proof (in_update_where (fun x => x_id x =? r_transaction_id r)
                  (set_tx_status Expired) _ _ Hin) as H.
    cbv beta in H.
    destruct (x_id x =? r_transaction_id r) eqn:C; [|exact H].
    exfalso. apply Hno. left. apply Z.eqb_eq in C. symmetry. exact C.
  - intros H. apply Hno. right. exact H.
Qed.

Lemma sweep_rows_new_tickets now rows s t :
  In t (tickets (sweep_rows now rows s)) ->
  In t (tickets s) \/
  (next_ticket_id s <= t_id t /\ t_status t = Reserved /\ t_issued_at t = now).
Proof.
  revert s. induction rows as [|r rows IH]; intros s Hin; [left; exact Hin|].
  cbn [sweep_rows] in Hin. apply IH in Hin.
  rewrite cleanup_one_store in Hin.
  pose proof (assign_sequences (r_event_id r) (r_ticket_type_id r) now
                (cleanup_writes r s)) as Hseq.
  cbv zeta in Hseq. destruct Hseq as (_ & Hseq & _).
  destruct (cleanup_writes_sequences r s) as [_ Et]. rewrite Et in Hseq.
  destruct Hin as [Hin|(Hge & Hst)].
  - rewrite assign_tickets in Hin. apply in_app_or in Hin.
    destruct Hin as [Hin|Hin].
    + left. apply cleanup_writes_tickets in Hin. tauto.
    + destruct (next_unclaimed (r_event_id r) (cleanup_writes r s)); [|destruct Hin].
      destruct Hin as [<-|[]]. right.
      cbn [offered_ticket t_id t_status t_issued_at]. rewrite Et.
      split; [lia|]. split; reflexivity.
  - right. split; [lia | exact Hst].
Qed.

(** What makes a ticket's row a selected one. *)
Lemma selected_is_lapsed now s r :
  In r (expired_reservations now s) ->
  exists t, lapsed now s t /\ r_id r = t_id t /\
            r_transaction_id r = t_transaction_id t.
Proof.
  intros Hr.
  destruct (expired_reservations_sound now s r Hr)
    as (t & x & w & e & Ht & Hx & Hw & Hxid & Hu & He & Hts & Hxs & Hexp & Hlt & ->).
  exists t. split; [|split; reflexivity].
  split; [exact Ht|]. split; [exact Hts|]. split.
  - exists x. auto.
  - exists w, e. auto.
Qed.

(** X13. A sweep pass touches only what it selected.  Every ticket whose id
    is not among the selected rows is still in the store afterwards, and so
    is, unchanged, every transaction whose id no selected row refers to.
    The only tickets that appear are the reserved ones the offer engine
    issues during the pass, with ids from the sequence.  So an offer that has
    not lapsed at the time of the pass survives it: when the ticket is the
    only one with its id and of its transaction and the sweep's condition
    does not hold for it, the ticket and its transaction rows stay as they
    are. *)
Theorem sweep_touches_only_what_it_selects :
  forall now s,
    let o := cleanupExpiredReservations now s in
    let rows := expired_reservations now s in
    (forall t, In t (tickets s) -> ~ In (t_id t) (map r_id rows) ->
               In t (tickets (store o))) /\
    (forall x, In x (transactions s) ->
               ~ In (x_id x) (map r_transaction_id rows) ->
               In x (transactions (store o))) /\
    (forall t, In t (tickets (store o)) ->
               In t (tickets s) \/
               (next_ticket_id s <= t_id t /\ t_status t = Reserved /\
                t_issued_at t = now)) /\
    (forall t, In t (tickets s) -> sole_ticket t s -> ~ lapsed now s t ->
               In t (tickets (store o)) /\
               forall x, In x (transactions s) -> x_id x = t_transaction_id t ->
                         In x (transactions (store o))).
Proof.
  intros now s o rows. subst o rows. rewrite cleanup_store.
  split; [|split; [|split]].
  - intros t. apply sweep_rows_keeps_ticket.
  - intros x. apply sweep_rows_keeps_transaction.
  - intros t. apply sweep_rows_new_tickets.
  - intros t Hin Hsole Hlive. split.
    + apply sweep_rows_keeps_ticket; [exact Hin|].
      intros Hsel. apply in_map_iff in Hsel. destruct Hsel as (r & Er & Hr).
      destruct (selected_is_lapsed now s r Hr) as (t' & Hl & E1 & _).
      assert (t' = t).
      { apply Hsole; [apply Hl|]. left. congruence. }
      subst t'. contradiction.
    + intros x Hx Exid. apply sweep_rows_keeps_transaction; [exact Hx|].
      intros Hsel. apply in_map_iff in Hsel. destruct Hsel as (r & Er & Hr).
      destruct (selected_is_lapsed now s r Hr) as (t' & Hl & _ & E2).
      assert (t' = t).
      { apply Hsole; [apply Hl|]. right. congruence. }
      subst t'. contradiction.
Qed.

Lemma sweep_touches_only_what_it_selects_witness :
  In (mkTicket 1 1 1 1 1 PendingReturn 1000)
     (tickets (store (cleanupExpiredReservations 1805000 returned))) /\
  In (mkTransaction 1 1 50%float Completed "card")
     (transactions (store (cleanupExpiredReservations 1805000 returned))).
Proof.
  destruct (sweep_touches_only_what_it_selects 1805000 returned) as (_ & _ & _ & H).
  destruct (H (mkTicket 1 1 1 1 1 PendingReturn 1000)) as [H1 H2].
  - vm_compute. left. reflexivity.
  - intros t' Hin E. vm_compute in Hin.
    destruct Hin as [<-|[<-|[]]]; [reflexivity|].
    cbn [t_id t_transaction_id] in E. destruct E; discriminate.
  - intros (_ & Hst & _). discriminate Hst.
  - split; [exact H1|]. apply H2; [vm_compute; left; reflexivity | reflexivity].
Defined.

(* ------------------------------------------------------------------ *)
(** ** An offer is settled once *)

Lemma pending_offer_none transaction_id s :
  (forall x, In x (transactions s) -> x_id x = transaction_id ->
             x_status x <> Pending) ->
  pending_offer transaction_id s = None.
Proof.
  intros H. unfold pending_offer.
  destruct (find _ (transactions s)) as [x|] eqn:E; [|reflexivity].
  exfalso. apply find_some in E. destruct E as [Hin E].
  apply andb_true_iff in E. destruct E as [E _].
  apply andb_true_iff in E. destruct E as [Eid Est].
  apply Z.eqb_eq in Eid. apply tx_status_eqb_eq in Est.
  exact (H x Hin Eid Est).
Qed.

Lemma no_pending_offer_closed transaction_id s :
  valid_id transaction_id = true ->
  pending_offer transaction_id s = None ->
  offer_closed transaction_id s.
Proof.
  intros Hid Hnone later. split.
  - unfold post_accept_ticket. rewrite Hid. cbn [negb].
    rewrite bind_query, Hnone. reflexivity.
  - unfold post_decline_ticket. rewrite Hid. cbn [negb].
    rewrite bind_query, Hnone. reflexivity.
Qed.

Lemma marked_not_pending transaction_id st l x :
  st <> Pending ->
  In x (update_where (fun x => x_id x =? transaction_id) (set_tx_status st) l) ->
  x_id x = transaction_id -> x_status x <> Pending.
Proof.
  intros Hst Hin E. apply in_update_where_inv in Hin.
  destruct Hin as (x0 & _ & ->). cbv beta in *.
  destruct (x_id x0 =? transaction_id) eqn:C; [exact Hst|].
  apply Z.eqb_neq in C. contradiction.
Qed.

Lemma accept_settles transaction_id now s :
  ids_in_sequence s ->
  let a := post_accept_ticket transaction_id now s in
  (accept_refused (value a) = true -> store a = s /\ engine_calls a = []) /\
  (accept_refused (value a) = false ->
   valid_id transaction_id = true /\
   forall x, In x (transactions (store a)) -> x_id x = transaction_id ->
             x_status x <> Pending).
Proof.
  intros [_ Hseq]. cbv zeta.
  destruct (valid_id transaction_id) eqn:Hid.
  2: { unfold post_accept_ticket. rewrite Hid. cbn. split; [auto | discriminate]. }
  destruct (pending_offer transaction_id s) as [transaction|] eqn:Htx.
  2: { unfold post_accept_ticket. rewrite Hid. cbn [negb].
       rewrite bind_query, Htx. cbn. split; [auto | discriminate]. }
  destruct (reserved_ticket_of transaction_id s) as [ticket|] eqn:Ht.
  2: { unfold post_accept_ticket. rewrite Hid. cbn [negb].
       rewrite bind_query, Htx. cbv beta iota. rewrite bind_query, Ht.
       cbn. split; [auto | discriminate]. }
  rewrite (post_accept_ticket_run _ now _ _ _ Hid Htx Ht).
  destruct (pending_offer_in _ _ _ Htx) as [Hin0 Hid0].
  pose proof (Hseq _ Hin0) as Hlt. rewrite Hid0 in Hlt.
  destruct (offer_lapsed now _); cbv zeta.
  - cbn [value store accept_refused]. split; [discriminate|].
    intros _. split; [reflexivity|]. intros x Hin E.
    rewrite assign_transactions in Hin. apply in_app_or in Hin.
    destruct Hin as [Hin|Hin].
    + apply (marked_not_pending transaction_id Expired (transactions s));
        [discriminate | exact Hin | exact E].
    + destruct (next_unclaimed _ _); [|destruct Hin].
      destruct Hin as [<-|[]]. cbn in E. lia.
  - destruct (pending_return_ticket _ _ s) as [returnedTicket|].
    + destruct (find_transaction _ _) as [original|];
        cbn [value store accept_refused]; (split; [discriminate|]);
        intros _; (split; [reflexivity|]); intros x Hin E.
      * cbn [accept_updates delete_waitlist_of with_waitlist insert_transaction
             transactions] in Hin.
        apply in_app_or in Hin. destruct Hin as [Hin|[<-|[]]].
        -- apply (marked_not_pending transaction_id Completed (transactions s));
             [discriminate | exact Hin | exact E].
        -- discriminate.
      * apply (marked_not_pending transaction_id Completed (transactions s));
          [discriminate | exact Hin | exact E].
    + cbn [value store accept_refused]. split; [discriminate|].
      intros _. split; [reflexivity|]. intros x Hin E.
      apply (marked_not_pending transaction_id Completed (transactions s));
        [discriminate | exact Hin | exact E].
Qed.

Lemma decline_settles transaction_id now s :
  ids_in_sequence s ->
  let d := post_decline_ticket transaction_id now s in
  (decline_refused (value d) = true -> store d = s /\ engine_calls d = []) /\
  (decline_refused (value d) = false ->
   valid_id transaction_id = true /\
   forall x, In x (transactions (store d)) -> x_id x = transaction_id ->
             x_status x <> Pending).
Proof.
  intros [_ Hseq]. cbv zeta.
  destruct (valid_id transaction_id) eqn:Hid.
  2: { unfold post_decline_ticket. rewrite Hid. cbn. split; [auto | discriminate]. }
  destruct (pending_offer transaction_id s) as [transaction|] eqn:Htx.
  2: { unfold post_decline_ticket. rewrite Hid. cbn [negb].
       rewrite bind_query, Htx. cbn. split; [auto | discriminate]. }
  destruct (reserved_ticket_of transaction_id s) as [ticket|] eqn:Ht.
  2: { unfold post_decline_ticket. rewrite Hid. cbn [negb].
       rewrite bind_query, Htx. cbv beta iota. rewrite bind_query, Ht.
       cbn. split; [auto | discriminate]. }
  rewrite (post_decline_ticket_run _ now _ _ _ Hid Htx Ht). cbv zeta.
  destruct (pending_offer_in _ _ _ Htx) as [Hin0 Hid0].
  pose proof (Hseq _ Hin0) as Hlt. rewrite Hid0 in Hlt.
  cbn [value store decline_refused]. split; [discriminate|].
  intros _. split; [reflexivity|]. intros x Hin E.
  rewrite assign_transactions in Hin. apply in_app_or in Hin.
  destruct Hin as [Hin|Hin].
  - apply (marked_not_pending transaction_id Cancelled (transactions s));
      [discriminate | exact Hin | exact E].
  - destruct (next_unclaimed _ _); [|destruct Hin].
    destruct Hin as [<-|[]]. cbn in E. lia.
Qed.

(** X14. An offer is settled once.  An accept or a decline that is refused
    (invalid id, no pending waitlist transaction with that id, no reserved
    ticket for it) writes nothing and calls no offer engine.  Any other
    answer (accepted, reservation expired, the internal error of the accept,
    declined) leaves no pending transaction with that id, so that every
    later accept or decline of the same transaction, at any time, answers
    that the reservation was not found and writes nothing.  Ids are assumed
    to be drawn from the sequences, so that the transaction the offer engine
    may insert for the next in line gets another id. *)
Theorem offer_is_settled_once :
  forall transaction_id now s,
    ids_in_sequence s ->
    let a := post_accept_ticket transaction_id now s in
    let d := post_decline_ticket transaction_id now s in
    (accept_refused (value a) = true -> store a = s /\ engine_calls a = []) /\
    (accept_refused (value a) = false -> offer_closed transaction_id (store a)) /\
    (decline_refused (value d) = true -> store d = s /\ engine_calls d = []) /\
    (decline_refused (value d) = false -> offer_closed transaction_id (store d)).
Proof.
  intros transaction_id now s Hids a d.
  destruct (accept_settles transaction_id now s Hids) as [A1 A2].
  destruct (decline_settles transaction_id now s Hids) as [D1 D2].
  split; [exact A1|]. split; [|split; [exact D1|]].
  - intros H. destruct (A2 H) as [Hid Hx].
    apply no_pending_offer_closed; [exact Hid | apply pending_offer_none, Hx].
  - intros H. destruct (D2 H) as [Hid Hx].
    apply no_pending_offer_closed; [exact Hid | apply pending_offer_none, Hx].
Qed.

Lemma offer_is_settled_once_witness :
  value (post_accept_ticket 2 6000 (store (post_accept_ticket 2 5000 returned)))
    = AcceptReservationNotFound /\
  value (post_decline_ticket 2 6000 (store (post_decline_ticket 2 5000 returned)))
    = DeclineReservationNotFound.
Proof.
  destruct (offer_is_settled_once 2 5000 returned returned_ids_in_sequence)
    as (_ & A & _ & D).
  split.
  - destruct (A ltac:(vm_compute; reflexivity) 6000) as [-> _]. reflexivity.
  - destruct (D ltac:(vm_compute; reflexivity) 6000) as [_ ->]. reflexivity.
Defined.

(* ------------------------------------------------------------------ *)
(** ** Leaving the waitlist *)

Lemma filter_delete_where {A} (p : A -> bool) (l : list A) :
  filter p (delete_where p l) = [].
Proof.
  unfold delete_where. induction l as [|a l IH]; [reflexivity|].
  cbn [filter]. destruct (p a) eqn:C; cbn [negb]; [exact IH|].
  cbn [filter]. rewrite C. exact IH.
Qed.

Lemma with_waitlist_same f s : f (waitlist s) = waitlist s -> with_waitlist f s = s.
Proof. intros E. unfold with_waitlist. rewrite E. destruct s; reflexivity. Qed.

(** The two leave handlers are the same statement pair for two conditions. *)
Lemma leave_by p s :
  let o := (result <- query (fun s => filter p (waitlist s)) ;;
            exec (with_waitlist (delete_where p)) ;;;
            match result with
            | [] => ret LeaveNotFound
            | deleted :: _ => ret (LeaveDeleted deleted)
            end) s in
  engine_calls o = [] /\
  store o = with_waitlist (delete_where p) s /\
  (value o = LeaveNotFound -> store o = s) /\
  (forall deleted, value o = LeaveDeleted deleted ->
     In deleted (waitlist s) /\ p deleted = true) /\
  (forall w, In w (waitlist (store o)) <-> In w (waitlist s) /\ p w = false) /\
  (result <- query (fun s => filter p (waitlist s)) ;;
   exec (with_waitlist (delete_where p)) ;;;
   match result with
   | [] => ret LeaveNotFound
   | deleted :: _ => ret (LeaveDeleted deleted)
   end) (store o) = mkOutcome LeaveNotFound (store o) [].
Proof.
  cbv zeta. run_op.
  assert (Es : forall v : leave_response,
             store (ret v (with_waitlist (delete_where p) s))
             = with_waitlist (delete_where p) s) by reflexivity.
  destruct (filter p (waitlist s)) as [|d rest] eqn:E; rewrite Es;
    cbn [ret value engine_calls].
  - split; [reflexivity|]. split; [reflexivity|].
    split; [intros _; apply with_waitlist_same, delete_where_none, E|].
    split; [discriminate|]. split.
    + intros w. cbn [with_waitlist waitlist]. apply in_delete_where.
    + cbn [with_waitlist waitlist]. rewrite filter_delete_where.
      rewrite with_waitlist_same; [reflexivity|].
      cbn [waitlist]. apply delete_where_none, filter_delete_where.
  - split; [reflexivity|]. split; [reflexivity|].
    split; [discriminate|]. split.
    + intros deleted H. inversion H; subst deleted.
      apply (filter_In p d (waitlist s)). rewrite E. left. reflexivity.
    + split.
      * intros w. cbn [with_waitlist waitlist]. apply in_delete_where.
      * cbn [with_waitlist waitlist]. rewrite filter_delete_where.
        rewrite with_waitlist_same; [reflexivity|].
        cbn [waitlist]. apply delete_where_none, filter_delete_where.
Qed.

(** X15. Leaving the waitlist, by entry id or by event and user.  A leave
    never calls the offer engine, also when the entry it deletes holds an
    offer.  When it answers not-found it has written nothing; when it
    answers with a deleted entry, that entry was in the queue and matched
    the request.  Afterwards the queue holds exactly the entries that did not
    match, and the same leave sent again answers not-found and writes
    nothing. *)
Theorem leave_removes_the_entry_for_good :
  forall id event_id user_id s,
    valid_id id = true -> valid_id event_id = true -> valid_id user_id = true ->
    let by_id := delete_waitlist id s in
    let by_user := delete_waitlist_event_user event_id user_id s in
    (engine_calls by_id = [] /\
     (value by_id = LeaveNotFound -> store by_id = s) /\
     (forall deleted, value by_id = LeaveDeleted deleted ->
        In deleted (waitlist s) /\ w_id deleted = id) /\
     (forall w, In w (waitlist (store by_id)) <-> In w (waitlist s) /\ w_id w <> id) /\
     delete_waitlist id (store by_id) = mkOutcome LeaveNotFound (store by_id) []) /\
    (engine_calls by_user = [] /\
     (value by_user = LeaveNotFound -> store by_user = s) /\
     (forall deleted, value by_user = LeaveDeleted deleted ->
        In deleted (waitlist s) /\
        w_user_id deleted = user_id /\ w_event_id deleted = event_id) /\
     (forall w, In w (waitlist (store by_user)) <->
                In w (waitlist s) /\
                ~ (w_user_id w = user_id /\ w_event_id w = event_id)) /\
     delete_waitlist_event_user event_id user_id (store by_user)
       = mkOutcome LeaveNotFound (store by_user) []).
Proof.
  intros id event_id user_id s Hid He Hu by_id by_user. subst by_id by_user.
  unfold delete_waitlist, delete_waitlist_event_user.
  rewrite Hid, He, Hu. cbn [negb]. split.
  - destruct (leave_by (fun w => w_id w =? id) s) as (Hc & _ & Hn & Hd & Hw & Ha).
    split; [exact Hc|]. split; [exact Hn|]. split; [|split; [|exact Ha]].
    + intros deleted H. destruct (Hd deleted H) as [Hin Hp].
      apply Z.eqb_eq in Hp. split; assumption.
    + intros w. rewrite Hw, Z.eqb_neq. reflexivity.
  - destruct (leave_by (fun w => (w_user_id w =? user_id) && (w_event_id w =? event_id)) s)
      as (Hc & _ & Hn & Hd & Hw & Ha).
    split; [exact Hc|]. split; [exact Hn|]. split; [|split; [|exact Ha]].
    + intros deleted H. destruct (Hd deleted H) as [Hin Hp].
      apply andb_true_iff in Hp. rewrite !Z.eqb_eq in Hp. tauto.
    + intros w. rewrite Hw, andb_false_iff, !Z.eqb_neq.
      destruct (Z.eq_dec (w_user_id w) user_id), (Z.eq_dec (w_event_id w) event_id);
        tauto.
Qed.

Lemma leave_removes_the_entry_for_good_witness :
  value (delete_waitlist 1 (store (delete_waitlist 1 promoted))) = LeaveNotFound /\
  store (delete_waitlist_event_user 1 3 promoted) = promoted.
Proof.
  destruct (leave_removes_the_entry_for_good 1 1 3 promoted eq_refl eq_refl eq_refl)
    as ((_ & _ & _ & _ & A) & (_ & B & _)).
  split.
  - rewrite A. reflexivity.
  - apply B. vm_compute. reflexivity.
Defined.

(* ------------------------------------------------------------------ *)
(** ** The recount of one ticket type *)

Lemma with_ticket_types_same f s :
  f (ticket_types s) = ticket_types s -> with_ticket_types f s = s.
Proof. intros E. unfold with_ticket_types. rewrite E. destruct s; reflexivity. Qed.

Lemma recount_store id s :
  store (put_ticket_type_recount id s) =
  if valid_id id then recount_ticket_type id s else s.
Proof.
  unfold put_ticket_type_recount. destruct (valid_id id); cbn [negb]; [|reflexivity].
  run_op. reflexivity.
Qed.

(** A recount changes nothing when every type with that id already carries
    the row count. *)
Lemma recount_settled id s :
  (forall ty, In ty (ticket_types s) -> tt_id ty = id ->
              tt_tickets_sold ty = count_tickets_of_type id (tickets s)) ->
  recount_ticket_type id s = s.
Proof.
  intros H. unfold recount_ticket_type. apply with_ticket_types_same.
  unfold update_where. rewrite <- (map_id (ticket_types s)) at 2.
  apply map_ext_in. intros ty Hin.
  destruct (tt_id ty =? id) eqn:C; [|reflexivity].
  apply Z.eqb_eq in C. rewrite <- (H ty Hin C). destruct ty; reflexivity.
Qed.

(** X16. [PUT /ticket-types/:id/recount] is local to the ticket types with
    that id: events, tickets, transactions and the waitlist are untouched,
    every other ticket type is as before, and the offer engine is not
    called.  For an id that passes validation each type with that id ends up
    with the number of ticket rows of the type as its sold counter, the same
    number sync-all writes.  Hence a recount sent again changes nothing, and
    a recount right after a sync-all changes nothing either (and so keeps the
    aggregate invariant that sync-all established). *)
Theorem recount_is_local_and_settles :
  forall id s,
    let o := put_ticket_type_recount id s in
    events (store o) = events s /\ tickets (store o) = tickets s /\
    transactions (store o) = transactions s /\ waitlist (store o) = waitlist s /\
    engine_calls o = [] /\
    (forall ty, tt_id ty <> id ->
       (In ty (ticket_types (store o)) <-> In ty (ticket_types s))) /\
    (valid_id id = true ->
     forall ty, In ty (ticket_types (store o)) -> tt_id ty = id ->
       tt_tickets_sold ty = count_tickets_of_type id (tickets s) /\
       In ty (ticket_types (store (post_sync_all s)))) /\
    store (put_ticket_type_recount id (store o)) = store o /\
    store (put_ticket_type_recount id (store (post_sync_all s)))
      = store (post_sync_all s) /\
    aggregate_invariant
      (store (put_ticket_type_recount id (store (post_sync_all s)))).
Proof.
  intros id s o.
  assert (Ho : store o = if valid_id id then recount_ticket_type id s else s)
    by apply recount_store.
  assert (Hc : engine_calls o = []).
  { subst o. unfold put_ticket_type_recount.
    destruct (valid_id id); cbn [negb]; [run_op|]; reflexivity. }
  assert (Hin : forall ty,
            In ty (ticket_types (recount_ticket_type id s)) ->
            exists ty0, In ty0 (ticket_types s) /\
              ty = if tt_id ty0 =? id
                   then set_tt_sold (count_tickets_of_type id (tickets s)) ty0
                   else ty0).
  { intros ty H. unfold recount_ticket_type, with_ticket_types in H.
    cbn [ticket_types] in H. apply in_update_where_inv in H. exact H. }
  assert (Hsync : store (put_ticket_type_recount id (store (post_sync_all s)))
                  = store (post_sync_all s)).
  { rewrite recount_store. destruct (valid_id id); [|reflexivity].
    apply recount_settled. rewrite post_sync_all_store.
    cbn [sync_all_events recount_all_ticket_types with_events with_ticket_types
         ticket_types tickets].
    intros ty H E. apply in_map_iff in H. destruct H as (ty0 & <- & _).
    cbn [set_tt_sold tt_id tt_tickets_sold] in *. rewrite E. reflexivity. }
  rewrite Hsync, Ho.
  destruct (valid_id id) eqn:Hid.
  - do 4 (split; [reflexivity|]). split; [exact Hc|]. split; [|split; [|split; [|split]]].
    + intros ty Hne. split.
      * intros H. destruct (Hin ty H) as (ty0 & H0 & E).
        destruct (tt_id ty0 =? id) eqn:C; [|subst ty; exact H0].
        exfalso. apply Hne. subst ty. apply Z.eqb_eq in C. exact C.
      * intros H. unfold recount_ticket_type, with_ticket_types. cbn [ticket_types].
        pose proof (in_update_where (fun ty => tt_id ty =? id)
                      (set_tt_sold (count_tickets_of_type id (tickets s))) _ _ H) as H'.
        cbv beta in H'. apply Z.eqb_neq in Hne. rewrite Hne in H'. exact H'.
    + intros _ ty H E. destruct (Hin ty H) as (ty0 & H0 & E0).
      destruct (tt_id ty0 =? id) eqn:C.
      * subst ty. split; [reflexivity|]. rewrite post_sync_all_store.
        cbn [sync_all_events recount_all_ticket_types with_events with_ticket_types
             ticket_types].
        apply in_map_iff. exists ty0. split; [|exact H0].
        apply Z.eqb_eq in C. rewrite C. reflexivity.
      * subst ty. apply Z.eqb_neq in C. contradiction.
    + rewrite recount_store, Hid. apply recount_settled.
      intros ty H E. destruct (Hin ty H) as (ty0 & H0 & E0).
      destruct (tt_id ty0 =? id) eqn:C.
      * subst ty. reflexivity.
      * subst ty. apply Z.eqb_neq in C. contradiction.
    + reflexivity.
    + apply post_sync_all_aggregate.
  - do 4 (split; [reflexivity|]). split; [exact Hc|]. split; [|split; [|split; [|split]]].
    + intros ty _. reflexivity.
    + discriminate.
    + rewrite recount_store, Hid. reflexivity.
    + reflexivity.
    + apply post_sync_all_aggregate.
Qed.

Lemma recount_is_local_and_settles_witness :
  tt_tickets_sold (mkTicketType 1 1 20%float 2 2)
    = count_tickets_of_type 1 (tickets refunded_once) /\
  In (mkTicketType 1 1 20%float 2 2)
     (ticket_types (store (post_sync_all refunded_once))).
Proof.
  destruct (recount_is_local_and_settles 1 refunded_once)
    as (_ & _ & _ & _ & _ & _ & H & _).
  apply (H eq_refl (mkTicketType 1 1 20%float 2 2)).
  - vm_compute. left. reflexivity.
  - reflexivity.
Defined.

(* ------------------------------------------------------------------ *)
(** ** A returned ticket and the next joiner *)

Lemma find_none_filter {A} (p : A -> bool) (l : list A) :
  find p l = None -> filter p l = [].
Proof.
  rewrite find_hd_filter. destruct (filter p l); [reflexivity | discriminate].
Qed.

(** A return that was granted while nobody was waiting. *)
Lemma put_ticket_refund_unassigned id now s ticket ev :
  ticket_with_event id s = Some (ticket, ev) ->
  value (put_ticket_refund id now s) = RefundRequested false ->
  store (put_ticket_refund id now s) = update_ticket_status id PendingReturn s /\
  e_total_tickets ev <= e_tickets_sold ev.
Proof.
  intros Hj. destruct (valid_id id) eqn:Hid.
  2: { unfold put_ticket_refund. rewrite Hid. discriminate. }
  rewrite (put_ticket_refund_run _ now _ _ _ Hid Hj).
  destruct (negb (ticket_status_eqb (t_status ticket) Active)); [discriminate|].
  destruct (e_total_tickets ev <=? e_tickets_sold ev) eqn:Hso; cbn [negb];
    [|discriminate].
  cbv zeta. cbn [value store]. unfold assignTicketToWaitlist.
  destruct (next_unclaimed _ _); cbn [fst snd assigned]; [discriminate|].
  intros _. split; [reflexivity | apply Z.leb_le; exact Hso].
Qed.

(** X17. A ticket returned while nobody was waiting goes to the next joiner
    on the spot.  When a self-service return is granted and answers that no
    waitlist user was assigned, the ticket is left [pending_return], still
    counted as sold; the next registered user who joins the event's waitlist
    before the event's end, and has no entry for it, is not queued: the join
    answers with an offer, inserts a pending waitlist transaction and a
    reserved ticket for the joiner with the next ids of the sequences, and
    leaves the waitlist as it was. *)
Theorem returned_ticket_goes_to_the_next_joiner :
  forall id now s user_id later ticket ev,
    ticket_with_event id s = Some (ticket, ev) ->
    value (put_ticket_refund id now s) = RefundRequested false ->
    valid_id user_id = true -> valid_id (t_event_id ticket) = true ->
    existsb (Z.eqb user_id) (users s) = true ->
    later <= event_end_time ev ->
    waitlist_entry_of user_id (t_event_id ticket) s = None ->
    let s1 := store (put_ticket_refund id now s) in
    let o := post_waitlist user_id (t_event_id ticket) later s1 in
    In (set_ticket_status PendingReturn ticket) (tickets s1) /\
    events s1 = events s /\ ticket_types s1 = ticket_types s /\
    value o = JoinOffered (next_transaction_id s) /\
    engine_calls o = [] /\
    waitlist (store o) = waitlist s /\
    exists pendingTicket,
      oldest_pending_return (t_event_id ticket) s1 = Some pendingTicket /\
      tickets (store o) =
        tickets s1 ++ [mkTicket (next_ticket_id s) (next_transaction_id s)
                                (t_ticket_type_id pendingTicket) (t_event_id ticket)
                                user_id Reserved later] /\
      transactions (store o) =
        transactions s ++ [mkTransaction (next_transaction_id s) user_id
                             (price_or_zero (t_ticket_type_id pendingTicket) s)
                             Pending "waitlist"].
Proof.
  intros id now s user_id later ticket ev Hj Hv Hu He Hreg Hend Hnone s1 o.
  destruct (put_ticket_refund_unassigned _ _ _ _ _ Hj Hv) as [Es Hso].
  destruct (ticket_with_event_some _ _ _ _ Hj) as (Hin & Htid & Hev).
  apply find_none_filter in Hnone.
  assert (Hret : In (set_ticket_status PendingReturn ticket) (tickets s1)).
  { subst s1. rewrite Es. unfold update_ticket_status, with_tickets. cbn [tickets].
    pose proof (in_update_where (fun t => t_id t =? id)
                  (set_ticket_status PendingReturn) _ _ Hin) as H.
    cbv beta in H. rewrite Htid, Z.eqb_refl in H. exact H. }
  assert (Hold : exists pendingTicket,
             oldest_pending_return (t_event_id ticket) s1 = Some pendingTicket).
  { unfold oldest_pending_return.
    destruct (first_by t_issued_at _) as [p|] eqn:E; [exists p; reflexivity|].
    exfalso. apply first_by_none in E.
    assert (H : In (set_ticket_status PendingReturn ticket)
                   (filter (fun t => (t_event_id t =? t_event_id ticket) &&
                                     ticket_status_eqb (t_status t) PendingReturn)
                           (tickets s1))).
    { apply filter_In. split; [exact Hret|].
      cbn [set_ticket_status t_event_id t_status ticket_status_eqb].
      rewrite Z.eqb_refl. reflexivity. }
    rewrite E in H. destruct H. }
  destruct Hold as (pendingTicket & Hold).
  split; [exact Hret|].
  assert (Eo : o = mkOutcome (JoinOffered (next_transaction_id s))
                 (insert_ticket (next_transaction_id s) (t_ticket_type_id pendingTicket)
                    (t_event_id ticket) user_id Reserved later
                    (insert_transaction user_id
                       (price_or_zero (t_ticket_type_id pendingTicket) s1)
                       Pending "waitlist" s1)) []).
  { subst o. unfold post_waitlist. rewrite Hu, He. cbn [negb].
    rewrite !bind_query. cbv beta.
    assert (Eu : users s1 = users s) by (subst s1; rewrite Es; reflexivity).
    assert (Ee : find_event (t_event_id ticket) s1 = Some ev)
      by (subst s1; rewrite Es; exact Hev).
    assert (Ew : waitlist s1 = waitlist s) by (subst s1; rewrite Es; reflexivity).
    rewrite Eu, Hreg, Ee. cbn [negb].
    assert (E1 : (event_end_time ev <? later) = false) by (apply Z.ltb_ge; exact Hend).
    assert (E2 : (e_tickets_sold ev <? e_total_tickets ev) = false)
      by (apply Z.ltb_ge; exact Hso).
    rewrite E1, E2. rewrite bind_query. cbv beta. rewrite Ew, Hnone.
    rewrite bind_query. cbv beta. rewrite Hold.
    run_op. unfold ret.
    assert (En : next_transaction_id s1 = next_transaction_id s)
      by (subst s1; rewrite Es; reflexivity).
    rewrite En. reflexivity. }
  rewrite Eo. cbn [value store engine_calls].
  subst s1. rewrite Es in *.
  do 4 (split; [reflexivity|]). split; [reflexivity|].
  exists pendingTicket. split; [exact Hold|]. split; reflexivity.
Qed.

Lemma returned_ticket_goes_to_the_next_joiner_witness :
  value (post_waitlist 2 1 3000 (store (put_ticket_refund 1 2000 sold_out)))
    = JoinOffered 2 /\
  waitlist (store (post_waitlist 2 1 3000 (store (put_ticket_refund 1 2000 sold_out))))
    = [].
Proof.
  pose proof (returned_ticket_goes_to_the_next_joiner 1 2000 sold_out 2 3000
                (mkTicket 1 1 1 1 1 Active 1000)
                (mkEvent 1 9 (Some 500000000) (Some 900000000) 1 1)
                ltac:(vm_compute; reflexivity) ltac:(vm_compute; reflexivity)
                eq_refl eq_refl ltac:(vm_compute; reflexivity)
                ltac:(vm_compute; discriminate) ltac:(vm_compute; reflexivity)) as H.
  cbv zeta in H. destruct H as (_ & _ & _ & H1 & _ & H2 & _).
  split; [exact H1 | exact H2].
Defined.

(* ------------------------------------------------------------------ *)
(** ** The deadline of an offer *)

Lemma find_delete_where {A} (p : A -> bool) (l : list A) :
  find p (delete_where p l) = None.
Proof. rewrite find_hd_filter, filter_delete_where. reflexivity. Qed.

Lemma entry_stays_after_offer user_id event_id e ty now s :
  waitlist_entry_of user_id event_id s <> None ->
  waitlist_entry_of user_id event_id (snd (assignTicketToWaitlist e ty now s)) <> None.
Proof.
  unfold waitlist_entry_of. rewrite assign_waitlist.
  destruct (next_unclaimed e s) as [w0|]; [|tauto].
  rewrite find_update_where_any by reflexivity.
  destruct (find _ (waitlist s)); [discriminate | tauto].
Qed.

(** X18. The deadline of an offer is inclusive, and the two sides of it.
    Take a pending offer with its reserved ticket whose user has a claimed
    waitlist entry for the event, expiring at [e].  An accept at any time up
    to and including [e] is not answered with an expiry: it completes the
    transaction (the same row with status [completed]), calls no offer
    engine and answers with the accepted ticket
    (or with the internal error of a displaced ticket whose transaction row
    is missing); when it answers with the ticket, the user is left without an
    entry for the event.  An accept after [e] answers that the reservation
    expired, marks the transaction expired (the same row with status
    [expired]), calls the offer engine once for
    the ticket's event and type, and the user still has an entry for the
    event afterwards. *)
Theorem accept_deadline_is_inclusive :
  forall transaction_id now s transaction ticket w offered e,
    valid_id transaction_id = true ->
    pending_offer transaction_id s = Some transaction ->
    reserved_ticket_of transaction_id s = Some ticket ->
    waitlist_entry_of (x_user_id transaction) (t_event_id ticket) s = Some w ->
    w_offered_at w = Some offered ->
    w_reservation_expires_at w = Some e ->
    let o := post_accept_ticket transaction_id now s in
    (now <= e ->
     engine_calls o = [] /\
     In (mkTransaction transaction_id (x_user_id transaction)
                       (x_total_price transaction) Completed
                       (x_payment_method transaction))
        (transactions (store o)) /\
     ((exists refunded_ticket_id refundAmount platformFee,
         value o = Accepted ticket refunded_ticket_id refundAmount platformFee /\
         waitlist_entry_of (x_user_id transaction) (t_event_id ticket) (store o)
           = None) \/
      (value o = AcceptInternalError /\ waitlist (store o) = waitlist s))) /\
    (e < now ->
     value o = AcceptReservationExpired /\
     engine_calls o = [(t_event_id ticket, t_ticket_type_id ticket)] /\
     In (mkTransaction transaction_id (x_user_id transaction)
                       (x_total_price transaction) Expired
                       (x_payment_method transaction))
        (transactions (store o)) /\
     waitlist_entry_of (x_user_id transaction) (t_event_id ticket) (store o)
       <> None).
Proof.
  intros transaction_id now s transaction ticket w offered e
         Hid Htx Ht Hw Hoff Hexp o.
  subst o. rewrite (post_accept_ticket_run _ now _ _ _ Hid Htx Ht).
  destruct (pending_offer_in _ _ _ Htx) as [Hin Hxid].
  assert (Hmark : forall st,
            In (mkTransaction transaction_id (x_user_id transaction)
                              (x_total_price transaction) st
                              (x_payment_method transaction))
               (update_where (fun x => x_id x =? transaction_id) (set_tx_status st)
                             (transactions s))).
  { intros st.
    pose proof (in_update_where (fun x => x_id x =? transaction_id)
                  (set_tx_status st) _ _ Hin) as H.
    cbv beta in H. rewrite Hxid, Z.eqb_refl in H.
    unfold set_tx_status in H. rewrite Hxid in H. exact H. }
  rewrite Hw. cbn [offer_lapsed]. rewrite Hoff, Hexp. split.
  - intros Hle. apply Z.ltb_ge in Hle. rewrite Hle. cbv zeta.
    destruct (pending_return_ticket _ _ s) as [returnedTicket|].
    + destruct (find_transaction _ _) as [original|]; cbn [value store engine_calls].
      * split; [reflexivity|]. split.
        { cbn [accept_updates delete_waitlist_of with_waitlist insert_transaction
               transactions].
          apply in_or_app. left. apply Hmark. }
        left. do 3 eexists. split; [reflexivity|].
        unfold waitlist_entry_of, accept_updates, delete_waitlist_of, with_waitlist.
        cbn [waitlist]. apply find_delete_where.
      * split; [reflexivity|]. split; [apply Hmark|]. right. split; reflexivity.
    + cbn [value store engine_calls]. split; [reflexivity|]. split; [apply Hmark|].
      left. do 3 eexists. split; [reflexivity|].
      unfold waitlist_entry_of, delete_waitlist_of, with_waitlist.
      cbn [waitlist]. apply find_delete_where.
  - intros Hlt. apply Z.ltb_lt in Hlt. rewrite Hlt. cbv zeta.
    cbn [value store engine_calls].
    split; [reflexivity|]. split; [reflexivity|]. split.
    + rewrite assign_transactions. apply in_or_app. left. apply Hmark.
    + apply entry_stays_after_offer.
      unfold waitlist_entry_of in *. cbn [delete_ticket_row with_tickets
        update_transaction_status with_transactions waitlist].
      rewrite Hw. discriminate.
Qed.

Lemma accept_deadline_is_inclusive_witness :
  engine_calls (post_accept_ticket 2 1804000 returned) = [] /\
  In (mkTransaction 2 2 50%float Completed "waitlist")
     (transactions (store (post_accept_ticket 2 1804000 returned))) /\
  value (post_accept_ticket 2 1804001 returned) = AcceptReservationExpired /\
  In (mkTransaction 2 2 50%float Expired "waitlist")
     (transactions (store (post_accept_ticket 2 1804001 returned))).
Proof.
  pose proof (accept_deadline_is_inclusive 2 1804000 returned
                (mkTransaction 2 2 50%float Pending "waitlist")
                (mkTicket 2 2 1 1 2 Reserved 4000)
                (mkWaitlist 1 2 1 2000 (Some 4000) (Some 1804000)) 4000 1804000
                eq_refl ltac:(vm_compute; reflexivity) ltac:(vm_compute; reflexivity)
                ltac:(vm_compute; reflexivity) eq_refl eq_refl) as H1.
  pose proof (accept_deadline_is_inclusive 2 1804001 returned
                (mkTransaction 2 2 50%float Pending "waitlist")
                (mkTicket 2 2 1 1 2 Reserved 4000)
                (mkWaitlist 1 2 1 2000 (Some 4000) (Some 1804000)) 4000 1804000
                eq_refl ltac:(vm_compute; reflexivity) ltac:(vm_compute; reflexivity)
                ltac:(vm_compute; reflexivity) eq_refl eq_refl) as H2.
  cbv zeta in H1, H2.
  destruct (proj1 H1 ltac:(lia)) as (A1 & A2 & _).
  destruct (proj2 H2 ltac:(lia)) as (B1 & _ & B3 & _).
  split; [exact A1|]. split; [exact A2|]. split; [exact B1 | exact B3].
Defined.

(* ------------------------------------------------------------------ *)
(** ** Deleting a ticket type *)

Lemma same_id_same_type (l : list ticket_type) (a b : ticket_type) :
  NoDup (map tt_id l) -> In a l -> In b l -> tt_id a = tt_id b -> a = b.
Proof.
  induction l as [|c l IH]; cbn [map In]; intros Hnd Ha Hb E; [destruct Ha|].
  apply NoDup_cons_iff in Hnd. destruct Hnd as [Hf Hnd].
  destruct Ha as [->|Ha], Hb as [->|Hb]; auto.
  - exfalso. apply Hf. rewrite E. apply in_map. exact Hb.
  - exfalso. apply Hf. rewrite <- E. apply in_map. exact Ha.
Qed.

Lemma sum_sold_delete_other k p l :
  (forall ty, In ty l -> p ty = true -> tt_event_id ty <> k) ->
  sum_tickets_sold k (delete_where p l) = sum_tickets_sold k l.
Proof.
  intros H. unfold sum_tickets_sold, delete_where.
  induction l as [|ty l IH]; [reflexivity|].
  assert (IH' := IH (fun ty' Hin => H ty' (or_intror Hin))).
  cbn [filter]. destruct (p ty) eqn:C; cbn [negb].
  - pose proof (H ty (or_introl eq_refl) C) as Hne. apply Z.eqb_neq in Hne.
    rewrite Hne. exact IH'.
  - cbn [filter]. destruct (tt_event_id ty =? k); cbn [fold_right];
      rewrite IH'; reflexivity.
Qed.

Lemma sum_total_delete_other k p l :
  (forall ty, In ty l -> p ty = true -> tt_event_id ty <> k) ->
  sum_total_tickets k (delete_where p l) = sum_total_tickets k l.
Proof.
  intros H. unfold sum_total_tickets, delete_where.
  induction l as [|ty l IH]; [reflexivity|].
  assert (IH' := IH (fun ty' Hin => H ty' (or_intror Hin))).
  cbn [filter]. destruct (p ty) eqn:C; cbn [negb].
  - pose proof (H ty (or_introl eq_refl) C) as Hne. apply Z.eqb_neq in Hne.
    rewrite Hne. exact IH'.
  - cbn [filter]. destruct (tt_event_id ty =? k); cbn [fold_right];
      rewrite IH'; reflexivity.
Qed.

Lemma ticket_type_with_event_some id s ty ev :
  ticket_type_with_event id s = Some (ty, ev) ->
  In ty (ticket_types s) /\ tt_id ty = id /\
  In ev (events s) /\ e_id ev = tt_event_id ty.
Proof.
  unfold ticket_type_with_event.
  assert (G : forall l,
    hd_error (flat_map (fun ty => map (pair ty)
                (filter (fun e => e_id e =? tt_event_id ty) (events s))) l)
      = Some (ty, ev) ->
    In ty l /\ In ev (events s) /\ e_id ev = tt_event_id ty).
  { induction l as [|a l IH]; cbn [flat_map]; [discriminate|].
    destruct (filter (fun e => e_id e =? tt_event_id a) (events s)) as [|e es] eqn:E.
    - cbn [map app]. intros H. destruct (IH H) as (H1 & H2).
      split; [right; exact H1 | exact H2].
    - cbn [map app hd_error]. intros H. inversion H; subst.
      split; [left; reflexivity|].
      assert (Hin : In ev (filter (fun e => e_id e =? tt_event_id ty) (events s)))
        by (rewrite E; left; reflexivity).
      apply filter_In in Hin. destruct Hin as [Hin Hid].
      apply Z.eqb_eq in Hid. split; assumption. }
  intros H. apply G in H. destruct H as (Hin & Hev & Hid).
  apply filter_In in Hin. destruct Hin as [Hin Htid]. apply Z.eqb_eq in Htid. auto.
Qed.

(** The deletion when it goes through. *)
Lemma delete_ticket_type_run user_id id s :
  let o := delete_ticket_type user_id id s in
  (store o = s /\ engine_calls o = [] /\ forall d, value o <> DeletedType d) \/
  (exists ty0 ev d rest,
     ticket_type_with_event id s = Some (ty0, ev) /\
     e_organizer_id ev = user_id /\
     count_tickets_of_type id (tickets s) <= 0 /\
     filter (fun ty => tt_id ty =? id) (ticket_types s) = d :: rest /\
     o = mkOutcome (DeletedType d)
           (sync_event (tt_event_id d)
              (with_ticket_types (delete_where (fun ty => tt_id ty =? id)) s)) []).
Proof.
  cbv zeta. unfold delete_ticket_type.
  destruct (valid_id id); cbn [negb].
  2: { left. split; [reflexivity|]. split; [reflexivity | discriminate]. }
  rewrite bind_query.
  destruct (ticket_type_with_event id s) as [[ty0 ev]|] eqn:Hj.
  2: { left. split; [reflexivity|]. split; [reflexivity | discriminate]. }
  destruct (e_organizer_id ev =? user_id) eqn:Ho; cbn [negb].
  2: { left. split; [reflexivity|]. split; [reflexivity | discriminate]. }
  rewrite bind_query. cbv beta.
  destruct (0 <? count_tickets_of_type id (tickets s)) eqn:Hc.
  { left. split; [reflexivity|]. split; [reflexivity | discriminate]. }
  rewrite bind_query. cbv beta.
  destruct (ticket_type_with_event_some _ _ _ _ Hj) as (Hin & Hid & _).
  destruct (filter (fun ty => tt_id ty =? id) (ticket_types s)) as [|d rest] eqn:Ef.
  { exfalso.
    assert (H : In ty0 (filter (fun ty => tt_id ty =? id) (ticket_types s))).
    { apply filter_In. split; [exact Hin | apply Z.eqb_eq; exact Hid]. }
    rewrite Ef in H. destruct H. }
  right. exists ty0, ev, d, rest.
  apply Z.eqb_eq in Ho. apply Z.ltb_ge in Hc.
  split; [reflexivity|]. split; [exact Ho|]. split; [exact Hc|].
  split; [reflexivity|]. run_op. reflexivity.
Qed.

(** X19. [DELETE /ticket-types/:id] is guarded and keeps the counters in
    step.  It never calls the offer engine, and unless it answers with the
    deleted type it writes nothing.  It goes through only for a type of an
    event organized by the caller to which no ticket row of any status
    refers; then exactly the types with that id are removed, tickets,
    transactions and waitlist are untouched, no ticket is left referring to
    the deleted type, and the event of the deleted type has its counters
    recomputed from the remaining types.  With unique ticket-type ids the
    aggregate invariant of every event is kept. *)
Theorem delete_ticket_type_is_guarded :
  forall user_id id s,
    let o := delete_ticket_type user_id id s in
    engine_calls o = [] /\
    ((forall d, value o <> DeletedType d) -> store o = s) /\
    (forall d, value o = DeletedType d ->
       In d (ticket_types s) /\ tt_id d = id /\
       (exists ty ev, In ty (ticket_types s) /\ tt_id ty = id /\
                      In ev (events s) /\ e_id ev = tt_event_id ty /\
                      e_organizer_id ev = user_id) /\
       (forall t, In t (tickets s) -> t_ticket_type_id t <> id) /\
       (forall ty, In ty (ticket_types (store o)) <->
                   In ty (ticket_types s) /\ tt_id ty <> id) /\
       tickets (store o) = tickets s /\ transactions (store o) = transactions s /\
       waitlist (store o) = waitlist s /\
       (forall e, In e (events (store o)) -> e_id e = tt_event_id d ->
                  event_in_sync (store o) e) /\
       (NoDup (map tt_id (ticket_types s)) -> aggregate_invariant s ->
        aggregate_invariant (store o))).
Proof.
  intros user_id id s o.
  destruct (delete_ticket_type_run user_id id s)
    as [(Es & Ec & Hv)|(ty0 & ev & d & rest & Hj & Ho & Hc & Ef & Eo)];
    fold o in Es, Ec, Hv || fold o in Eo.
  { split; [exact Ec|]. split; [intros _; exact Es|].
    intros d H. exfalso. exact (Hv d H). }
  rewrite Eo. cbn [value store engine_calls].
  split; [reflexivity|]. split; [intros H; exfalso; apply (H d); reflexivity|].
  intros d' H. inversion H; subst d'. clear H.
  assert (Hd : In d (ticket_types s) /\ tt_id d = id).
  { assert (H : In d (filter (fun ty => tt_id ty =? id) (ticket_types s)))
      by (rewrite Ef; left; reflexivity).
    apply filter_In in H. destruct H as [H1 H2]. apply Z.eqb_eq in H2. auto. }
  destruct Hd as [Hd Hdid].
  destruct (ticket_type_with_event_some _ _ _ _ Hj) as (Hin0 & Hid0 & Hev & Heid).
  split; [exact Hd|]. split; [exact Hdid|].
  split; [exists ty0, ev; auto 6|].
  split.
  { intros t Hin E. unfold count_tickets_of_type in Hc.
    assert (H : In t (filter (fun t => t_ticket_type_id t =? id) (tickets s))).
    { apply filter_In. split; [exact Hin | apply Z.eqb_eq; exact E]. }
    destruct (filter _ (tickets s)); [destruct H | cbn [List.length] in Hc; lia]. }
  split.
  { intros ty. cbn [sync_event with_events with_ticket_types ticket_types].
    rewrite in_delete_where, Z.eqb_neq. reflexivity. }
  do 3 (split; [reflexivity|]).
  split; [intros e; apply sync_event_in_sync|].
  intros Hnd Hinv e Hin.
  destruct (Z.eq_dec (e_id e) (tt_event_id d)) as [E|E];
    [apply sync_event_in_sync; assumption|].
  unfold sync_event, with_events, with_ticket_types in *.
  cbn [events ticket_types] in *.
  apply in_update_where_inv in Hin. destruct Hin as (e0 & He0 & Ee). cbv beta in Ee.
  destruct (e_id e0 =? tt_event_id d) eqn:C.
  { subst e. cbn [set_event_counts e_id] in E. apply Z.eqb_eq in C. contradiction. }
  subst e. destruct (Hinv e0 He0) as [Hs Ht].
  unfold event_in_sync. cbn [ticket_types].
  assert (Hother : forall ty, In ty (ticket_types s) -> (tt_id ty =? id) = true ->
                              tt_event_id ty <> e_id e0).
  { intros ty Hty Hp Hev'. apply Z.eqb_eq in Hp.
    assert (ty = d) by (apply (same_id_same_type (ticket_types s)); congruence).
    subst ty. apply E. symmetry. exact Hev'. }
  rewrite sum_sold_delete_other, sum_total_delete_other by exact Hother.
  split; assumption.
Qed.

Lemma delete_ticket_type_is_guarded_witness :
  store (delete_ticket_type 9 1 sold_out) = sold_out /\
  aggregate_invariant (store (delete_ticket_type 9 1 venue)).
Proof.
  split.
  - apply (delete_ticket_type_is_guarded 9 1 sold_out).
    intros d. vm_compute. discriminate.
  - destruct (delete_ticket_type_is_guarded 9 1 venue) as (_ & _ & H).
    destruct (H (mkTicketType 1 1 50%float 1 0) ltac:(vm_compute; reflexivity))
      as (_ & _ & _ & _ & _ & _ & _ & _ & _ & Hinv).
    apply Hinv.
    + vm_compute. repeat constructor. intros [].
    + intros e [<-|[]]. vm_compute. split; reflexivity.
Defined.
